(** * Contract text structuring pipeline (mitali_jadhav.py)

    A shallow embedding of the heuristic core of the PDF contract parser:
    the normaliser, the metadata extractors, the heading classifier, the
    inline bullet exploder, the clause segmenter and the section assembler,
    together with the properties stated about them.

    Text is modelled as lists of 8-bit characters.  The character classes
    follow Python's [str] methods and the [re] module on the ASCII range;
    codes above 127 belong to no class.  Regular expressions are kept as
    syntax trees, written next to the pattern literal they come from, and
    run by a backtracking matcher with Python's priorities (greedy
    repetition, ordered alternation, leftmost match). *)

From Stdlib Require Import String Ascii List Bool Arith Lia.
Import ListNotations.

Set Implicit Arguments.

Definition str := list ascii.

Coercion list_ascii_of_string : string >-> list.

Open Scope char_scope.
Open Scope string_scope.
Open Scope list_scope.
Open Scope nat_scope.

(** ** Characters *)

Module Char.

Definition code (c : ascii) : nat := nat_of_ascii c.

Definition between (lo hi : nat) (c : ascii) : bool :=
  (lo <=? code c) && (code c <=? hi).

Definition is_digit (c : ascii) : bool := between 48 57 c.
Definition is_upper (c : ascii) : bool := between 65 90 c.
Definition is_lower (c : ascii) : bool := between 97 122 c.
Definition is_alpha (c : ascii) : bool := is_upper c || is_lower c.

(** [str.isspace] and the class [\s]: TAB, LF, VT, FF, CR, the separators
    FS, GS, RS, US and the space. *)
Definition is_space (c : ascii) : bool := between 9 13 c || between 28 32 c.

(** The class [\w], which decides [\b]. *)
Definition is_word (c : ascii) : bool :=
  is_alpha c || is_digit c || (code c =? 95).

Definition lower (c : ascii) : ascii :=
  if is_upper c then ascii_of_nat (code c + 32) else c.
Definition upper (c : ascii) : ascii :=
  if is_lower c then ascii_of_nat (code c - 32) else c.

Definition eqb (a b : ascii) : bool := Ascii.eqb a b.

End Char.

(** ** Regular expressions *)

Module Re.

Inductive item : Type :=
| One (c : ascii)
| Range (lo hi : ascii).

(** One-character patterns: a literal, a class [[...]], [\d], [\s], [.]. *)
Inductive atom : Type :=
| Chr (c : ascii)
| Cls (items : list item)
| Digit
| Space
| Dot.

Inductive regex : Type :=
| Eps
| At (a : atom)
| Seq (r1 r2 : regex)
| Alt (r1 r2 : regex)
| Rep (lo : nat) (hi : option nat) (r : regex)   (* greedy r{lo,hi} *)
| Grp (n : nat) (r : regex)                      (* capturing group n *)
| Bol                                            (* ^ *)
| Eol                                            (* $ *)
| WordB                                          (* \b *)
| LookBehind (l : list atom).                    (* (?<=a1...ak) *)

Definition Star (r : regex) : regex := Rep 0 None r.
Definition Plus (r : regex) : regex := Rep 1 None r.
Definition Opt (r : regex) : regex := Rep 0 (Some 1) r.

Fixpoint Cat (rs : list regex) : regex :=
  match rs with
  | [] => Eps
  | [r] => r
  | r :: rs' => Seq r (Cat rs')
  end.

Fixpoint Lit (s : str) : regex :=
  match s with
  | [] => Eps
  | [c] => At (Chr c)
  | c :: s' => Seq (At (Chr c)) (Lit s')
  end.

Fixpoint Alts (rs : list regex) : regex :=
  match rs with
  | [] => Eps
  | [r] => r
  | r :: rs' => Alt r (Alts rs')
  end.

Definition item_has (i : item) (x : ascii) : bool :=
  match i with
  | One c => Char.eqb x c
  | Range lo hi => Char.between (Char.code lo) (Char.code hi) x
  end.

(** [icase] is the flag [re.I]. *)
Definition atom_has (icase : bool) (a : atom) (x : ascii) : bool :=
  match a with
  | Chr c => if icase then Char.eqb (Char.lower x) (Char.lower c) else Char.eqb x c
  | Cls items =>
      existsb (fun i => item_has i x) items
      || (icase && existsb (fun i => item_has i (Char.lower x) || item_has i (Char.upper x)) items)
  | Digit => Char.is_digit x
  | Space => Char.is_space x
  | Dot => negb (Char.eqb x "010")
  end.

(** The matcher's position: the text already passed (latest character
    first), the text ahead and the groups captured so far. *)
Record mstate : Type := MState {
  before : str;
  after : str;
  caps : list (nat * str)
}.

(** A way to match: the characters eaten (latest first) and the
    position reached. *)
Definition way : Type := (str * mstate)%type.

Definition extend (e1 : str) (w : way) : way := (fst w ++ e1, snd w).

Definition set_cap (n : nat) (w : way) : way :=
  (fst w, MState (before (snd w)) (after (snd w)) ((n, rev (fst w)) :: caps (snd w))).

Fixpoint lookup (n : nat) (l : list (nat * str)) : option str :=
  match l with
  | [] => None
  | (k, v) :: l' => if k =? n then Some v else lookup n l'
  end.

Definition group (n : nat) (s : mstate) : option str := lookup n (caps s).

Definition head_is (p : ascii -> bool) (l : str) : bool :=
  match l with
  | [] => false
  | c :: _ => p c
  end.

Fixpoint behind (icase : bool) (rl : list atom) (b : str) : bool :=
  match rl, b with
  | [], _ => true
  | a :: rl', c :: b' => atom_has icase a c && behind icase rl' b'
  | _ :: _, [] => false
  end.

(** Greedy bounded repetition of a one-character pattern, by a scan of
    the text ahead: the longest run first, then every shorter one down
    to [lo] characters. *)
Fixpoint scan (icase : bool) (a : atom) (lo : nat) (hi : option nat)
    (eaten b aft : str) (cp : list (nat * str)) : list way :=
  let stop := if lo =? 0 then [(eaten, MState b aft cp)] else [] in
  match hi with
  | Some 0 => stop
  | _ =>
      match aft with
      | c :: rest =>
          if atom_has icase a c
          then scan icase a (pred lo) (option_map pred hi) (c :: eaten) (c :: b) rest cp
               ++ stop
          else stop
      | [] => stop
      end
  end.

(** Greedy bounded repetition of [step].  Every alternative that runs the
    body once more comes before the alternative that stops here; an
    iteration that eats nothing is dropped. *)
Fixpoint rep_loop (step : mstate -> list way) (fuel lo : nat)
    (hi : option nat) (s : mstate) : list way :=
  let stop := if lo =? 0 then [([], s)] else [] in
  match fuel with
  | 0 => stop
  | S fuel' =>
      match hi with
      | Some 0 => stop
      | _ =>
          flat_map
            (fun w1 =>
               match fst w1 with
               | [] => []
               | _ => map (extend (fst w1))
                          (rep_loop step fuel' (pred lo) (option_map pred hi) (snd w1))
               end)
            (step s)
          ++ stop
      end
  end.

(** All the ways [r] matches at [s], in the order a backtracking matcher
    tries them: the head of the list is the match Python reports. *)
Fixpoint run (icase : bool) (r : regex) (s : mstate) : list way :=
  match r with
  | Eps => [([], s)]
  | At a =>
      match after s with
      | c :: rest =>
          if atom_has icase a c then [([c], MState (c :: before s) rest (caps s))] else []
      | [] => []
      end
  | Seq r1 r2 =>
      flat_map (fun w1 => map (extend (fst w1)) (run icase r2 (snd w1))) (run icase r1 s)
  | Alt r1 r2 => run icase r1 s ++ run icase r2 s
  | Rep lo hi r' =>
      match r' with
      | At a => scan icase a lo hi [] (before s) (after s) (caps s)
      | _ => rep_loop (run icase r') (length (after s)) lo hi s
      end
  | Grp n r' => map (set_cap n) (run icase r' s)
  | Bol => match before s with [] => [([], s)] | _ => [] end
  | Eol =>
      match after s with
      | [] => [([], s)]
      | [c] => if Char.eqb c "010" then [([], s)] else []
      | _ => []
      end
  | WordB =>
      if xorb (head_is Char.is_word (before s)) (head_is Char.is_word (after s))
      then [([], s)] else []
  | LookBehind l => if behind icase (rev l) (before s) then [([], s)] else []
  end.

Definition start (b a : str) : mstate := MState b a [].

(** [pattern.match(s)]: a match at position 0. *)
Definition rmatch (icase : bool) (r : regex) (s : str) : option mstate :=
  option_map snd (hd_error (run icase r (start [] s))).

(** Leftmost match at or after the current position; the result pairs
    the reversed text before the match with the matcher's final state. *)
Fixpoint search_from (icase : bool) (r : regex) (b a : str) : option (str * mstate) :=
  match run icase r (start b a) with
  | w :: _ => Some (b, snd w)
  | [] =>
      match a with
      | [] => None
      | c :: a' => search_from icase r (c :: b) a'
      end
  end.

(** [re.search(pattern, s)]. *)
Definition search (icase : bool) (r : regex) (s : str) : option (str * mstate) :=
  search_from icase r [] s.

(** [pattern.finditer(s)]: successive non-overlapping matches, each given
    as the reversed text before it and the final state. *)
Fixpoint finditer_from (icase : bool) (r : regex) (fuel : nat) (b a : str)
    : list (str * mstate) :=
  match fuel with
  | 0 => []
  | S fuel' =>
      match search_from icase r b a with
      | None => []
      | Some (b0, m) =>
          if length (after m) <? length a
          then (b0, m) :: finditer_from icase r fuel' (before m) (after m)
          else match after m with
               | [] => [(b0, m)]
               | c :: a' => (b0, m) :: finditer_from icase r fuel' (c :: before m) a'
               end
      end
  end.

Definition finditer (icase : bool) (r : regex) (s : str) : list (str * mstate) :=
  finditer_from icase r (S (length s)) [] s.

(** [pattern.sub(repl, s)], the replacement computed from each match. *)
Fixpoint sub_from (icase : bool) (r : regex) (repl : mstate -> str) (fuel : nat)
    (b a : str) : str :=
  match fuel with
  | 0 => a
  | S fuel' =>
      match run icase r (start b a) with
      | (_ :: _, m) :: _ => repl m ++ sub_from icase r repl fuel' (before m) (after m)
      | ([], m) :: _ =>
          match a with
          | [] => repl m
          | c :: a' => repl m ++ c :: sub_from icase r repl fuel' (c :: b) a'
          end
      | [] =>
          match a with
          | [] => []
          | c :: a' => c :: sub_from icase r repl fuel' (c :: b) a'
          end
      end
  end.

Definition sub (icase : bool) (r : regex) (repl : mstate -> str) (s : str) : str :=
  sub_from icase r repl (S (length s)) [] s.

Definition grp_or_empty (n : nat) (m : mstate) : str :=
  match group n m with
  | Some g => g
  | None => []
  end.

End Re.

(** ** Python's string methods *)

Module Py.

Fixpoint lstrip (s : str) : str :=
  match s with
  | c :: s' => if Char.is_space c then lstrip s' else s
  | [] => []
  end.

Definition rstrip (s : str) : str := rev (lstrip (rev s)).

(** [s.strip()] *)
Definition strip (s : str) : str := lstrip (rstrip s).

Fixpoint lstrip_of (p : ascii -> bool) (s : str) : str :=
  match s with
  | c :: s' => if p c then lstrip_of p s' else s
  | [] => []
  end.

(** [s.strip(chars)], the set of characters given as a predicate. *)
Definition strip_of (p : ascii -> bool) (s : str) : str :=
  lstrip_of p (rev (lstrip_of p (rev s))).

Definition flush_word (cur : str) (k : list str) : list str :=
  match cur with
  | [] => k
  | _ => rev cur :: k
  end.

Fixpoint split_go (cur : str) (s : str) : list str :=
  match s with
  | [] => flush_word cur []
  | c :: s' =>
      if Char.is_space c then flush_word cur (split_go [] s')
      else split_go (c :: cur) s'
  end.

(** [s.split()]: the maximal runs of non-blank characters. *)
Definition split (s : str) : list str := split_go [] s.

(** The line boundaries of [str.splitlines] on the ASCII range:
    LF, VT, FF, CR, FS, GS, RS (and CR LF as one). *)
Definition is_linebreak (c : ascii) : bool :=
  Char.between 10 13 c || Char.between 28 30 c.

Fixpoint splitlines_go (cur : str) (s : str) : list str :=
  match s with
  | [] => flush_word cur []
  | c :: s' =>
      if Char.eqb c "013" then
        match s' with
        | d :: s'' =>
            if Char.eqb d "010" then rev cur :: splitlines_go [] s''
            else rev cur :: splitlines_go [] s'
        | [] => rev cur :: splitlines_go [] s'
        end
      else if is_linebreak c then rev cur :: splitlines_go [] s'
      else splitlines_go (c :: cur) s'
  end.

(** [s.splitlines()] *)
Definition splitlines (s : str) : list str := splitlines_go [] s.

(** [s.endswith(c)] for a one-character suffix. *)
Definition endswith (c : ascii) (s : str) : bool :=
  match rev s with
  | d :: _ => Char.eqb d c
  | [] => false
  end.

(** [c in s] *)
Definition contains (c : ascii) (s : str) : bool := existsb (Char.eqb c) s.

(** [s.isdigit()] *)
Definition isdigit (s : str) : bool :=
  match s with
  | [] => false
  | _ => forallb Char.is_digit s
  end.

(** [s.isupper()]: some cased character and no lower-case one. *)
Definition isupper (s : str) : bool :=
  existsb Char.is_upper s && negb (existsb Char.is_lower s).

(** [s.islower()] *)
Definition islower (s : str) : bool :=
  existsb Char.is_lower s && negb (existsb Char.is_upper s).

Fixpoint title_go (prev_cased : bool) (s : str) : str :=
  match s with
  | [] => []
  | c :: s' =>
      (if prev_cased then Char.lower c else Char.upper c)
        :: title_go (Char.is_alpha c) s'
  end.

(** [s.title()] *)
Definition title (s : str) : str := title_go false s.

(** [s.replace(a, b)] for one-character [a] and [b]. *)
Definition replace (a b : ascii) (s : str) : str :=
  map (fun c => if Char.eqb c a then b else c) s.

(** [sep.join(l)] *)
Fixpoint join (sep : str) (l : list str) : str :=
  match l with
  | [] => []
  | [x] => x
  | x :: l' => x ++ sep ++ join sep l'
  end.

Definition digit_val (c : ascii) : nat := Char.code c - 48.

Definition int_digits (s : str) : nat :=
  fold_left (fun a c => 10 * a + digit_val c) s 0.

Definition eqb (a b : str) : bool :=
  if list_eq_dec ascii_dec a b then true else false.

Fixpoint startswith (x s : str) : bool :=
  match x, s with
  | [], _ => true
  | a :: x', b :: s' => Char.eqb a b && startswith x' s'
  | _ :: _, [] => false
  end.

(** [x in s] for strings. *)
Fixpoint is_infix (x s : str) : bool :=
  startswith x s
  || match s with
     | [] => false
     | _ :: s' => is_infix x s'
     end.

(** [x in {w1, ..., wn}] *)
Definition mem (x : str) (l : list str) : bool := existsb (eqb x) l.

End Py.

(** ** Exceptions *)

Inductive exn : Type := IndexError | ValueError | TypeError | AttributeError.

Inductive res (A : Type) : Type :=
| Ok (a : A)
| Raise (e : exn).

Arguments Ok {A} a.
Arguments Raise {A} e.

Definition bind {A B : Type} (m : res A) (k : A -> res B) : res B :=
  match m with
  | Ok a => k a
  | Raise e => Raise e
  end.

Notation "x <- m ;; k" := (bind m (fun x => k))
  (at level 61, m at next level, right associativity).
Notation "' p <- m ;; k" := (bind m (fun x => let p := x in k))
  (at level 61, p pattern, m at next level, right associativity).

(** [l[0]] *)
Definition first {A : Type} (l : list A) : res A :=
  match l with
  | x :: _ => Ok x
  | [] => Raise IndexError
  end.

(** [sys.get_int_max_str_digits()], at its default. *)
Definition int_max_str_digits : nat := 4300.

(** [int(s)] as the heading filter calls it, on a string for which
    [isdigit] holds: CPython raises [ValueError] for a string of more
    digits than the limit above, leading zeros counted. *)
Definition py_int (s : str) : res nat :=
  if Py.isdigit s && (length s <=? int_max_str_digits)
  then Ok (Py.int_digits s) else Raise ValueError.

(** [m.group(n)] used as a string: a group that took no part in the
    match is [None], and a string method on it raises. *)
Definition group_str (n : nat) (m : Re.mstate) : res str :=
  match Re.group n m with
  | Some g => Ok g
  | None => Raise AttributeError
  end.

Fixpoint mapM {A B : Type} (f : A -> res B) (l : list A) : res (list B) :=
  match l with
  | [] => Ok []
  | x :: l' => y <- f x ;; ys <- mapM f l' ;; Ok (y :: ys)
  end.

Fixpoint foldM {A S : Type} (f : S -> A -> res S) (l : list A) (s : S) : res S :=
  match l with
  | [] => Ok s
  | x :: l' => s' <- f s x ;; foldM f l' s'
  end.

Import Re.

(** ** Data model *)

Record Clause : Type := mkClause {
  text : str;
  label : str;
  index : nat
}.

Record Section : Type := mkSection {
  title : str;
  number : option str;
  clauses : list Clause
}.

(** ** Helpers *)

(** [WS_RE = re.compile(r"\s+")] *)
Definition WS_RE : regex := Plus (At Space).

Definition lower_az : atom := Cls [Range "a" "z"].
Definition upper_AZ : atom := Cls [Range "A" "Z"].
Definition letter : atom := Cls [Range "A" "Z"; Range "a" "z"].

(** [CAMEL_GAP_RE = re.compile(r'([a-z])([A-Z])')] *)
Definition CAMEL_GAP_RE : regex := Seq (Grp 1 (At lower_az)) (Grp 2 (At upper_AZ)).
(** [LETTER_DIGIT_GAP_RE = re.compile(r'([A-Za-z])(\d)')] *)
Definition LETTER_DIGIT_GAP_RE : regex := Seq (Grp 1 (At letter)) (Grp 2 (At Digit)).
(** [DIGIT_LETTER_GAP_RE = re.compile(r'(\d)([A-Za-z])')] *)
Definition DIGIT_LETTER_GAP_RE : regex := Seq (Grp 1 (At Digit)) (Grp 2 (At letter)).

Definition norm_ws (s : str) : str :=
  Py.strip (sub false WS_RE (fun _ => " " : str) s).

(** The replacement template [r'\1 \2']. *)
Definition gap_repl (m : mstate) : str :=
  grp_or_empty 1 m ++ " " ++ grp_or_empty 2 m.

Definition desquash (s : str) : str :=
  match s with
  | [] => s
  | _ =>
      let s := sub false CAMEL_GAP_RE gap_repl s in
      let s := sub false LETTER_DIGIT_GAP_RE gap_repl s in
      let s := sub false DIGIT_LETTER_GAP_RE gap_repl s in
      s
  end.

(** ** Sections and clauses: patterns *)

(** [SEC_RE], compiled with [re.I]:
<<
    ^(?:Section|Article)?\s*((?:\d+(?:\.\d+)*|[IVX]+))\s*[\.\)\-<en dash><em dash>]?\s+(.+)$
>>
    The en dash and the em dash of the delimiter class lie outside the
    8-bit range and match no character of the model. *)
Definition SEC_RE : regex :=
  Cat [ Bol;
        Opt (Alt (Lit "Section") (Lit "Article"));
        Star (At Space);
        Grp 1 (Alt (Seq (Plus (At Digit)) (Star (Seq (At (Chr ".")) (Plus (At Digit)))))
                   (Plus (At (Cls [One "I"; One "V"; One "X"]))));
        Star (At Space);
        Opt (At (Cls [One "."; One ")"; One "-"]));
        Plus (At Space);
        Grp 2 (Plus (At Dot));
        Eol ].

(** [SEC_ALLCAPS_RE = re.compile(r'^[A-Z0-9 \-&,]{3,}$')] *)
Definition SEC_ALLCAPS_RE : regex :=
  Cat [ Bol;
        Rep 3 None (At (Cls [Range "A" "Z"; Range "0" "9"; One " "; One "-"; One "&"; One ","]));
        Eol ].

Definition cap_word : regex := Seq (At upper_AZ) (Plus (At lower_az)).

(** [TITLE_CASE_HEADING_RE = re.compile(r'^(?:[A-Z][a-z]+(?:\s+[A-Z][a-z]+){0,6})$')] *)
Definition TITLE_CASE_HEADING_RE : regex :=
  Cat [ Bol; cap_word; Rep 0 (Some 6) (Seq (Plus (At Space)) cap_word); Eol ].

(** [TIME_DOT_RE = re.compile(r'\b(\d{1,2})\.(\d{2})\b')] *)
Definition TIME_DOT_RE : regex :=
  Cat [ WordB; Grp 1 (Rep 1 (Some 2) (At Digit)); At (Chr ".");
        Grp 2 (Rep 2 (Some 2) (At Digit)); WordB ].

(** [TIME_LIKE_RE = re.compile(r"^(?:\d{1,2}[:\.]\d{2})(?:\s?(?:am|pm))?$", re.I)] *)
Definition TIME_LIKE_RE : regex :=
  Cat [ Bol;
        Cat [ Rep 1 (Some 2) (At Digit); At (Cls [One ":"; One "."]);
              Rep 2 (Some 2) (At Digit) ];
        Opt (Seq (Opt (At Space)) (Alt (Lit "am") (Lit "pm")));
        Eol ].

(** The replacement template [r'\1:\2']. *)
Definition time_repl (m : mstate) : str :=
  grp_or_empty 1 m ++ ":" ++ grp_or_empty 2 m.

Definition protect_times (s : str) : str :=
  sub false TIME_DOT_RE time_repl s.

Definition matches (icase : bool) (r : regex) (s : str) : bool :=
  match rmatch icase r s with
  | Some _ => true
  | None => false
  end.

Definition looks_like_time_token (token : str) : bool :=
  matches true TIME_LIKE_RE token.

Definition COMMON_SENTENCE_STARTS : list str :=
  [ "The" : str; "This" : str; "These" : str; "Those" : str; "A" : str; "An" : str;
    "In" : str; "On" : str; "At" : str; "For" : str; "From" : str; "If" : str;
    "Upon" : str; "Whereas" : str ].

Definition nonempty {A : Type} (l : list A) : bool :=
  match l with
  | [] => false
  | _ => true
  end.

Definition likely_heading (number title : str) : res bool :=
  if looks_like_time_token number then Ok false else
  if negb (nonempty title) then Ok false else
  let t := Py.strip title in
  if Py.endswith "." t then Ok false else
  if 120 <? length t then Ok false else
  let words := Py.split t in
  if negb (nonempty words) then Ok false else
  w0 <- first words ;;
  c0 <- first w0 ;;
  if Char.is_lower c0 then Ok false else
  if (14 <? length words) && negb (Py.contains ":" t) then Ok false else
  sentence <-
    (if nonempty number && Py.isdigit number then
       n <- py_int number ;;
       if 30 <=? n then w <- first words ;; Ok (Py.mem w COMMON_SENTENCE_STARTS)
       else Ok false
     else Ok false) ;;
  if sentence then Ok false else
  if length words <=? 12 then Ok true else
  if matches false SEC_ALLCAPS_RE t && (length words <=? 16) then Ok true else
  Ok false.

Definition ivx : atom := Cls [One "i"; One "v"; One "x"].

Definition clause_pat (open : list regex) (lbl : regex) (close : list regex)
    (gap : regex) : regex :=
  Cat ([Bol] ++ open ++ [Grp 1 lbl] ++ close ++ [gap; Grp 2 (Star (At Dot)); Eol]).

(** [CLAUSE_RE]: each pattern with its [re.I] flag.  REST stands for the
    second group and the end anchor: any characters (dot, starred, in
    parentheses) up to the dollar.
<<
    ^\(([a-z])\)\s+ REST
    ^\(([A-Z])\)\s+ REST
    ^\(([ivx]+)\)\s+ REST         re.I
    ^([a-z])\.\s+ REST
    ^([A-Z])\.\s+ REST
    ^([ivx]+)\.\s+ REST           re.I
    ^(\d+(?:\.\d+)+)\s+ REST
    ^(\d+)[\.\)]\s+ REST
    ^([A-Z][A-Z ]{2,})[:\-]\s* REST
>> *)
Definition CLAUSE_RE : list (bool * regex) :=
  let lp := At (Chr "(") in
  let rp := At (Chr ")") in
  let dot := At (Chr ".") in
  let ws1 := Plus (At Space) in
  [ (false, clause_pat [lp] (At lower_az) [rp] ws1);
    (false, clause_pat [lp] (At upper_AZ) [rp] ws1);
    (true,  clause_pat [lp] (Plus (At ivx)) [rp] ws1);
    (false, clause_pat [] (At lower_az) [dot] ws1);
    (false, clause_pat [] (At upper_AZ) [dot] ws1);
    (true,  clause_pat [] (Plus (At ivx)) [dot] ws1);
    (false, clause_pat [] (Seq (Plus (At Digit)) (Plus (Seq dot (Plus (At Digit))))) [] ws1);
    (false, clause_pat [] (Plus (At Digit)) [At (Cls [One "."; One ")"])] ws1);
    (false, clause_pat [] (Seq (At upper_AZ) (Rep 2 None (At (Cls [Range "A" "Z"; One " "]))))
                       [At (Cls [One ":"; One "-"])] (Star (At Space))) ].

Definition bullet_letter : atom :=
  Cls [Range "a" "z"; Range "A" "Z"; One "i"; One "v"; One "x"; One "I"; One "V"; One "X"].

(** [INLINE_BULLET_SPLIT_RE]:
<<
    (?:(?<=^)|(?<=[;:]\s))
    ( (?:\([a-zA-ZivxIVX]+\)) | (?:[a-zA-ZivxIVX]+[.\)]) | (?:\d+[.)]) )\s+
>>
    The look-behind [(?<=^)] holds exactly at the start of the line. *)
Definition INLINE_BULLET_SPLIT_RE : regex :=
  Cat [ Alt Bol (LookBehind [Cls [One ";"; One ":"]; Space]);
        Grp 1 (Alts [ Cat [At (Chr "("); Plus (At bullet_letter); At (Chr ")")];
                      Cat [Plus (At bullet_letter); At (Cls [One "."; One ")"])];
                      Cat [Plus (At Digit); At (Cls [One "."; One ")"])] ]);
        Plus (At Space) ].

(** The character set of [first_word.strip(...)]: the double quote, the
    apostrophe, the three pairs of brackets and [. , ; :].  The two curly
    quotes of the source lie outside the 8-bit range. *)
Definition is_punct (c : ascii) : bool :=
  Py.contains c ("034"%char :: ("'()[]{}.,;:" : str)).

(** Body of the [for i, m in enumerate(tokens)] loop: [m] is followed by
    the tokens [rest]. *)
Fixpoint bullet_parts (tokens : list (str * mstate)) : res (list str) :=
  match tokens with
  | [] => Ok []
  | (_, m) :: rest =>
      lbl <- group_str 1 m ;;
      let upto :=
        match rest with
        | (b1, _) :: _ => firstn (length b1 - length (before m)) (after m)
        | [] => after m
        end in
      let body := norm_ws upto in
      more <- bullet_parts rest ;;
      Ok (if nonempty body then (lbl ++ " " ++ body) :: more else more)
  end.

Definition explode_inline_bullets (line : str) : res (list str) :=
  let tokens := finditer false INLINE_BULLET_SPLIT_RE line in
  if negb (nonempty tokens) then Ok [line] else
  '(b0, m0) <- first tokens ;;
  whole <-
    (if length b0 =? 0 then
       lbl <- group_str 1 m0 ;;
       let body := Py.lstrip (after m0) in
       if Py.isdigit (removelast lbl) then
         let ws := Py.split body in
         w <- first (if nonempty ws then ws else [[]]) ;;
         Ok (Py.mem (Py.strip_of is_punct w) COMMON_SENTENCE_STARTS)
       else Ok false
     else Ok false) ;;
  if whole then Ok [line] else
  let pre := norm_ws (rev b0) in
  parts <- bullet_parts tokens ;;
  Ok (if nonempty pre then pre :: parts else parts).

(** *** Clause segmenter *)

Record seg : Type := mkSeg {
  seg_clauses : list Clause;
  cur_label : str;
  cur_parts : list str
}.

Definition flush_clause (st : seg) : seg :=
  mkSeg
    (if nonempty (cur_parts st)
     then seg_clauses st
            ++ [mkClause (norm_ws (Py.join " " (cur_parts st))) (cur_label st)
                         (length (seg_clauses st))]
     else seg_clauses st)
    [] [].

Fixpoint first_match (pats : list (bool * regex)) (l : str) : option mstate :=
  match pats with
  | [] => None
  | (icase, r) :: pats' =>
      match rmatch icase r l with
      | Some m => Some m
      | None => first_match pats' l
      end
  end.

(** [m.lastindex]: the highest group that took part in the match. *)
Definition lastindex (m : mstate) : option nat :=
  match caps m with
  | [] => None
  | _ => Some (fold_right (fun kv a => Nat.max (fst kv) a) 0 (caps m))
  end.

Definition seg_step (st : seg) (l : str) : res seg :=
  match first_match CLAUSE_RE l with
  | Some m =>
      let st := flush_clause st in
      lbl <- match group 1 m with Some g => Ok g | None => Raise TypeError end ;;
      let rem :=
        match lastindex m with
        | Some k => if 2 <=? k then group 2 m else group k m
        | None => Some []
        end in
      Ok (mkSeg (seg_clauses st) (norm_ws lbl)
                (match rem with
                 | Some (c :: r) => [norm_ws (c :: r)]
                 | _ => []
                 end))
  | None => Ok (mkSeg (seg_clauses st) (cur_label st) (cur_parts st ++ [l]))
  end.

(** The closing pass [for i, c in enumerate(clauses)]. *)
Fixpoint reindex (i : nat) (cs : list Clause) : list Clause :=
  match cs with
  | [] => []
  | c :: cs' => mkClause (norm_ws (text c)) (label c) i :: reindex (S i) cs'
  end.

Definition segment_clauses (lines : list str) : res (list Clause) :=
  st <- foldM seg_step lines (mkSeg [] [] []) ;;
  Ok (reindex 0 (seg_clauses (flush_clause st))).

(** *** Section assembler *)

Definition raw_lines (pages : list str) : list str :=
  map protect_times
      (filter nonempty
              (map (fun l => norm_ws (desquash l)) (flat_map Py.splitlines pages))).

Record asm : Type := mkAsm {
  sections : list Section;
  cur_title : option str;
  cur_num : option str;
  cur_body : list str
}.

(** Truth value of an optional string: [None] and [""] are false. *)
Definition truthy (o : option str) : bool :=
  match o with
  | Some (_ :: _) => true
  | _ => false
  end.

Definition or_empty (o : option str) : str :=
  match o with
  | Some s => s
  | None => []
  end.

Definition flush (st : asm) : res asm :=
  if truthy (cur_title st) then
    expanded <- mapM explode_inline_bullets (cur_body st) ;;
    cls <- segment_clauses (concat expanded) ;;
    Ok (mkAsm (sections st ++ [mkSection (norm_ws (or_empty (cur_title st))) (cur_num st) cls])
              None None [])
  else Ok (mkAsm (sections st) None None []).

(** The numbered shape: [SEC_RE] matches and [likely_heading] accepts. *)
Definition numbered_heading (line : str) : res (option (option str * str)) :=
  match rmatch true SEC_RE line with
  | Some m =>
      let num := group 1 m in
      g2 <- match group 2 m with Some g => Ok g | None => Raise TypeError end ;;
      let ttl := norm_ws g2 in
      ok <- likely_heading (or_empty num) ttl ;;
      Ok (if ok then Some (num, ttl) else None)
  | None => Ok None
  end.

Definition allcaps_heading (line : str) : bool :=
  matches false SEC_ALLCAPS_RE line && (length (Py.split line) <=? 12).

Definition titlecase_heading (line : str) : bool :=
  matches false TITLE_CASE_HEADING_RE line && (length (Py.split line) <=? 7).

Definition open_section (st : asm) (ttl : str) (num : option str) : res asm :=
  st' <- flush st ;;
  Ok (mkAsm (sections st') (Some ttl) num (cur_body st')).

Definition asm_step (st : asm) (line : str) : res asm :=
  h <- numbered_heading line ;;
  match h with
  | Some (num, ttl) => open_section st ttl num
  | None =>
      if allcaps_heading line then
        open_section st (if Py.isupper line then Py.title line else line) None
      else if titlecase_heading line then
        open_section st line None
      else
        Ok (mkAsm (sections st)
                  (if truthy (cur_title st) then cur_title st else Some ("Preamble" : str))
                  (cur_num st)
                  (cur_body st ++ [line]))
  end.

Definition parse_lines (lines : list str) : res (list Section) :=
  st <- foldM asm_step lines (mkAsm [] None None []) ;;
  st' <- flush st ;;
  Ok (sections st').

Definition parse_sections (pages : list str) : res (list Section) :=
  parse_lines (raw_lines pages).

(** ** Title and type *)

(** [TITLE_RE], compiled with [re.I]:
    [(AGREEMENT|CONTRACT|NDA|AMENDMENT|STATEMENT OF WORK|LICENSE|LEASE)] *)
Definition TITLE_RE : regex :=
  Grp 1 (Alts [ Lit "AGREEMENT"; Lit "CONTRACT"; Lit "NDA"; Lit "AMENDMENT";
                Lit "STATEMENT OF WORK"; Lit "LICENSE"; Lit "LEASE" ]).

Fixpoint fields_go (sep : ascii) (cur : str) (s : str) : list str :=
  match s with
  | [] => [rev cur]
  | c :: s' =>
      if Char.eqb c sep then rev cur :: fields_go sep [] s'
      else fields_go sep (c :: cur) s'
  end.

(** [Path(p).name]: the last component, the empty ones and [.] dropped. *)
Definition path_name (p : str) : str :=
  last (filter (fun x => nonempty x && negb (Py.eqb x ".")) (fields_go "/" [] p)) [].

Fixpoint rfind_go (c : ascii) (i : nat) (s : str) (found : option nat) : option nat :=
  match s with
  | [] => found
  | d :: s' => rfind_go c (S i) s' (if Char.eqb d c then Some i else found)
  end.

(** [Path(p).stem]: the name without its last suffix. *)
Definition path_stem (p : str) : str :=
  let name := path_name p in
  match rfind_go "." 0 name None with
  | Some i => if (0 <? i) && (i <? length name - 1) then firstn i name else name
  | None => name
  end.

Definition guess_title (pages : list str) (filename : str) : res (str * str) :=
  lines <- (if nonempty pages then p <- first pages ;; Ok (Py.splitlines p) else Ok []) ;;
  match find (fun line => match search true TITLE_RE line with Some _ => true | None => false end)
             lines with
  | Some line => Ok (norm_ws line, "Agreement" : str)
  | None =>
      Ok (Py.title (Py.replace "-" " " (Py.replace "_" " " (path_stem filename))),
          "Agreement" : str)
  end.

(** ** Effective date *)

Definition is_leap (y : nat) : bool :=
  (y mod 4 =? 0) && (negb (y mod 100 =? 0) || (y mod 400 =? 0)).

Definition days_in_month (y m : nat) : nat :=
  match m with
  | 1 | 3 | 5 | 7 | 8 | 10 | 12 => 31
  | 4 | 6 | 9 | 11 => 30
  | 2 => if is_leap y then 29 else 28
  | _ => 0
  end.

Definition valid_date (y m d : nat) : bool :=
  (1 <=? y) && (y <? 100 * 100) && (1 <=? m) && (m <=? 12)
  && (1 <=? d) && (d <=? days_in_month y m).

(** A [datetime] value: the constructor accepts calendar dates only. *)
Record datetime : Type := mkDatetime {
  year : nat;
  month : nat;
  day : nat;
  dt_valid : valid_date year month day = true
}.

(** [datetime(y, m, d)], [None] for the [ValueError]. *)
Definition make_datetime (y m d : nat) : option datetime :=
  match valid_date y m d as b return valid_date y m d = b -> option datetime with
  | true => fun H => Some (mkDatetime y m d H)
  | false => fun _ => None
  end eq_refl.

Definition digit_chr (n : nat) : ascii := ascii_of_nat (48 + n mod 10).

Definition pad2 (n : nat) : str := [digit_chr (n / 10); digit_chr n].
Definition pad4 (n : nat) : str :=
  [digit_chr (n / 1000); digit_chr (n / 100); digit_chr (n / 10); digit_chr n].

(** The year as the C library writes [%Y]: a decimal number without
    zero fill (glibc); the year of a [datetime] lies between 1 and 9999. *)
Definition year_str (y : nat) : str :=
  if y <? 10 then [digit_chr y]
  else if y <? 100 then pad2 y
  else if y <? 1000 then [digit_chr (y / 100); digit_chr (y / 10); digit_chr y]
  else pad4 y.

(** [dt.strftime("%Y-%m-%d")]: the month and the day with two digits,
    the year as above, so that 3 March 999 is written 999-03-03. *)
Definition strftime (dt : datetime) : str :=
  year_str (year dt) ++ "-" ++ pad2 (month dt) ++ "-" ++ pad2 (day dt).

Definition MONTHS : list str :=
  [ "january" : str; "february" : str; "march" : str; "april" : str; "may" : str;
    "june" : str; "july" : str; "august" : str; "september" : str; "october" : str;
    "november" : str; "december" : str ].

(** The pattern [_strptime] builds for the format ["%B %d, %Y"], matched
    with [re.I]: the month names longest first, the day as
    [3[0-1]|[1-2]\d|0[1-9]|[1-9]| [1-9]], the year as four digits, every
    blank of the format as [\s+]. *)
Definition STRPTIME_RE : regex :=
  let d19 := At (Cls [Range "1" "9"]) in
  Cat [ Grp 1 (Alts (map Lit [ "september" : str; "february" : str; "november" : str;
                               "december" : str; "january" : str; "october" : str;
                               "august" : str; "march" : str; "april" : str;
                               "june" : str; "july" : str; "may" : str ]));
        Plus (At Space);
        Grp 2 (Alts [ Seq (At (Chr "3")) (At (Cls [Range "0" "1"]));
                      Seq (At (Cls [Range "1" "2"])) (At Digit);
                      Seq (At (Chr "0")) d19;
                      d19;
                      Seq (At (Chr " ")) d19 ]);
        At (Chr ",");
        Plus (At Space);
        Grp 3 (Rep 4 (Some 4) (At Digit)) ].

Fixpoint index_of (x : str) (l : list str) (i : nat) : option nat :=
  match l with
  | [] => None
  | y :: l' => if Py.eqb x y then Some i else index_of x l' (S i)
  end.

(** [datetime.strptime(s, "%B %d, %Y")], [None] when it raises. *)
Definition strptime (s : str) : option datetime :=
  match rmatch true STRPTIME_RE s with
  | Some m =>
      match after m, group 1 m, group 2 m, group 3 m with
      | [], Some b, Some d, Some y =>
          match index_of (map Char.lower b) MONTHS 1 with
          | Some mo => make_datetime (Py.int_digits y) mo (Py.int_digits (Py.strip d))
          | None => None
          end
      | _, _, _, _ => None
      end
  | None => None
  end.

Definition long_date : regex :=
  Grp 1 (Cat [ Rep 3 (Some 9) (At letter); Plus (At Space);
               Rep 1 (Some 2) (At Digit); At (Chr ","); Plus (At Space);
               Rep 4 (Some 4) (At Digit) ]).

Definition iso_date : regex :=
  Grp 1 (Cat [ Rep 4 (Some 4) (At Digit); At (Chr "-");
               Rep 2 (Some 2) (At Digit); At (Chr "-");
               Rep 2 (Some 2) (At Digit) ]).

Definition anchored (phrase : regex) (date : regex) : regex :=
  Cat [ WordB; phrase; WordB; Star (At (Cls [One ":"; One " "])); date ].

(** [DATE_PATTERNS], each searched with [flags=re.I]:
<<
    \bEffective Date\b[: ]*([A-Za-z]{3,9}\s+\d{1,2},\s+\d{4})
    \bEffective as of\b[: ]*([A-Za-z]{3,9}\s+\d{1,2},\s+\d{4})
    \bmade (?:and entered )?as of\b[: ]*([A-Za-z]{3,9}\s+\d{1,2},\s+\d{4})
    \bdated\b[: ]*([A-Za-z]{3,9}\s+\d{1,2},\s+\d{4})
    \bAgreement Date\b[: ]*([A-Za-z]{3,9}\s+\d{1,2},\s+\d{4})
    \bAgreement Date\b[: ]*(\d{4}-\d{2}-\d{2})
    \bEffective Date\b[: ]*(\d{4}-\d{2}-\d{2})
    \b(\d{4}-\d{2}-\d{2})\b
>> *)
Definition DATE_PATTERNS : list regex :=
  [ anchored (Lit "Effective Date") long_date;
    anchored (Lit "Effective as of") long_date;
    anchored (Cat [Lit "made "; Opt (Lit "and entered "); Lit "as of"]) long_date;
    anchored (Lit "dated") long_date;
    anchored (Lit "Agreement Date") long_date;
    anchored (Lit "Agreement Date") iso_date;
    anchored (Lit "Effective Date") iso_date;
    Cat [WordB; iso_date; WordB] ].

(** [r"^\d{4}-\d{2}-\d{2}$"] *)
Definition ISO_ONLY_RE : regex :=
  Cat [ Bol; Rep 4 (Some 4) (At Digit); At (Chr "-"); Rep 2 (Some 2) (At Digit);
        At (Chr "-"); Rep 2 (Some 2) (At Digit); Eol ].

Section EffectiveDate.

(** The lenient parser of [dateutil], when the library is installed
    ([HAVE_DATEUTIL]): [None] stands for any exception it raises. *)
Variable dateutil : option (str -> option datetime).

Definition parse_date (s : str) : option datetime :=
  match dateutil with
  | Some fuzzy => fuzzy s
  | None => strptime s
  end.

Fixpoint date_loop (pats : list regex) (txt : str) : res (option str) :=
  match pats with
  | [] => Ok None
  | pat :: pats' =>
      match search true pat txt with
      | None => date_loop pats' txt
      | Some (_, m) =>
          g <- group_str 1 m ;;
          let date_str := Py.strip g in
          match parse_date date_str with
          | Some dt => Ok (Some (strftime dt))
          | None =>
              if matches false ISO_ONLY_RE date_str then Ok (Some date_str)
              else date_loop pats' txt
          end
      end
  end.

Definition find_effective_date (all_text : str) : res (option str) :=
  let txt := " " ++ all_text ++ " " in
  date_loop DATE_PATTERNS txt.

(** ** Main parse *)

Record Document : Type := mkDocument {
  doc_title : str;
  contract_type : str;
  effective_date : option str;
  doc_sections : list Section
}.

Definition export_section (s : Section) : Section :=
  mkSection (title s) (if truthy (number s) then number s else None) (clauses s).

(** [parse_contract] from the extracted pages on. *)
Definition parse_contract (pages : list str) (filename : str) : res Document :=
  '(ttl, ctype) <- guess_title pages filename ;;
  edate <- find_effective_date (Py.join ("010"%char :: nil) pages) ;;
  secs <- parse_sections pages ;;
  Ok (mkDocument ttl ctype (if truthy edate then edate else None)
                 (map export_section secs)).

End EffectiveDate.

(** ** The acceptance filter as a condition *)

Module HeadingSpec.

Definition n_words (t : str) : nat := length (Py.split t).

(** A numeric heading of 30 or more whose title opens with one of the
    common sentence-opening words. *)
Definition sentence_start (number t : str) : bool :=
  Py.isdigit number && (30 <=? Py.int_digits number)
  && match Py.split t with
     | w :: _ => Py.mem w COMMON_SENTENCE_STARTS
     | [] => false
     end.

(** A digit string of more digits than [int] converts. *)
Definition overflows (number : str) : bool :=
  Py.isdigit number && (int_max_str_digits <? length number).

(** The rejections the design lists: the number is a clock-time token;
    the title is empty, ends with a period, exceeds 120 characters, or
    has more than 14 words and no colon; the sentence start above. *)
Definition listed_rejection (number title : str) : bool :=
  let t := Py.strip title in
  looks_like_time_token number
  || negb (nonempty (Py.split t))
  || Py.endswith "." t
  || (120 <? length t)
  || ((14 <? n_words t) && negb (Py.contains ":" t))
  || sentence_start number t.

(** Acceptance as the design words it: no listed rejection, and at most
    12 words, or at most 16 words and fully upper-case. *)
Definition claimed_accept (number title : str) : bool :=
  let t := Py.strip title in
  negb (listed_rejection number title)
  && ((n_words t <=? 12) || ((n_words t <=? 16) && Py.isupper t)).

(** The first character of the title is a lower-case letter. *)
Definition starts_lower (t : str) : bool :=
  match Py.split t with
  | (c :: _) :: _ => Char.is_lower c
  | _ => false
  end.

(** The guards the filter tests before it reads the number as an
    integer. *)
Definition early_rejection (number title : str) : bool :=
  let t := Py.strip title in
  looks_like_time_token number
  || negb (nonempty (Py.split t))
  || Py.endswith "." t
  || (120 <? length t)
  || starts_lower t
  || ((14 <? n_words t) && negb (Py.contains ":" t)).

(** Acceptance as the filter decides it: a title that starts in lower
    case is rejected as well, and the long upper-case title is one made
    of the characters of [SEC_ALLCAPS_RE] only. *)
Definition accept (number title : str) : bool :=
  let t := Py.strip title in
  negb (listed_rejection number title)
  && negb (starts_lower t)
  && ((n_words t <=? 12) || ((n_words t <=? 16) && matches false SEC_ALLCAPS_RE t)).

End HeadingSpec.

(** ** The assembler as a grouping of lines *)

Module Grouping.

(** What a line is to the assembler: a heading with its title and
    number, or body text. *)
Inductive kind : Type :=
| Heading (ttl : str) (num : option str)
| Body.

(** The numbered shape without the exception plumbing. *)
Definition numbered (line : str) : option (option str * str) :=
  match rmatch true SEC_RE line with
  | Some m =>
      match group 2 m with
      | Some g2 =>
          if HeadingSpec.accept (or_empty (group 1 m)) (norm_ws g2)
          then Some (group 1 m, norm_ws g2) else None
      | None => None
      end
  | None => None
  end.

(** The line has the numbered shape and its number is a digit string of
    more digits than [int] converts. *)
Definition long_number (line : str) : bool :=
  match rmatch true SEC_RE line with
  | Some m => HeadingSpec.overflows (or_empty (group 1 m))
  | None => false
  end.

Definition classify (line : str) : kind :=
  match numbered line with
  | Some (num, ttl) => Heading ttl num
  | None =>
      if allcaps_heading line then
        Heading (if Py.isupper line then Py.title line else line) None
      else if titlecase_heading line then Heading line None
      else Body
  end.

Definition is_heading (line : str) : bool :=
  match classify line with
  | Heading _ _ => true
  | Body => false
  end.

(** A section under construction: title, number, body lines. *)
Definition chunk : Type := (str * option str * list str)%type.

Definition closed (cur : option chunk) : list chunk :=
  match cur with
  | Some r => [r]
  | None => []
  end.

Definition add_body (cur : option chunk) (l : str) : chunk :=
  match cur with
  | Some (t, n, b) => (t, n, b ++ [l])
  | None => ("Preamble" : str, None, [l])
  end.

(** The lines cut at every heading; lines before the first heading go
    to a chunk titled Preamble. *)
Fixpoint chunks (cur : option chunk) (lines : list str) : list chunk :=
  match lines with
  | [] => closed cur
  | l :: ls =>
      match classify l with
      | Heading ttl num => closed cur ++ chunks (Some (ttl, num, [])) ls
      | Body => chunks (Some (add_body cur l)) ls
      end
  end.

(** The section a chunk becomes when it is flushed. *)
Definition emit (r : chunk) : res Section :=
  let '(t, n, b) := r in
  expanded <- mapM explode_inline_bullets b ;;
  cls <- segment_clauses (concat expanded) ;;
  Ok (mkSection (norm_ws t) n cls).

(** The section [s] is the chunk [r] flushed: its title and number are
    those of the chunk, and a chunk without body lines gives a section
    without clauses. *)
Definition emitted (r : chunk) (s : Section) : Prop :=
  title s = norm_ws (fst (fst r))
  /\ number s = snd (fst r)
  /\ (snd r = [] -> clauses s = []).

(** The assembler's variables hold the chunk [cur]. *)
Definition holds (st : asm) (cur : option chunk) : Prop :=
  match cur with
  | None => cur_title st = None /\ cur_num st = None /\ cur_body st = []
  | Some (t, n, b) => t <> [] /\ cur_title st = Some t /\ cur_num st = n /\ cur_body st = b
  end.

End Grouping.

(** ** Calendar dates in ISO form *)

Module DateSpec.

(** Four digits, a dash, two digits, a dash, two digits. *)
Definition iso_shape (s : str) : bool :=
  match s with
  | [y1; y2; y3; y4; h1; m1; m2; h2; d1; d2] =>
      forallb Char.is_digit [y1; y2; y3; y4; m1; m2; d1; d2]
      && Char.eqb h1 "-" && Char.eqb h2 "-"
  | _ => false
  end.

(** An ISO-8601 calendar date [YYYY-MM-DD]: the shape above, a month
    from 01 to 12 and a day that exists in that month of that year. *)
Definition is_iso_date (s : str) : bool :=
  match s with
  | [y1; y2; y3; y4; _; m1; m2; _; d1; d2] =>
      let y := Py.int_digits [y1; y2; y3; y4] in
      let m := Py.int_digits [m1; m2] in
      let d := Py.int_digits [d1; d2] in
      iso_shape s && (1 <=? m) && (m <=? 12) && (1 <=? d) && (d <=? days_in_month y m)
  | _ => false
  end.

(** The text a pattern captures: group 1 of its leftmost match, with
    the blanks at both ends removed. *)
Definition capture (pat : regex) (txt : str) : option str :=
  match search true pat txt with
  | Some (_, m) => option_map Py.strip (group 1 m)
  | None => None
  end.

(** The date a captured text gives: the formatting of the date the
    parser reads in it, or the text itself when the parser rejects it and
    it passes the shape test of the handler. *)
Definition reading (dateutil : option (str -> option datetime)) (d : str) : option str :=
  match parse_date dateutil d with
  | Some dt => Some (strftime dt)
  | None => if matches false ISO_ONLY_RE d then Some d else None
  end.

(** What one pattern yields on the text: nothing when it does not match
    or when its capture gives no date. *)
Definition yields (dateutil : option (str -> option datetime)) (pat : regex) (txt : str)
    : option str :=
  match capture pat txt with
  | Some d => reading dateutil d
  | None => None
  end.

(** The first date the patterns yield, in the order of the list. *)
Fixpoint first_yield (dateutil : option (str -> option datetime)) (pats : list regex)
    (txt : str) : option str :=
  match pats with
  | [] => None
  | pat :: pats' =>
      match yields dateutil pat txt with
      | Some d => Some d
      | None => first_yield dateutil pats' txt
      end
  end.

End DateSpec.

(** ** The normaliser's substitutions as direct scans *)

Module Direct.

(** [WS_RE.sub(" ", s)]: every maximal run of blanks becomes one space;
    [in_ws] tells that the previous character was a blank. *)
Fixpoint squeeze (in_ws : bool) (s : str) : str :=
  match s with
  | [] => []
  | c :: s' =>
      if Char.is_space c
      then if in_ws then squeeze true s' else " "%char :: squeeze true s'
      else c :: squeeze false s'
  end.

(** A substitution of [r'\1 \2'] for a two-character pattern: a space is
    put between every [p] character and the [q] character after it, the
    pairs taken from the left and never overlapping. *)
Fixpoint gap (p q : ascii -> bool) (s : str) : str :=
  match s with
  | [] => []
  | c1 :: s' =>
      match s' with
      | [] => [c1]
      | c2 :: rest =>
          if p c1 && q c2 then c1 :: " "%char :: c2 :: gap p q rest
          else c1 :: gap p q s'
      end
  end.

(** No [p] character stands right before a [q] character. *)
Fixpoint nogap (p q : ascii -> bool) (s : str) : bool :=
  match s with
  | [] => true
  | c1 :: s' =>
      match s' with
      | [] => true
      | c2 :: _ => negb (p c1 && q c2) && nogap p q s'
      end
  end.

(** Blanks are single spaces; [after_space] tells that the previous
    character was one. *)
Fixpoint spaced (after_space : bool) (s : str) : bool :=
  match s with
  | [] => true
  | c :: s' =>
      if Char.is_space c
      then negb after_space && Char.eqb c " " && spaced true s'
      else spaced false s'
  end.

(** [spaced], and the text does not end with a space. *)
Fixpoint tidy (after_space : bool) (s : str) : bool :=
  match s with
  | [] => negb after_space
  | c :: s' =>
      if Char.is_space c
      then negb after_space && Char.eqb c " " && tidy true s'
      else tidy false s'
  end.

(** Whitespace-normal text: words separated by single spaces, no blank
    at either end. *)
Definition normal (s : str) : bool :=
  match s with
  | [] => true
  | _ => tidy true s
  end.

(** A chunk whose title is whitespace-normal and not empty. *)
Definition titled (r : Grouping.chunk) : Prop :=
  normal (fst (fst r)) = true /\ fst (fst r) <> [].

End Direct.

(** ** What [protect_times] may change *)

Module Protect.

(** A character is kept, or a period becomes a colon. *)
Definition dot_to_colon (a b : ascii) : Prop :=
  a = b \/ (a = "."%char /\ b = ":"%char).

End Protect.

(** ** Scanned pages *)

(** [is_scanned]: fewer than 20 characters once [re.sub(r"\s", "", text)]
    has removed the blanks. *)
Definition is_scanned (text : str) : bool :=
  length (sub false (At Space) (fun _ => []) text) <? 20.

Module Text.

(** The characters of a text that are not blanks, in order. *)
Definition nonblank (s : str) : str :=
  filter (fun c => negb (Char.is_space c)) s.

Definition lower_c : ascii -> bool := atom_has false lower_az.
Definition upper_c : ascii -> bool := atom_has false upper_AZ.
Definition letter_c : ascii -> bool := atom_has false letter.
Definition digit_c : ascii -> bool := atom_has false Digit.

(** No lower-case letter right before an upper-case one, no letter right
    before a digit, no digit right before a letter. *)
Definition gapless (s : str) : Prop :=
  Direct.nogap lower_c upper_c s = true
  /\ Direct.nogap letter_c digit_c s = true
  /\ Direct.nogap digit_c letter_c s = true.

(** Every character lies in the ASCII range. *)
Definition ascii_only (s : str) : bool := forallb (fun c => Char.code c <? 128) s.

(** The text holds no occurrence of the character. *)
Definition lacks (c : ascii) (s : str) : bool := forallb (fun d => negb (Char.eqb d c)) s.

(** The closing character of every enumerator of the inline bullet
    splitter: a period or a closing parenthesis. *)
Definition closer (c : ascii) : bool := Char.eqb c "." || Char.eqb c ")".

End Text.

(** ** Clauses up to their index *)

Module Clauses.

(** The text and the label of a clause. *)
Definition core (c : Clause) : str * str := (text c, label c).

(** The clause with its index moved up by [n]. *)
Definition bump (n : nat) (c : Clause) : Clause :=
  mkClause (text c) (label c) (n + index c).

(** No pattern of [CLAUSE_RE] matches the line. *)
Definition unlabelled (l : str) : Prop := first_match CLAUSE_RE l = None.

End Clauses.

(** ** Keywords of a title line *)

Module Keywords.

Definition KEYWORDS : list str :=
  [ "AGREEMENT" : str; "CONTRACT" : str; "NDA" : str; "AMENDMENT" : str;
    "STATEMENT OF WORK" : str; "LICENSE" : str; "LEASE" : str ].

(** [k.lower() in line.lower()] *)
Definition contains_ci (k line : str) : bool :=
  Py.is_infix (map Char.lower k) (map Char.lower line).

(** The line holds one of the keywords, in any letter case. *)
Definition has_keyword (line : str) : bool :=
  existsb (fun k => contains_ci k line) KEYWORDS.

(** The title derived from the file name. *)
Definition name_title (filename : str) : str :=
  Py.title (Py.replace "-" " " (Py.replace "_" " " (path_stem filename))).

End Keywords.

(** ** Text extraction *)

(** What the environment and the three optional back ends give for one
    file.  [HAVE_PYMUPDF], [HAVE_PDFMINER] and [HAVE_OCR] tell whether the
    library could be imported; a result [None] stands for any exception
    the call raises.  Each result is taken after the source's [or ""]. *)
Record Backends : Type := mkBackends {
  FORCE_OCR : bool;
  HAVE_PYMUPDF : bool;
  fitz_pages : option (list str);
  HAVE_PDFMINER : bool;
  pdfminer_extract_text : option str;
  HAVE_OCR : bool;
  ocr_pages : option (list str)
}.

(** The condition [not pages or is_scanned("".join(pages))]. *)
Definition needs_more (pages : list str) : bool :=
  negb (nonempty pages) || is_scanned (concat pages).

(** [extract_text_pages]: PyMuPDF, then pdfminer.six, then OCR.  The
    closing comprehension maps every string to itself. *)
Definition extract_text_pages (x : Backends) : list str :=
  let pages : list str := [] in
  let pages :=
    if negb (FORCE_OCR x) && HAVE_PYMUPDF x
    then match fitz_pages x with Some ps => ps | None => [] end
    else pages in
  let pages :=
    if negb (FORCE_OCR x) && needs_more pages && HAVE_PDFMINER x
    then match pdfminer_extract_text x with
         | Some text =>
             if Py.contains "012" text then fields_go "012" [] text else [text]
         | None => pages
         end
    else pages in
  let pages :=
    if FORCE_OCR x || needs_more pages
    then if HAVE_OCR x
         then match ocr_pages x with Some ps => ps | None => pages end
         else pages
    else pages in
  pages.

(** ** Command line *)







(** A page that is one line: 4301 digits followed by a title. *)
Definition long_number_page : str := repeat "1"%char 4301 ++ ". Title".

(** * Facts about the matcher *)

Module ReFacts.

(** [defines n r]: every match of [r] sets group [n]. *)
Fixpoint defines (n : nat) (r : regex) : bool :=
  match r with
  | Seq a b => defines n a || defines n b
  | Alt a b => defines n a && defines n b
  | Rep lo _ r' => (1 <=? lo) && defines n r'
  | Grp m r' => (m =? n) || defines n r'
  | _ => false
  end.

Definition has_group (n : nat) (s : mstate) : Prop := group n s <> None.

Lemma run_rep icase lo hi r s :
  (exists a, r = At a
             /\ run icase (Rep lo hi r) s = scan icase a lo hi [] (before s) (after s) (caps s))
  \/ run icase (Rep lo hi r) s = rep_loop (run icase r) (length (after s)) lo hi s.
Proof. destruct r; simpl; eauto. Qed.

Lemma scan_caps icase a aft :
  forall lo hi eaten b cp w,
    In w (scan icase a lo hi eaten b aft cp) -> caps (snd w) = cp.
Proof.
  induction aft as [|c rest IH]; intros lo hi eaten b cp w Hin; simpl in Hin.
  - destruct hi as [[|h]|]; destruct (lo =? 0); simpl in Hin;
      try contradiction; destruct Hin as [<-|[]]; reflexivity.
  - assert (Hstop : In w (if lo =? 0 then [(eaten, MState b (c :: rest) cp)] else [])
                    -> caps (snd w) = cp).
    { destruct (lo =? 0); simpl; [intros [<-|[]]; reflexivity | contradiction]. }
    destruct hi as [[|h]|]; auto;
      (destruct (atom_has icase a c); auto;
       apply in_app_or in Hin; destruct Hin as [Hin|Hin]; eauto).
Qed.

Lemma rep_loop_keeps (P : mstate -> Prop) (step : mstate -> list way) :
  (forall s w, In w (step s) -> P s -> P (snd w)) ->
  forall fuel lo hi s w, In w (rep_loop step fuel lo hi s) -> P s -> P (snd w).
Proof.
  intros Hstep fuel.
  induction fuel as [|fuel IH]; intros lo hi s w Hin Hs; simpl in Hin.
  - destruct (lo =? 0); simpl in Hin; [destruct Hin as [<-|[]]; exact Hs | contradiction].
  - assert (Hstop : In w (if lo =? 0 then [([], s)] else []) -> P (snd w)).
    { destruct (lo =? 0); simpl; [intros [<-|[]]; exact Hs | contradiction]. }
    destruct hi as [[|h]|]; auto;
      apply in_app_or in Hin; destruct Hin as [Hin|Hin]; auto;
      apply in_flat_map in Hin; destruct Hin as (w1 & H1 & H2);
      destruct (fst w1); try contradiction;
      apply in_map_iff in H2; destruct H2 as (w2 & <- & H2);
      simpl; eapply IH; eauto.
Qed.

Lemma set_cap_keeps n m w : has_group n (snd w) -> has_group n (snd (set_cap m w)).
Proof.
  unfold has_group, group, set_cap; simpl.
  destruct (m =? n); [discriminate | auto].
Qed.

Lemma run_keeps icase n r :
  forall s w, In w (run icase r s) -> has_group n s -> has_group n (snd w).
Proof.
  induction r; intros s w Hin Hs.
  - simpl in Hin. destruct Hin as [<-|[]]; exact Hs.
  - simpl in Hin. destruct (after s) as [|c rest]; [contradiction|].
    destruct (atom_has icase a c); [|contradiction].
    destruct Hin as [<-|[]]; exact Hs.
  - simpl in Hin. apply in_flat_map in Hin; destruct Hin as (w1 & H1 & H2).
    apply in_map_iff in H2; destruct H2 as (w2 & <- & H2). simpl. eauto.
  - simpl in Hin. apply in_app_or in Hin; destruct Hin; eauto.
  - destruct (run_rep icase lo hi r s) as [(a & -> & E)|E]; rewrite E in Hin.
    + apply scan_caps in Hin. unfold has_group, group in *. rewrite Hin. exact Hs.
    + eapply rep_loop_keeps with (P := has_group n); eauto.
  - simpl in Hin. apply in_map_iff in Hin; destruct Hin as (w1 & <- & H1).
    apply set_cap_keeps; eauto.
  - simpl in Hin. destruct (before s); [destruct Hin as [<-|[]]; exact Hs | contradiction].
  - simpl in Hin. destruct (after s) as [|c [|d rest]]; try contradiction.
    + destruct Hin as [<-|[]]; exact Hs.
    + destruct (Char.eqb c "010"); [destruct Hin as [<-|[]]; exact Hs | contradiction].
  - simpl in Hin. destruct (xorb _ _); [destruct Hin as [<-|[]]; exact Hs | contradiction].
  - simpl in Hin. destruct (behind _ _ _); [destruct Hin as [<-|[]]; exact Hs | contradiction].
Qed.

Lemma run_defines icase n r :
  defines n r = true ->
  forall s w, In w (run icase r s) -> has_group n (snd w).
Proof.
  induction r; intros Hd s w Hin; try discriminate.
  - simpl in Hd, Hin. apply in_flat_map in Hin; destruct Hin as (w1 & H1 & H2).
    apply in_map_iff in H2; destruct H2 as (w2 & <- & H2). simpl.
    apply orb_true_iff in Hd; destruct Hd as [Hd|Hd].
    + eapply run_keeps; eauto.
    + eauto.
  - simpl in Hd, Hin. apply andb_true_iff in Hd; destruct Hd as [Ha Hb].
    apply in_app_or in Hin; destruct Hin; eauto.
  - simpl in Hd. apply andb_true_iff in Hd; destruct Hd as [Hlo Hd].
    assert (Hz : (lo =? 0) = false) by (destruct lo; [discriminate | reflexivity]).
    destruct (run_rep icase lo hi r s) as [(a & -> & E)|E]; [discriminate|].
    rewrite E in Hin.
    destruct (length (after s)) as [|fuel]; simpl in Hin; rewrite Hz in Hin;
      [contradiction|].
    destruct hi as [[|h]|]; try contradiction;
      rewrite app_nil_r in Hin;
      apply in_flat_map in Hin; destruct Hin as (w1 & H1 & H2);
      destruct (fst w1); try contradiction;
      apply in_map_iff in H2; destruct H2 as (w2 & <- & H2); simpl;
      (eapply rep_loop_keeps with (P := has_group n);
       [intros; eapply run_keeps; eauto | exact H2 | eauto]).
  - simpl in Hd, Hin. apply in_map_iff in Hin; destruct Hin as (w1 & <- & H1).
    destruct (Nat.eqb_spec n0 n) as [->|Hne].
    + unfold has_group, group, set_cap; simpl. rewrite Nat.eqb_refl. discriminate.
    + simpl in Hd. apply set_cap_keeps; eauto.
Qed.

Lemma rmatch_defines icase n r s m :
  defines n r = true -> rmatch icase r s = Some m -> exists g, group n m = Some g.
Proof.
  unfold rmatch; intros Hd Hm.
  destruct (run icase r (start [] s)) as [|w l] eqn:E; [discriminate|].
  injection Hm as <-.
  assert (H : has_group n (snd w)) by (eapply run_defines; eauto; rewrite E; left; auto).
  unfold has_group in H. destruct (group n (snd w)); [eauto | congruence].
Qed.

Lemma search_from_defines icase n r :
  defines n r = true ->
  forall a b b0 m, search_from icase r b a = Some (b0, m) -> exists g, group n m = Some g.
Proof.
  intros Hd; induction a as [|c a IH]; intros b b0 m Hs; simpl in Hs;
    destruct (run icase r (start b _)) as [|w l] eqn:E.
  - discriminate.
  - injection Hs as <- <-.
    assert (H : has_group n (snd w)) by (eapply run_defines; eauto; rewrite E; left; auto).
    unfold has_group in H. destruct (group n (snd w)); [eauto | congruence].
  - eauto.
  - injection Hs as <- <-.
    assert (H : has_group n (snd w)) by (eapply run_defines; eauto; rewrite E; left; auto).
    unfold has_group in H. destruct (group n (snd w)); [eauto | congruence].
Qed.

(** The scan that [run] uses for a repeated one-character pattern is the
    general repetition loop run on that pattern. *)
Lemma scan_loop icase a aft :
  forall lo hi e b cp fuel,
    length aft <= fuel ->
    scan icase a lo hi e b aft cp
    = map (extend e) (rep_loop (run icase (At a)) fuel lo hi (MState b aft cp)).
Proof.
  induction aft as [|c rest IH]; intros lo hi e b cp fuel Hlen.
  - destruct fuel as [|fuel]; simpl;
      destruct hi as [[|h]|]; destruct (lo =? 0); reflexivity.
  - destruct fuel as [|fuel]; [simpl in Hlen; lia|].
    cbn [scan rep_loop run after before caps].
    destruct hi as [[|h]|];
      try (destruct (lo =? 0); reflexivity);
      (destruct (atom_has icase a c);
       [cbn [flat_map fst snd app]; rewrite app_nil_r, map_app, map_map;
        rewrite (IH _ _ (c :: e) (c :: b) cp fuel) by (simpl in Hlen; lia);
        f_equal;
        [apply map_ext; intros [e1 s1]; unfold extend; cbn [fst snd];
         rewrite <- app_assoc; reflexivity
        |destruct (lo =? 0); reflexivity]
       |cbn [flat_map app]; destruct (lo =? 0); reflexivity]).
Qed.

Lemma run_rep_atom icase lo hi a s :
  run icase (Rep lo hi (At a)) s
  = rep_loop (run icase (At a)) (length (after s)) lo hi s.
Proof.
  destruct s as [b aft cp]. cbn [run before after caps].
  rewrite (@scan_loop icase a aft lo hi [] b cp (length aft)) by lia.
  etransitivity; [|apply map_id].
  apply map_ext. intros [e1 s1]. unfold extend. cbn [fst snd].
  rewrite app_nil_r. reflexivity.
Qed.

End ReFacts.

(** * The steps that raise nothing *)

Module Total.

Import ReFacts.

Lemma foldM_total {A S : Type} (f : S -> A -> res S) :
  (forall s x, exists s', f s x = Ok s') ->
  forall l s, exists s', foldM f l s = Ok s'.
Proof.
  intros Hf; induction l as [|x l IH]; intros s; simpl.
  - eauto.
  - destruct (Hf s x) as [s1 ->]; simpl. apply IH.
Qed.

Lemma mapM_total {A B : Type} (f : A -> res B) :
  (forall x, exists y, f x = Ok y) ->
  forall l, exists ys, mapM f l = Ok ys.
Proof.
  intros Hf; induction l as [|x l [ys IH]]; simpl.
  - eauto.
  - destruct (Hf x) as [y ->]; simpl. rewrite IH; simpl. eauto.
Qed.

Lemma flush_word_nonempty cur k :
  Forall (fun w => w <> []) k -> Forall (fun w => w <> []) (Py.flush_word cur k).
Proof.
  intros Hk; destruct cur as [|c cur]; simpl; auto.
  constructor; auto.
  intros E. apply (f_equal (@length ascii)) in E.
  rewrite length_app in E; simpl in E; lia.
Qed.

Lemma split_go_nonempty s : forall cur, Forall (fun w => w <> []) (Py.split_go cur s).
Proof.
  induction s as [|c s IH]; intros cur; simpl.
  - apply flush_word_nonempty; constructor.
  - destruct (Char.is_space c); [apply flush_word_nonempty|]; apply IH.
Qed.

Lemma split_nonempty s : Forall (fun w => w <> []) (Py.split s).
Proof. apply split_go_nonempty. Qed.

Lemma finditer_from_defines icase n r :
  defines n r = true ->
  forall fuel b a, Forall (fun t => exists g, group n (snd t) = Some g)
                          (finditer_from icase r fuel b a).
Proof.
  intros Hd; induction fuel as [|fuel IH]; intros b a; simpl; [constructor|].
  destruct (search_from icase r b a) as [[b0 m]|] eqn:E; [|constructor].
  pose proof (@search_from_defines icase n r Hd _ _ _ _ E) as Hg.
  destruct (length (after m) <? length a); [constructor; auto|].
  destruct (after m); constructor; auto.
Qed.

Lemma bullet_parts_total tokens :
  Forall (fun t : str * mstate => exists g, group 1 (snd t) = Some g) tokens ->
  exists parts, bullet_parts tokens = Ok parts.
Proof.
  induction 1 as [|[b m] rest [g Hg] _ [parts IH]]; simpl; [eauto|].
  simpl in Hg. unfold group_str; rewrite Hg; simpl. rewrite IH; simpl. eauto.
Qed.

Lemma explode_inline_bullets_total line :
  exists parts, explode_inline_bullets line = Ok parts.
Proof.
  unfold explode_inline_bullets.
  pose proof (@finditer_from_defines false 1 INLINE_BULLET_SPLIT_RE eq_refl
                (S (length line)) [] line) as Hall.
  fold (finditer false INLINE_BULLET_SPLIT_RE line) in Hall.
  destruct (finditer false INLINE_BULLET_SPLIT_RE line) as [|[b0 m0] rest] eqn:E;
    cbn [nonempty negb first bind]; [eauto|].
  destruct (bullet_parts_total Hall) as [parts Hp].
  inversion Hall as [|? ? [g Hg] _]; subst. simpl in Hg.
  rewrite Hp. unfold group_str; rewrite Hg.
  destruct (length b0 =? 0); cbn [bind]; [|eauto].
  destruct (Py.isdigit (removelast g)); cbn [bind]; [|eauto].
  destruct (Py.split (Py.lstrip (after m0))) as [|w ws]; cbn [nonempty first bind];
    match goal with |- context [if ?c then Ok [line] else _] => destruct c end; eauto.
Qed.

Lemma first_match_defines n pats :
  forallb (fun p => defines n (snd p)) pats = true ->
  forall l m, first_match pats l = Some m -> exists g, group n m = Some g.
Proof.
  induction pats as [|[icase r] pats IH]; simpl; intros Hall l m Hm; [discriminate|].
  apply andb_true_iff in Hall; destruct Hall as [Hr Hall].
  destruct (rmatch icase r l) eqn:E.
  - injection Hm as <-. eapply rmatch_defines; eauto.
  - eauto.
Qed.

Lemma seg_step_total st l : exists st', seg_step st l = Ok st'.
Proof.
  unfold seg_step.
  destruct (first_match CLAUSE_RE l) as [m|] eqn:E; [|eauto].
  destruct (@first_match_defines 1 CLAUSE_RE eq_refl _ _ E) as [g ->]; simpl. eauto.
Qed.

Lemma segment_clauses_total lines : exists cs, segment_clauses lines = Ok cs.
Proof.
  unfold segment_clauses.
  destruct (@foldM_total _ _ seg_step seg_step_total lines (mkSeg [] [] [])) as [st ->].
  simpl; eauto.
Qed.

End Total.

(** * The heading acceptance filter *)

Module Heading.

Import HeadingSpec.

Lemma isdigit_nonempty s : Py.isdigit s = true -> nonempty s = true.
Proof. destruct s; [discriminate | reflexivity]. Qed.

Ltac split_if :=
  match goal with
  | |- context [if ?b then _ else _] => destruct b eqn:?
  end.

Lemma likely_heading_cases number title :
  likely_heading number title
  = if early_rejection number title then Ok false
    else if overflows number then Raise ValueError
    else Ok (accept number title).
Proof.
  unfold likely_heading, early_rejection, overflows, accept, listed_rejection,
    starts_lower, sentence_start, n_words.
  split_if; [reflexivity|].
  destruct title as [|c title]; [reflexivity|].
  cbn [nonempty negb orb].
  set (t := Py.strip (c :: title)).
  pose proof (Total.split_nonempty t) as Hw.
  destruct (Py.split t) as [|w ws] eqn:Esplit; cbn [nonempty negb orb andb];
    [repeat split_if; reflexivity|].
  split_if; [reflexivity|].
  split_if; [reflexivity|].
  cbn [orb first bind].
  inversion Hw as [|? ? Hne _]; subst.
  destruct w as [|c0 w]; [congruence|].
  cbn [first bind].
  split_if; [reflexivity|].
  split_if; [reflexivity|].
  cbn [orb negb andb].
  unfold py_int.
  destruct (Py.isdigit number) eqn:Ed.
  - rewrite (isdigit_nonempty _ Ed). cbn [andb bind].
    rewrite (Nat.ltb_antisym (length number) int_max_str_digits).
    destruct (length number <=? int_max_str_digits); cbn [negb bind]; [|reflexivity].
    split_if; cbn [andb first bind negb].
    + split_if; [reflexivity|].
      cbn [negb andb].
      split_if; [reflexivity|].
      cbn [orb]. rewrite andb_comm. split_if; reflexivity.
    + split_if; [reflexivity|].
      cbn [orb]. rewrite andb_comm. split_if; reflexivity.
  - rewrite andb_false_r. cbn [andb bind negb].
    split_if; [reflexivity|].
    cbn [orb]. rewrite andb_comm. split_if; reflexivity.
Qed.

Lemma early_rejection_rejects number title :
  early_rejection number title = true -> accept number title = false.
Proof.
  unfold early_rejection, accept, listed_rejection. intros H.
  repeat match type of H with
         | _ || _ = true => apply orb_true_iff in H; destruct H as [H|H]
         end;
    rewrite ?H, ?orb_true_r, ?andb_false_r; cbn [negb andb orb]; reflexivity.
Qed.

(** Where the number does not overflow, the filter returns, and it
    decides as [accept] says. *)
Lemma likely_heading_accept number title :
  overflows number = false ->
  likely_heading number title = Ok (accept number title).
Proof.
  intros Ho. rewrite likely_heading_cases, Ho.
  destruct (early_rejection number title) eqn:E; [|reflexivity].
  rewrite (@early_rejection_rejects _ _ E). reflexivity.
Qed.

(** Whenever the filter returns, it decides as [accept] says. *)
Lemma likely_heading_ok number title b :
  likely_heading number title = Ok b -> b = accept number title.
Proof.
  rewrite likely_heading_cases.
  destruct (early_rejection number title) eqn:E.
  - rewrite (@early_rejection_rejects _ _ E). intros [= <-]. reflexivity.
  - destruct (overflows number); [discriminate|]. intros [= <-]. reflexivity.
Qed.

(** The filter raises nothing but the [ValueError] of [int]. *)
Lemma likely_heading_raise number title e :
  likely_heading number title = Raise e ->
  e = ValueError /\ overflows number = true /\ early_rejection number title = false.
Proof.
  rewrite likely_heading_cases.
  destruct (early_rejection number title); [discriminate|].
  destruct (overflows number); [|discriminate].
  intros [= <-]. auto.
Qed.

End Heading.

(** * The section assembler *)

Module Assembler.

Import ReFacts Grouping.

(** The numbered shape was read without an exception. *)
Definition fine (line : str) : Prop := numbered_heading line = Ok (numbered line).

Lemma numbered_heading_pure line : long_number line = false -> fine line.
Proof.
  unfold fine, long_number, numbered_heading, numbered.
  destruct (rmatch true SEC_RE line) as [m|] eqn:E; [|reflexivity].
  destruct (@rmatch_defines true 2 SEC_RE line m eq_refl E) as [g2 ->].
  intros Ho. cbn [bind]. rewrite (@Heading.likely_heading_accept _ (norm_ws g2) Ho). reflexivity.
Qed.

Lemma numbered_heading_ok line r : numbered_heading line = Ok r -> fine line.
Proof.
  unfold fine, numbered_heading, numbered.
  destruct (rmatch true SEC_RE line) as [m|] eqn:E; [|reflexivity].
  destruct (@rmatch_defines true 2 SEC_RE line m eq_refl E) as [g2 ->].
  cbn [bind].
  destruct (likely_heading (or_empty (group 1 m)) (norm_ws g2)) as [b|e] eqn:El;
    [|discriminate].
  intros _. rewrite (@Heading.likely_heading_ok _ _ _ El). reflexivity.
Qed.

Lemma numbered_heading_raise line e :
  numbered_heading line = Raise e -> e = ValueError /\ long_number line = true.
Proof.
  unfold long_number, numbered_heading.
  destruct (rmatch true SEC_RE line) as [m|] eqn:E; [|discriminate].
  destruct (@rmatch_defines true 2 SEC_RE line m eq_refl E) as [g2 ->].
  cbn [bind].
  destruct (likely_heading (or_empty (group 1 m)) (norm_ws g2)) as [b|e'] eqn:El;
    [discriminate|].
  intros [= <-]. destruct (@Heading.likely_heading_raise _ _ _ El) as (-> & Ho & _). auto.
Qed.

Lemma asm_step_classify st line :
  fine line ->
  asm_step st line =
  match classify line with
  | Heading ttl num => open_section st ttl num
  | Body =>
      Ok (mkAsm (sections st)
                (if truthy (cur_title st) then cur_title st else Some ("Preamble" : str))
                (cur_num st) (cur_body st ++ [line]))
  end.
Proof.
  unfold asm_step, classify, fine. intros ->. cbn [bind].
  destruct (numbered line) as [[num ttl]|]; [reflexivity|].
  destruct (allcaps_heading line); [reflexivity|].
  destruct (titlecase_heading line); reflexivity.
Qed.

Lemma asm_step_fine st line st' : asm_step st line = Ok st' -> fine line.
Proof.
  unfold asm_step.
  destruct (numbered_heading line) as [h|e] eqn:E; [|discriminate].
  intros _. eapply numbered_heading_ok; eauto.
Qed.

Lemma fold_fine lines :
  forall st st', foldM asm_step lines st = Ok st' -> Forall fine lines.
Proof.
  induction lines as [|l ls IH]; intros st st' H; [constructor|].
  cbn [foldM] in H.
  destruct (asm_step st l) as [st1|e] eqn:E; [|discriminate].
  cbn [bind] in H. constructor; [eapply asm_step_fine; eauto | eauto].
Qed.

Lemma accept_nonempty number ttl : HeadingSpec.accept number ttl = true -> ttl <> [].
Proof.
  intros H ->. unfold HeadingSpec.accept, HeadingSpec.listed_rejection in H.
  destruct (looks_like_time_token number); discriminate.
Qed.

Lemma title_nonempty line : line <> [] -> Py.title line <> [].
Proof. destruct line; [congruence | discriminate]. Qed.

Lemma heading_title_nonempty line ttl num :
  classify line = Heading ttl num -> ttl <> [].
Proof.
  unfold classify, numbered.
  destruct (rmatch true SEC_RE line) as [m|].
  - destruct (group 2 m) as [g2|].
    + destruct (HeadingSpec.accept _ _) eqn:Ha.
      * intros [= <- <-]. eapply accept_nonempty; eauto.
      * destruct (allcaps_heading line) eqn:Hc.
        -- intros [= <- <-]. assert (line <> []) by (intros ->; discriminate).
           destruct (Py.isupper line); auto using title_nonempty.
        -- destruct (titlecase_heading line) eqn:Ht; [|discriminate].
           intros [= <- <-]. intros ->; discriminate.
    + destruct (allcaps_heading line) eqn:Hc.
      * intros [= <- <-]. assert (line <> []) by (intros ->; discriminate).
        destruct (Py.isupper line); auto using title_nonempty.
      * destruct (titlecase_heading line) eqn:Ht; [|discriminate].
        intros [= <- <-]. intros ->; discriminate.
  - destruct (allcaps_heading line) eqn:Hc.
    + intros [= <- <-]. assert (line <> []) by (intros ->; discriminate).
      destruct (Py.isupper line); auto using title_nonempty.
    + destruct (titlecase_heading line) eqn:Ht; [|discriminate].
      intros [= <- <-]. intros ->; discriminate.
Qed.

Lemma flush_emit st cur :
  holds st cur ->
  flush st = (em <- mapM emit (closed cur) ;; Ok (mkAsm (sections st ++ em) None None [])).
Proof.
  unfold flush, holds. destruct cur as [[[t n] b]|].
  - intros (Ht & -> & <- & <-). destruct t as [|c t]; [congruence|].
    cbn [truthy closed mapM emit or_empty].
    destruct (mapM explode_inline_bullets (cur_body st)) as [ex|e]; [|reflexivity].
    cbn [bind]. destruct (segment_clauses (concat ex)) as [cls|e]; reflexivity.
  - intros (-> & _ & _). cbn. rewrite app_nil_r. reflexivity.
Qed.

Lemma mapM_app {A B : Type} (f : A -> res B) (l1 l2 : list A) :
  mapM f (l1 ++ l2) = (xs <- mapM f l1 ;; ys <- mapM f l2 ;; Ok (xs ++ ys)).
Proof.
  induction l1 as [|x l1 IH]; simpl.
  - destruct (mapM f l2); reflexivity.
  - destruct (f x); [|reflexivity]. simpl. rewrite IH.
    destruct (mapM f l1); [|reflexivity]. simpl.
    destruct (mapM f l2); reflexivity.
Qed.

Lemma assemble_chunks lines :
  Forall fine lines ->
  forall st cur,
    holds st cur ->
    (st' <- foldM asm_step lines st ;; st'' <- flush st' ;; Ok (sections st''))
    = (em <- mapM emit (chunks cur lines) ;; Ok (sections st ++ em)).
Proof.
  induction 1 as [|l ls Hl _ IH]; intros st cur Hst.
  - cbn [foldM bind chunks]. rewrite (@flush_emit st cur Hst).
    destruct (mapM emit (closed cur)); reflexivity.
  - cbn [foldM chunks]. rewrite (@asm_step_classify st l Hl).
    destruct (classify l) as [ttl num|] eqn:Hk.
    + unfold open_section. rewrite (@flush_emit st cur Hst), mapM_app.
      destruct (mapM emit (closed cur)) as [em0|e]; [|reflexivity].
      cbn [bind sections cur_body].
      rewrite (IH (mkAsm (sections st ++ em0) (Some ttl) num []) (Some (ttl, num, []))).
      * destruct (mapM emit (chunks _ ls)); cbn [bind sections]; [|reflexivity].
        rewrite app_assoc. reflexivity.
      * cbn. repeat split; auto. eapply heading_title_nonempty; eauto.
    + cbn [bind]. rewrite (IH _ (Some (add_body cur l))); [reflexivity|].
      unfold holds in *. destruct cur as [[[t n] b]|]; cbn.
      * destruct Hst as (Ht & -> & <- & <-). destruct t; [congruence|].
        cbn. repeat split; auto.
      * destruct Hst as (-> & -> & ->). cbn. repeat split; auto. discriminate.
Qed.

Lemma parse_lines_chunks lines :
  Forall fine lines -> parse_lines lines = mapM emit (chunks None lines).
Proof.
  intros Hf. unfold parse_lines.
  rewrite (@assemble_chunks lines Hf (mkAsm [] None None []) None); [|cbn; auto].
  cbn [sections app]. destruct (mapM emit _); reflexivity.
Qed.

Lemma parse_lines_fine lines secs : parse_lines lines = Ok secs -> Forall fine lines.
Proof.
  unfold parse_lines.
  destruct (foldM asm_step lines (mkAsm [] None None [])) as [st|e] eqn:E;
    [|discriminate].
  intros _. eapply fold_fine; eauto.
Qed.

(** Whenever the assembler returns, its sections are those of the
    chunks. *)
Lemma parse_lines_ok_chunks lines secs :
  parse_lines lines = Ok secs -> mapM emit (chunks None lines) = Ok secs.
Proof.
  intros H. rewrite <- (@parse_lines_chunks lines (@parse_lines_fine lines secs H)). exact H.
Qed.

Lemma short_fine lines :
  forallb (fun l => negb (long_number l)) lines = true -> Forall fine lines.
Proof.
  intros H. apply Forall_forall. intros l Hl.
  rewrite forallb_forall in H. specialize (H l Hl).
  apply numbered_heading_pure. apply negb_true_iff. exact H.
Qed.

Lemma emit_total r : exists s, emit r = Ok s.
Proof.
  destruct r as [[t n] b]; unfold emit.
  destruct (@Total.mapM_total _ _ _ Total.explode_inline_bullets_total b) as [ex ->].
  cbn [bind]. destruct (Total.segment_clauses_total (concat ex)) as [cls ->].
  cbn [bind]. eauto.
Qed.

(** The assembler returns when no line carries a number that overflows. *)
Lemma parse_lines_total lines :
  forallb (fun l => negb (long_number l)) lines = true ->
  exists secs, parse_lines lines = Ok secs.
Proof.
  intros H. rewrite (@parse_lines_chunks lines (@short_fine lines H)).
  apply Total.mapM_total, emit_total.
Qed.

Lemma mapM_length {A B : Type} (f : A -> res B) l :
  forall ys, mapM f l = Ok ys -> length ys = length l.
Proof.
  induction l as [|x l IH]; simpl; intros ys H.
  - injection H as <-. reflexivity.
  - destruct (f x); [|discriminate]. simpl in H.
    destruct (mapM f l) as [ys'|]; [|discriminate]. simpl in H.
    injection H as <-. simpl. f_equal. auto.
Qed.

Lemma chunks_count lines :
  forall cur,
    length (chunks cur lines)
    = length (filter is_heading lines)
      + match cur, lines with
        | Some _, _ => 1
        | None, l :: _ => if is_heading l then 0 else 1
        | None, [] => 0
        end.
Proof.
  induction lines as [|l ls IH]; intros cur.
  - destruct cur; reflexivity.
  - cbn [chunks filter].
    destruct (classify l) as [ttl num|] eqn:Hk.
    + assert (Hh : is_heading l = true) by (unfold is_heading; rewrite Hk; reflexivity).
      rewrite Hh, length_app, IH. destruct cur; cbn; lia.
    + assert (Hh : is_heading l = false) by (unfold is_heading; rewrite Hk; reflexivity).
      rewrite Hh, IH. destruct cur; cbn; lia.
Qed.

Lemma flush_total st : exists st', flush st = Ok st' /\ cur_body st' = [].
Proof.
  unfold flush. destruct (truthy (cur_title st)); [|eauto].
  destruct (@Total.mapM_total _ _ _ Total.explode_inline_bullets_total (cur_body st))
    as [ex ->].
  cbn [bind]. destruct (Total.segment_clauses_total (concat ex)) as [cls ->].
  cbn [bind]. eauto.
Qed.

Lemma mapM_Forall {A B : Type} (f : A -> res B) (P : B -> Prop) :
  (forall x y, f x = Ok y -> P y) ->
  forall l ys, mapM f l = Ok ys -> Forall P ys.
Proof.
  intros Hf; induction l as [|x l IH]; simpl; intros ys H.
  - injection H as <-. constructor.
  - destruct (f x) as [y|] eqn:E; [|discriminate]. simpl in H.
    destruct (mapM f l) as [ys'|]; [|discriminate]. simpl in H.
    injection H as <-. constructor; eauto.
Qed.

Lemma reindex_length cs : forall i, length (reindex i cs) = length cs.
Proof. induction cs as [|c cs IH]; intros i; simpl; [|rewrite IH]; reflexivity. Qed.

Lemma reindex_indices cs : forall i, map index (reindex i cs) = seq i (length cs).
Proof. induction cs as [|c cs IH]; intros i; simpl; [|rewrite IH]; reflexivity. Qed.

Lemma segment_clauses_dense lines cs :
  segment_clauses lines = Ok cs -> map index cs = seq 0 (length cs).
Proof.
  unfold segment_clauses.
  destruct (foldM seg_step lines (mkSeg [] [] [])) as [st|]; [|discriminate].
  cbn [bind]. intros [= <-].
  rewrite reindex_indices, reindex_length. reflexivity.
Qed.

Lemma emit_dense r s :
  emit r = Ok s -> map index (clauses s) = seq 0 (length (clauses s)).
Proof.
  destruct r as [[t n] b]; unfold emit.
  destruct (mapM explode_inline_bullets b) as [ex|]; [|discriminate].
  cbn [bind]. destruct (segment_clauses (concat ex)) as [cls|] eqn:E; [|discriminate].
  cbn [bind]. intros [= <-]. cbn. eapply segment_clauses_dense; eauto.
Qed.

Lemma chunks_open ls :
  forall t n b, exists b' rest, chunks (Some (t, n, b)) ls = (t, n, b') :: rest.
Proof.
  induction ls as [|l ls IH]; intros t n b; cbn [chunks].
  - cbn. eauto.
  - destruct (classify l) as [ttl num|].
    + cbn. eauto.
    + cbn [add_body]. apply IH.
Qed.

Lemma mapM_cons_inv {A B : Type} (f : A -> res B) x l ys :
  mapM f (x :: l) = Ok ys -> exists y ys', ys = y :: ys' /\ f x = Ok y /\ mapM f l = Ok ys'.
Proof.
  simpl. destruct (f x) as [y|]; [|discriminate]. simpl.
  destruct (mapM f l) as [ys'|]; [|discriminate]. simpl.
  intros [= <-]. eauto.
Qed.

Lemma emit_open ls t n b secs :
  mapM emit (chunks (Some (t, n, b)) ls) = Ok secs ->
  exists cls rest, secs = mkSection (norm_ws t) n cls :: rest.
Proof.
  destruct (chunks_open ls t n b) as (b' & rest & ->).
  intros E. apply mapM_cons_inv in E. destruct E as (y & ys' & -> & Hy & _).
  unfold emit in Hy.
  destruct (mapM explode_inline_bullets b'); [|discriminate].
  cbn [bind] in Hy. destruct (segment_clauses _); [|discriminate].
  cbn [bind] in Hy. injection Hy as <-. eauto.
Qed.

Lemma mapM_rel {A B : Type} (f : A -> res B) l :
  forall ys, mapM f l = Ok ys -> Forall2 (fun x y => f x = Ok y) l ys.
Proof.
  induction l as [|x l IH]; simpl; intros ys H.
  - injection H as <-. constructor.
  - destruct (f x) as [y|] eqn:E; [|discriminate]. simpl in H.
    destruct (mapM f l) as [ys'|]; [|discriminate]. simpl in H.
    injection H as <-. constructor; auto.
Qed.

Lemma emit_fields t n b s :
  emit (t, n, b) = Ok s ->
  title s = norm_ws t /\ number s = n /\ (b = [] -> clauses s = []).
Proof.
  unfold emit.
  destruct (mapM explode_inline_bullets b) as [ex|] eqn:Ex; [|discriminate].
  cbn [bind]. destruct (segment_clauses (concat ex)) as [cls|] eqn:Ec; [|discriminate].
  cbn [bind]. intros [= <-]. cbn [title number clauses].
  repeat split. intros ->. cbn in Ex. injection Ex as <-.
  vm_compute in Ec. injection Ec as <-. reflexivity.
Qed.

End Assembler.

(** * Properties of the clause segmenter and the section assembler *)

(** C7. Index contiguity: the segmenter returns, for every list of lines,
    clauses whose [index] fields are 0, 1, ..., len-1 in order; and in
    every section the assembler produces, for any pages, the clause
    indices are 0, 1, ..., len-1 in order.  The assembler produces its
    sections whenever no line carries a heading number of more digits
    than [int] converts. *)
Theorem clause_indices_dense :
  (forall lines, exists cs,
      segment_clauses lines = Ok cs /\ map index cs = seq 0 (length cs))
  /\ (forall pages secs,
        parse_sections pages = Ok secs ->
        Forall (fun s => map index (clauses s) = seq 0 (length (clauses s))) secs)
  /\ (forall pages,
        forallb (fun l => negb (Grouping.long_number l)) (raw_lines pages) = true ->
        exists secs, parse_sections pages = Ok secs).
Proof.
  split; [|split].
  - intros lines. destruct (Total.segment_clauses_total lines) as [cs E].
    exists cs. split; [exact E|]. eapply Assembler.segment_clauses_dense; eauto.
  - intros pages secs E. unfold parse_sections in E.
    apply Assembler.parse_lines_ok_chunks in E.
    eapply Assembler.mapM_Forall; [|exact E].
    intros r s. apply Assembler.emit_dense.
  - intros pages H. apply Assembler.parse_lines_total. exact H.
Qed.

Lemma clause_indices_dense_witness :
  Forall (fun s => map index (clauses s) = seq 0 (length (clauses s)))
         [mkSection "Payment Terms" (Some ("3" : str))
                    [mkClause "pay rent" "a" 0; mkClause "keep the premises" "b" 1]].
Proof.
  apply (proj1 (proj2 clause_indices_dense)
               ["3. Payment Terms" ++ "010"%char :: "(a) pay rent"
                                   ++ "010"%char :: "(b) keep the premises" : str]).
  vm_compute. reflexivity.
Defined.

(** C4 fails as worded.  The page ["GOVERNING LAW"] is a heading and the
    last line: when the input ends the body is empty, and the closing
    flush still emits the section, with no clause. *)
Lemma empty_trailing_section_emitted :
  exists st,
    foldM asm_step (raw_lines ["GOVERNING LAW" : str]) (mkAsm [] None None []) = Ok st
    /\ cur_body st = []
    /\ flush st = Ok (mkAsm [mkSection "Governing Law" None []] None None [])
    /\ parse_sections ["GOVERNING LAW" : str] = Ok [mkSection "Governing Law" None []].
Proof.
  exists (mkAsm [] (Some ("Governing Law" : str)) None []).
  repeat split; vm_compute; reflexivity.
Qed.

(** C4, amended.  For every page sequence, whenever the assembler
    returns it has emitted one section for each chunk of the lines cut at
    the accepted heading lines: exactly one section per heading line, plus
    one section when the first line is not a heading, which comes first,
    is titled Preamble and has no number.  With no line at all nothing is
    emitted.  A heading whose body is empty, also the last one, is
    emitted, with an empty clause list.  The assembler returns whenever
    no line carries a heading number of more digits than [int] converts,
    and a flush with no title set emits nothing. *)
Theorem sections_emitted :
  (forall pages secs,
      parse_sections pages = Ok secs ->
      length secs
      = length (filter Grouping.is_heading (raw_lines pages))
        + match raw_lines pages with
          | l :: _ => if Grouping.is_heading l then 0 else 1
          | [] => 0
          end
      /\ match raw_lines pages with
         | l :: _ =>
             Grouping.is_heading l = false ->
             exists cls rest, secs = mkSection "Preamble" None cls :: rest
         | [] => secs = []
         end
      /\ Forall2 Grouping.emitted (Grouping.chunks None (raw_lines pages)) secs)
  /\ (forall pages,
        forallb (fun l => negb (Grouping.long_number l)) (raw_lines pages) = true ->
        exists secs, parse_sections pages = Ok secs)
  /\ (forall st, cur_title st = None -> flush st = Ok (mkAsm (sections st) None None [])).
Proof.
  split; [|split].
  - intros pages secs E. unfold parse_sections in E.
    apply Assembler.parse_lines_ok_chunks in E.
    split; [|split].
    + rewrite (Assembler.mapM_length _ _ E).
      apply (Assembler.chunks_count (raw_lines pages) None).
    + destruct (raw_lines pages) as [|l ls].
      * cbn in E. injection E as <-. reflexivity.
      * intros Hb. unfold Grouping.is_heading in Hb. cbn [Grouping.chunks] in E.
        destruct (Grouping.classify l); [discriminate|].
        apply Assembler.emit_open in E. destruct E as (cls & rest & ->).
        exists cls, rest. reflexivity.
    + apply Assembler.mapM_rel in E.
      eapply Forall2_impl; [|exact E].
      intros [[t n] b] sec He. apply (Assembler.emit_fields _ _ _ He).
  - intros pages H. apply Assembler.parse_lines_total. exact H.
  - intros st Ht. unfold flush. rewrite Ht. reflexivity.
Qed.

Lemma sections_emitted_witness :
  Forall2 Grouping.emitted
    (Grouping.chunks None
       (raw_lines ["Some opening words." ++ "010"%char :: "GOVERNING LAW" : str]))
    [mkSection "Preamble" None [mkClause "Some opening words." [] 0];
     mkSection "Governing Law" None []].
Proof.
  apply (proj1 sections_emitted
           ["Some opening words." ++ "010"%char :: "GOVERNING LAW" : str]
           [mkSection "Preamble" None [mkClause "Some opening words." [] 0];
            mkSection "Governing Law" None []]).
  vm_compute. reflexivity.
Defined.

(** * Properties of the heading classifier *)

(** C3 fails as worded.  The pair ("3", "payment terms") meets none of
    the listed rejections and has two words, yet the filter rejects it:
    a title that starts with a lower-case letter is never a heading.  And
    a 13-word title in upper case with an apostrophe is rejected too,
    because the long-title test admits the characters of
    [SEC_ALLCAPS_RE] only. *)
Lemma lower_case_title_rejected :
  HeadingSpec.claimed_accept "3" "payment terms" = true
  /\ likely_heading "3" "payment terms" = Ok false
  /\ HeadingSpec.claimed_accept "3" "A B C D E F G H I J K L M'S" = true
  /\ likely_heading "3" "A B C D E F G H I J K L M'S" = Ok false.
Proof. repeat split; vm_compute; reflexivity. Qed.

(** C3, amended.  For ASCII text and a number that is not a digit string
    of more digits than [int] converts, the filter returns, and it
    accepts a pair (number, title) exactly when none of the listed
    rejections applies, the title does not start with a lower-case
    letter, and the title has at most 12 words, or at most 16 words and
    only characters of [SEC_ALLCAPS_RE]; every other such pair is
    rejected. *)
Theorem likely_heading_decides :
  forall number title,
    Text.ascii_only number = true ->
    Text.ascii_only title = true ->
    HeadingSpec.overflows number = false ->
    let t := Py.strip title in
    exists b,
      likely_heading number title = Ok b
      /\ (b = true <->
          HeadingSpec.listed_rejection number title = false
          /\ HeadingSpec.starts_lower t = false
          /\ (HeadingSpec.n_words t <= 12
              \/ (HeadingSpec.n_words t <= 16 /\ matches false SEC_ALLCAPS_RE t = true))).
Proof.
  intros number title _ _ Ho t.
  exists (HeadingSpec.accept number title).
  split; [apply (@Heading.likely_heading_accept number title Ho)|].
  unfold HeadingSpec.accept. fold t.
  rewrite !andb_true_iff, orb_true_iff, andb_true_iff, !negb_true_iff, !Nat.leb_le.
  tauto.
Qed.

Lemma likely_heading_decides_witness :
  exists b,
    likely_heading "3" "Payment Terms" = Ok b
    /\ (b = true <->
        HeadingSpec.listed_rejection "3" "Payment Terms" = false
        /\ HeadingSpec.starts_lower (Py.strip "Payment Terms") = false
        /\ (HeadingSpec.n_words (Py.strip "Payment Terms") <= 12
            \/ (HeadingSpec.n_words (Py.strip "Payment Terms") <= 16
                /\ matches false SEC_ALLCAPS_RE (Py.strip "Payment Terms") = true))).
Proof.
  apply (@likely_heading_decides ("3" : str) ("Payment Terms" : str));
    vm_compute; reflexivity.
Defined.

(** C5. Heading suppression.  In every state of the assembler the line
    "35. The Buyer shall pay..." is taken as body text (none of the three
    heading shapes accepts it), while the line "3. Payment Terms" closes
    the open section and starts one with number "3" and title
    "Payment Terms"; both lines pass the normaliser unchanged. *)
Theorem heading_suppression :
  let body := "35. The Buyer shall pay..." : str in
  let head := "3. Payment Terms" : str in
  raw_lines [body; head] = [body; head]
  /\ likely_heading "35" "The Buyer shall pay..." = Ok false
  /\ (forall st,
        asm_step st body
        = Ok (mkAsm (sections st)
                    (if truthy (cur_title st) then cur_title st else Some ("Preamble" : str))
                    (cur_num st) (cur_body st ++ [body])))
  /\ numbered_heading head = Ok (Some (Some ("3" : str), "Payment Terms" : str))
  /\ (forall st, exists st',
        flush st = Ok st'
        /\ asm_step st head
           = Ok (mkAsm (sections st') (Some ("Payment Terms" : str)) (Some ("3" : str)) []))
  /\ parse_sections [head; body]
     = Ok [mkSection "Payment Terms" (Some ("3" : str))
                     [mkClause "The Buyer shall pay..." "35" 0]].
Proof.
  intros body head.
  split; [vm_compute; reflexivity|].
  split; [vm_compute; reflexivity|].
  split.
  { intros st.
    rewrite (@Assembler.asm_step_classify st body) by (vm_compute; reflexivity).
    replace (Grouping.classify body) with Grouping.Body by (vm_compute; reflexivity).
    reflexivity. }
  split; [vm_compute; reflexivity|].
  split; [|vm_compute; reflexivity].
  intros st. destruct (Assembler.flush_total st) as (st' & Hf & Hb).
  exists st'. split; [exact Hf|].
  rewrite (@Assembler.asm_step_classify st head) by (vm_compute; reflexivity).
  replace (Grouping.classify head)
    with (Grouping.Heading ("Payment Terms" : str) (Some ("3" : str)))
    by (vm_compute; reflexivity).
  unfold open_section. rewrite Hf. cbn [bind]. rewrite Hb. reflexivity.
Qed.

(** * Properties of the inline bullet exploder *)

(** C2 fails as worded.  On "Tenant shall: a. pay rent b. maintain premises"
    the exploder returns two fragments, not three: the label keeps its
    delimiter ("a."), and "b." is no token because no colon or semicolon
    stands before it. *)
Lemma tenant_line_two_fragments :
  explode_inline_bullets "Tenant shall: a. pay rent b. maintain premises"
  = Ok ["Tenant shall:" : str; "a. pay rent b. maintain premises" : str]
  /\ explode_inline_bullets "Tenant shall: a. pay rent b. maintain premises"
     <> Ok ["Tenant shall:" : str; "a pay rent" : str; "b maintain premises" : str].
Proof. split; [vm_compute; reflexivity | vm_compute; discriminate]. Qed.

(** C2, amended.  Exploding "Tenant shall: a. pay rent b. maintain premises"
    keeps the preamble "Tenant shall:" as its own first output line; the
    next fragment is the one of the enumerator a, whose label keeps its
    delimiter: it starts with "a. pay rent". *)
Theorem tenant_line_exploded :
  exists tail more,
    explode_inline_bullets "Tenant shall: a. pay rent b. maintain premises"
    = Ok (("Tenant shall:" : str) :: (("a. pay rent" : str) ++ tail) :: more).
Proof.
  exists (" b. maintain premises" : str), []. vm_compute. reflexivity.
Qed.

(** * The effective-date extractor *)

Module Dates.

Import ReFacts DateSpec.

Ltac crunch H :=
  repeat (simpl in H;
    match type of H with
    | context [scan _ _ _ _ _ _ ?s _] => is_var s; destruct s
    | context [match ?s with [] => _ | _ :: _ => _ end] => is_var s; destruct s
    | context [if ?b then _ else _] =>
        match type of b with bool => destruct b eqn:? end
    end; try discriminate).

Lemma iso_only_shape s :
  matches false ISO_ONLY_RE s = true ->
  iso_shape s = true \/ exists core, s = core ++ ["010"%char].
Proof.
  unfold matches, rmatch, ISO_ONLY_RE, start. intros H.
  crunch H.
  - left. unfold iso_shape, forallb.
    repeat match goal with E : _ = true |- _ => rewrite E; clear E end.
    reflexivity.
  - right. match goal with E : Char.eqb ?c "010" = true |- _ =>
             apply Ascii.eqb_eq in E; subst c end.
    eexists [_; _; _; _; _; _; _; _; _; _]. reflexivity.
Qed.

Lemma lstrip_head s c t : Py.lstrip s = c :: t -> Char.is_space c = false.
Proof.
  induction s as [|d s IH]; simpl; [discriminate|].
  destruct (Char.is_space d) eqn:E; [auto|].
  intros [= <- <-]. exact E.
Qed.

Lemma lstrip_suffix s : exists p, s = p ++ Py.lstrip s.
Proof.
  induction s as [|d s [p IH]]; simpl.
  - exists []. reflexivity.
  - destruct (Char.is_space d).
    + exists (d :: p). simpl. f_equal. exact IH.
    + exists []. reflexivity.
Qed.

Lemma strip_last s core c : Py.strip s = core ++ [c] -> Char.is_space c = false.
Proof.
  unfold Py.strip. intros H.
  destruct (lstrip_suffix (Py.rstrip s)) as [p Hp].
  rewrite H in Hp. unfold Py.rstrip in Hp.
  apply (f_equal (@rev ascii)) in Hp.
  rewrite rev_involutive, app_assoc, rev_app_distr in Hp. simpl in Hp.
  eapply lstrip_head; eauto.
Qed.

Lemma strip_iso_shape g :
  matches false ISO_ONLY_RE (Py.strip g) = true -> iso_shape (Py.strip g) = true.
Proof.
  intros H. destruct (iso_only_shape _ H) as [Hs|[core Hc]]; [exact Hs|].
  apply strip_last in Hc. discriminate.
Qed.

Lemma digits4 y :
  y < 100 * 100 ->
  10 * (10 * (10 * (10 * 0 + (y / 1000) mod 10) + (y / 100) mod 10) + (y / 10) mod 10)
  + y mod 10 = y.
Proof.
  intros H.
  pose proof (Nat.div_mod_eq y 10). pose proof (Nat.div_mod_eq (y / 10) 10).
  pose proof (Nat.div_mod_eq (y / 100) 10). pose proof (Nat.div_mod_eq (y / 1000) 10).
  replace (y / 100) with (y / 10 / 10) in * by (rewrite Nat.Div0.div_div; reflexivity).
  replace (y / 1000) with (y / 10 / 10 / 10) in *
    by (rewrite !Nat.Div0.div_div; reflexivity).
  assert (y / 10 / 10 / 10 / 10 = 0).
  { rewrite !Nat.Div0.div_div. apply Nat.div_small. simpl. lia. }
  lia.
Qed.

Lemma digits2 n : n < 100 -> 10 * (10 * 0 + (n / 10) mod 10) + n mod 10 = n.
Proof.
  intros H.
  pose proof (Nat.div_mod_eq n 10). pose proof (Nat.div_mod_eq (n / 10) 10).
  assert (n / 10 / 10 = 0).
  { rewrite Nat.Div0.div_div. apply Nat.div_small. simpl. lia. }
  lia.
Qed.

Lemma digit_chr_digit n :
  Char.is_digit (digit_chr n) = true /\ Py.digit_val (digit_chr n) = n mod 10.
Proof.
  unfold digit_chr.
  assert (H : n mod 10 < 10) by (apply Nat.mod_upper_bound; lia).
  destruct (n mod 10) as [|[|[|[|[|[|[|[|[|[|k]]]]]]]]]]; try (split; reflexivity).
  lia.
Qed.

Lemma days_in_month_le y m : days_in_month y m <= 31.
Proof.
  unfold days_in_month.
  do 13 (destruct m as [|m]; [try lia; destruct (is_leap y); lia|]). lia.
Qed.

Lemma year_str_pad4 y : 1000 <= y -> year_str y = pad4 y.
Proof.
  intros H. unfold year_str.
  rewrite (proj2 (Nat.ltb_ge y 10)) by lia.
  rewrite (proj2 (Nat.ltb_ge y 100)) by lia.
  rewrite (proj2 (Nat.ltb_ge y 1000)) by lia.
  reflexivity.
Qed.

Lemma strftime_iso dt :
  1000 <= year dt ->
  iso_shape (strftime dt) = true /\ is_iso_date (strftime dt) = true.
Proof.
  destruct dt as [y m d Hv]. cbn [year]. intros Hy.
  unfold strftime. cbn [year month day]. rewrite (year_str_pad4 Hy).
  unfold pad4, pad2. cbn [app list_ascii_of_string].
  unfold valid_date in Hv.
  repeat (apply andb_true_iff in Hv; destruct Hv as [Hv ?]).
  repeat match goal with
         | H : (_ <=? _) = true |- _ => apply Nat.leb_le in H
         | H : (_ <? _) = true |- _ => apply Nat.ltb_lt in H
         end.
  pose proof (days_in_month_le y m).
  assert (Hshape : iso_shape
    [digit_chr (y / 1000); digit_chr (y / 100); digit_chr (y / 10); digit_chr y; "-"%char;
     digit_chr (m / 10); digit_chr m; "-"%char; digit_chr (d / 10); digit_chr d] = true).
  { unfold iso_shape, forallb.
    rewrite !(proj1 (digit_chr_digit _)). reflexivity. }
  split; [exact Hshape|].
  unfold is_iso_date. rewrite Hshape.
  unfold Py.int_digits, fold_left. rewrite !(proj2 (digit_chr_digit _)).
  rewrite digits4 by lia. rewrite !digits2 by lia.
  rewrite !andb_true_iff, !Nat.leb_le. repeat split; auto.
Qed.

(** The loop returns the first date the patterns yield. *)
Lemma date_loop_first dateutil txt pats :
  forallb (defines 1) pats = true ->
  date_loop dateutil pats txt = Ok (first_yield dateutil pats txt).
Proof.
  induction pats as [|pat pats IH]; cbn [date_loop first_yield forallb]; intros Hall.
  - reflexivity.
  - apply andb_true_iff in Hall; destruct Hall as [Hp Hall].
    unfold yields, capture.
    destruct (search true pat txt) as [[b m]|] eqn:E; [|auto].
    destruct (@search_from_defines true 1 pat Hp _ _ _ _ E) as [g Hg].
    unfold group_str. rewrite Hg. cbn [bind option_map]. unfold reading.
    destruct (parse_date dateutil (Py.strip g)) as [dt|] eqn:Ed; [reflexivity|].
    destruct (matches false ISO_ONLY_RE (Py.strip g)) eqn:Em; auto.
Qed.

Lemma first_yield_none dateutil txt pats :
  first_yield dateutil pats txt = None
  <-> forall pat, In pat pats -> yields dateutil pat txt = None.
Proof.
  induction pats as [|pat pats IH]; cbn [first_yield].
  - split; [intros _ pat []|reflexivity].
  - destruct (yields dateutil pat txt) as [d|] eqn:E.
    + split; [discriminate|]. intros H.
      rewrite <- E. apply H. left. reflexivity.
    + rewrite IH. split.
      * intros H q [<-|Hq]; auto.
      * intros H q Hq. apply H. right. exact Hq.
Qed.

Lemma first_yield_some dateutil txt pats s :
  first_yield dateutil pats txt = Some s ->
  exists pat, In pat pats /\ yields dateutil pat txt = Some s.
Proof.
  induction pats as [|pat pats IH]; cbn [first_yield]; [discriminate|].
  destruct (yields dateutil pat txt) as [d|] eqn:E.
  - intros [= ->]. exists pat. split; [left; reflexivity | exact E].
  - intros H. destruct (IH H) as (q & Hq & Hy). exists q. split; [right|]; auto.
Qed.

Lemma first_yield_order dateutil txt pats :
  forall i pat d,
    nth_error pats i = Some pat ->
    yields dateutil pat txt = Some d ->
    (forall j pj, j < i -> nth_error pats j = Some pj -> yields dateutil pj txt = None) ->
    first_yield dateutil pats txt = Some d.
Proof.
  induction pats as [|p pats IH]; intros i pat d Hn Hy Hb.
  - destruct i; discriminate.
  - cbn [first_yield]. destruct i as [|i].
    + injection Hn as ->. rewrite Hy. reflexivity.
    + rewrite (Hb 0 p (Nat.lt_0_succ i) eq_refl).
      apply (IH i pat d Hn Hy). intros j pj Hj Hpj.
      apply (Hb (S j) pj); [lia | exact Hpj].
Qed.

Lemma find_effective_date_first dateutil all_text :
  find_effective_date dateutil all_text
  = Ok (first_yield dateutil DATE_PATTERNS (" " ++ all_text ++ " ")).
Proof. apply date_loop_first. reflexivity. Qed.

Lemma find_effective_date_total dateutil all_text :
  exists r, find_effective_date dateutil all_text = Ok r.
Proof. rewrite find_effective_date_first. eauto. Qed.

End Dates.

(** C1 fails as worded.  In "Signed 2021-13-45" the bare pattern captures
    2021-13-45; no parser reads it as a date, its shape passes the
    fallback test, and it is returned as it stands, although there is
    no month 13. *)
Lemma month_13_returned :
  find_effective_date None "Signed 2021-13-45" = Ok (Some ("2021-13-45" : str))
  /\ DateSpec.iso_shape "2021-13-45" = true
  /\ DateSpec.is_iso_date "2021-13-45" = false.
Proof. repeat split; vm_compute; reflexivity. Qed.

(** The same with [dateutil] installed, for any parser that rejects the
    text. *)
Lemma month_13_returned_by_any_parser fuzzy :
  fuzzy ("2021-13-45" : str) = None ->
  find_effective_date (Some fuzzy) "Signed 2021-13-45" = Ok (Some ("2021-13-45" : str)).
Proof.
  intros H. unfold find_effective_date, DATE_PATTERNS.
  repeat (cbn [date_loop];
          match goal with
          | |- context [search true ?r ?t] =>
              let v := eval vm_compute in (search true r t) in
              change (search true r t) with v
          end; cbv iota beta).
  unfold group_str. cbn [group caps lookup Nat.eqb bind parse_date].
  replace (Py.strip _) with ("2021-13-45" : str) by (vm_compute; reflexivity).
  rewrite H. vm_compute. reflexivity.
Qed.

(** The formatting does not fill the year with zeros: with the fallback
    parser, 3 March 999 comes out as 999-03-03. *)
Lemma year_999_not_filled :
  find_effective_date None "Effective Date: March 3, 0999" = Ok (Some ("999-03-03" : str)).
Proof. vm_compute. reflexivity. Qed.

(** C1, amended.  For every input text and whichever date parser is
    installed, the extractor raises nothing.  Its result is absent
    exactly when no pattern yields a date: each pattern either does not
    match, or captures a text that the parser rejects and that has not
    the shape of four digits, dash, two digits, dash, two digits.  A
    result that is present comes from the capture of one of the
    patterns: it is the formatting of the date the parser read in the
    capture, which is a real calendar date written YYYY-MM-DD when the
    year has four digits, or it is the capture itself, which the parser
    rejected, which has the shape above and whose month and day are not
    checked. *)
Theorem effective_date_shape :
  forall dateutil all_text,
  let txt := " " ++ all_text ++ " " in
  exists r,
    find_effective_date dateutil all_text = Ok r
    /\ (r = None <->
        forall pat, In pat DATE_PATTERNS -> DateSpec.yields dateutil pat txt = None)
    /\ (forall s, r = Some s ->
        exists pat d,
          In pat DATE_PATTERNS
          /\ DateSpec.capture pat txt = Some d
          /\ ((exists dt,
                 parse_date dateutil d = Some dt
                 /\ s = strftime dt
                 /\ (1000 <= year dt -> DateSpec.is_iso_date s = true))
              \/ (parse_date dateutil d = None
                  /\ s = d
                  /\ DateSpec.iso_shape s = true))).
Proof.
  intros dateutil all_text txt.
  exists (DateSpec.first_yield dateutil DATE_PATTERNS txt).
  split; [apply Dates.find_effective_date_first|].
  split; [apply Dates.first_yield_none|].
  intros s Hs. apply Dates.first_yield_some in Hs. destruct Hs as (pat & Hin & Hy).
  unfold DateSpec.yields in Hy.
  destruct (DateSpec.capture pat txt) as [d|] eqn:Ec; [|discriminate].
  exists pat, d. split; [exact Hin|]. split; [exact Ec|].
  unfold DateSpec.reading in Hy.
  destruct (parse_date dateutil d) as [dt|] eqn:Ed.
  - left. injection Hy as <-. exists dt. split; [reflexivity|]. split; [reflexivity|].
    intros Hyr. apply (proj2 (@Dates.strftime_iso dt Hyr)).
  - right. destruct (matches false ISO_ONLY_RE d) eqn:Em; [|discriminate].
    injection Hy as <-. split; [reflexivity|]. split; [reflexivity|].
    unfold DateSpec.capture in Ec.
    destruct (search true pat txt) as [[b m]|]; [|discriminate].
    destruct (group 1 m) as [g|]; [|discriminate].
    cbn [option_map] in Ec. injection Ec as <-.
    apply Dates.strip_iso_shape. exact Em.
Qed.

(** C6 fails as worded.  This text contains both "Effective Date: March 3,
    2021" and a bare "2021-03-03", yet the leftmost match of the first
    pattern is an earlier phrase and the result is 2020-01-01. *)
Lemma earlier_phrase_wins :
  let txt : str :=
    "Effective Date: January 1, 2020. Effective Date: March 3, 2021 (2021-03-03)" in
  Py.is_infix "Effective Date: March 3, 2021" txt = true
  /\ Py.is_infix "2021-03-03" txt = true
  /\ find_effective_date None txt = Ok (Some ("2020-01-01" : str)).
Proof. repeat split; vm_compute; reflexivity. Qed.

(** C6, amended.  The patterns are tried in the order of the list and
    the first one that matches and yields a date wins: when a pattern of
    the list yields a date and every pattern before it in the list yields
    none (it does not match, or its capture gives no date), that date is
    the result, wherever in the text the matches stand.  So, for every
    text in which the first pattern (the long form after "Effective
    Date") captures "March 3, 2021", and with a parser that reads it as
    3 March 2021, the extractor returns "2021-03-03", whatever ISO dates
    stand elsewhere in the text. *)
Theorem date_precedence :
  forall dateutil all_text,
  let txt := " " ++ all_text ++ " " in
  (forall i pat d,
      nth_error DATE_PATTERNS i = Some pat ->
      DateSpec.yields dateutil pat txt = Some d ->
      (forall j pj, j < i -> nth_error DATE_PATTERNS j = Some pj ->
                    DateSpec.yields dateutil pj txt = None) ->
      find_effective_date dateutil all_text = Ok (Some d))
  /\ (forall dt,
        DateSpec.capture (hd Eps DATE_PATTERNS) txt = Some ("March 3, 2021" : str) ->
        parse_date dateutil "March 3, 2021" = Some dt ->
        (year dt, month dt, day dt) = (2021, 3, 3) ->
        find_effective_date dateutil all_text = Ok (Some ("2021-03-03" : str))).
Proof.
  intros dateutil all_text txt.
  assert (Hord : forall i pat d,
             nth_error DATE_PATTERNS i = Some pat ->
             DateSpec.yields dateutil pat txt = Some d ->
             (forall j pj, j < i -> nth_error DATE_PATTERNS j = Some pj ->
                           DateSpec.yields dateutil pj txt = None) ->
             find_effective_date dateutil all_text = Ok (Some d)).
  { intros i pat d Hn Hy Hb. rewrite Dates.find_effective_date_first. f_equal.
    apply (@Dates.first_yield_order dateutil txt DATE_PATTERNS i pat d Hn Hy Hb). }
  split; [exact Hord|].
  intros dt Hc Hp Hd.
  apply (Hord 0 (hd Eps DATE_PATTERNS) ("2021-03-03" : str)).
  - reflexivity.
  - unfold DateSpec.yields. rewrite Hc. unfold DateSpec.reading. rewrite Hp.
    unfold strftime. injection Hd as -> -> ->. reflexivity.
  - intros j pj Hj. lia.
Qed.

(** The bare date 2021-03-04 stands before the phrase and the bare
    2021-03-03 after it; the phrase decides. *)
Lemma date_precedence_witness :
  find_effective_date None
    "Signed 2021-03-04. Effective Date: March 3, 2021 (see 2021-03-03)"
  = Ok (Some ("2021-03-03" : str)).
Proof.
  apply (proj2 (date_precedence None
                  "Signed 2021-03-04. Effective Date: March 3, 2021 (see 2021-03-03)")
               (mkDatetime 2021 3 3 eq_refl));
    vm_compute; reflexivity.
Defined.

(** * The normaliser *)

Module Normaliser.

Import Direct.

Lemma lstrip_length s : length (Py.lstrip s) <= length s.
Proof.
  induction s as [|c s IH]; simpl; [lia|].
  destruct (Char.is_space c); simpl; lia.
Qed.

Lemma squeeze_true_lstrip s : squeeze true s = squeeze false (Py.lstrip s).
Proof.
  induction s as [|c s IH]; simpl; [reflexivity|].
  destruct (Char.is_space c) eqn:E; [exact IH|].
  simpl. rewrite E. reflexivity.
Qed.

Lemma scan_space_head aft :
  forall e b cp, exists e' b' tl,
    scan false Space 0 None e b aft cp = (e' ++ e, MState b' (Py.lstrip aft) cp) :: tl.
Proof.
  induction aft as [|c rest IH]; intros e b cp; simpl.
  - exists [], b, []. reflexivity.
  - destruct (Char.is_space c).
    + destruct (IH (c :: e) (c :: b) cp) as (e' & b' & tl & ->).
      exists (e' ++ [c]), b', (tl ++ [(e, MState b (c :: rest) cp)]).
      rewrite <- app_assoc. reflexivity.
    + exists [], b, []. reflexivity.
Qed.

Lemma sub_ws_squeeze fuel :
  forall b a, length a < fuel ->
    sub_from false WS_RE (fun _ => " " : str) fuel b a = squeeze false a.
Proof.
  induction fuel as [|fuel IH]; intros b a Hlen; [lia|].
  destruct a as [|c a']; [reflexivity|].
  cbn [sub_from]. unfold WS_RE, Plus, start. cbn [run before after caps scan Nat.eqb
    pred option_map atom_has].
  cbn [squeeze].
  destruct (Char.is_space c).
  - destruct (scan_space_head a' [c] (c :: b) []) as (e' & b' & tl & ->).
    cbn [app]. destruct e' as [|x e']; cbn [app before after];
      (rewrite IH by (pose proof (lstrip_length a'); simpl in Hlen; lia);
       rewrite squeeze_true_lstrip; reflexivity).
  - cbn [app]. rewrite IH by (simpl in Hlen; lia). reflexivity.
Qed.

Lemma norm_ws_squeeze s : norm_ws s = Py.strip (squeeze false s).
Proof.
  unfold norm_ws, sub. rewrite sub_ws_squeeze by lia. reflexivity.
Qed.

Lemma rstrip_snoc s c :
  Py.rstrip (s ++ [c]) = if Char.is_space c then Py.rstrip s else s ++ [c].
Proof.
  unfold Py.rstrip. rewrite rev_app_distr. simpl.
  destruct (Char.is_space c); [reflexivity|].
  simpl. rewrite rev_involutive. reflexivity.
Qed.

Lemma rstrip_cons c s :
  Py.rstrip (c :: s)
  = match Py.rstrip s with
    | [] => if Char.is_space c then [] else [c]
    | _ => c :: Py.rstrip s
    end.
Proof.
  induction s as [|d s IH] using rev_ind.
  - change [c] with ([] ++ [c]). rewrite rstrip_snoc.
    destruct (Char.is_space c); reflexivity.
  - rewrite app_comm_cons, !rstrip_snoc.
    destruct (Char.is_space d); [exact IH|].
    destruct s; reflexivity.
Qed.

Lemma spaced_squeeze s : forall f, spaced f (squeeze f s) = true.
Proof.
  induction s as [|c s IH]; intros f; simpl; [reflexivity|].
  destruct (Char.is_space c) eqn:E.
  - destruct f; [apply IH|]. simpl. apply IH.
  - simpl. rewrite E. apply IH.
Qed.

Lemma tidy_rstrip s :
  forall f, spaced f s = true -> Py.rstrip s = [] \/ tidy f (Py.rstrip s) = true.
Proof.
  induction s as [|c s IH]; intros f H.
  - left. reflexivity.
  - rewrite rstrip_cons. simpl in H.
    destruct (Char.is_space c) eqn:E.
    + apply andb_true_iff in H; destruct H as [H Hs].
      destruct (IH true Hs) as [->|Ht]; [left; reflexivity|].
      destruct (Py.rstrip s) as [|d r]; [discriminate|].
      right. cbn [tidy]. rewrite E, H. exact Ht.
    + destruct (IH false H) as [->|Ht].
      * right. simpl. rewrite E. reflexivity.
      * right. destruct (Py.rstrip s) as [|d r]; simpl; rewrite E; [reflexivity|].
        exact Ht.
Qed.

Lemma normal_lstrip s : tidy false s = true -> normal (Py.lstrip s) = true.
Proof.
  destruct s as [|c s]; [reflexivity|]. simpl.
  destruct (Char.is_space c) eqn:E.
  - intros H. apply andb_true_iff in H; destruct H as [_ H].
    destruct s as [|d s]; [discriminate|]. simpl in H |- *.
    destruct (Char.is_space d) eqn:Ed; [discriminate|].
    simpl. rewrite Ed. exact H.
  - intros H. simpl. rewrite E. exact H.
Qed.

Lemma norm_ws_normal s : normal (norm_ws s) = true.
Proof.
  rewrite norm_ws_squeeze. unfold Py.strip.
  destruct (tidy_rstrip _ false (spaced_squeeze s false)) as [->|H].
  - reflexivity.
  - apply normal_lstrip. exact H.
Qed.

Lemma tidy_squeeze s : forall f, tidy f s = true -> squeeze f s = s.
Proof.
  induction s as [|c s IH]; intros f H; simpl in *; [reflexivity|].
  destruct (Char.is_space c) eqn:E.
  - apply andb_true_iff in H; destruct H as [H Hs].
    apply andb_true_iff in H; destruct H as [Hf Hc].
    destruct f; [discriminate|].
    apply Ascii.eqb_eq in Hc. subst c. f_equal. auto.
  - f_equal. auto.
Qed.

Lemma tidy_rstrip_id s : forall f, tidy f s = true -> Py.rstrip s = s.
Proof.
  induction s as [|c s IH]; intros f H; [reflexivity|].
  rewrite rstrip_cons. simpl in H.
  destruct (Char.is_space c) eqn:E.
  - apply andb_true_iff in H; destruct H as [_ Hs].
    rewrite (IH true Hs). destruct s; [discriminate | reflexivity].
  - rewrite (IH false H). destruct s; reflexivity.
Qed.

Lemma normal_fixed s : normal s = true -> norm_ws s = s.
Proof.
  intros H. rewrite norm_ws_squeeze. unfold Py.strip.
  destruct s as [|c s]; [reflexivity|].
  simpl in H. destruct (Char.is_space c) eqn:E; [discriminate|].
  assert (Hsq : squeeze false (c :: s) = c :: s).
  { simpl. rewrite E. f_equal. apply tidy_squeeze. exact H. }
  rewrite Hsq.
  rewrite (tidy_rstrip_id (c :: s) true) by (simpl; rewrite E; exact H).
  simpl. rewrite E. reflexivity.
Qed.

Lemma norm_ws_idem s : norm_ws (norm_ws s) = norm_ws s.
Proof. apply normal_fixed, norm_ws_normal. Qed.

(** *** The gap substitutions *)

Lemma sub_gap (a1 a2 : atom) fuel :
  forall b a, length a < fuel ->
    sub_from false (Seq (Grp 1 (At a1)) (Grp 2 (At a2))) gap_repl fuel b a
    = gap (atom_has false a1) (atom_has false a2) a.
Proof.
  induction fuel as [|fuel IH]; intros b a Hlen; [lia|].
  destruct a as [|c1 [|c2 rest]].
  - reflexivity.
  - cbn [sub_from run start after before caps gap].
    destruct (atom_has false a1 c1); cbn [map flat_map app snd fst after set_cap];
      rewrite IH by (simpl in *; lia); reflexivity.
  - cbn [sub_from run start after before caps gap].
    destruct (atom_has false a1 c1); cbn [map flat_map app snd fst after set_cap andb];
      [destruct (atom_has false a2 c2); cbn [map flat_map app extend set_cap snd fst
         before after caps]|];
      rewrite IH by (simpl in *; lia); reflexivity.
Qed.

Lemma desquash_gaps s :
  desquash s
  = match s with
    | [] => []
    | _ => gap (atom_has false Digit) (atom_has false letter)
             (gap (atom_has false letter) (atom_has false Digit)
                (gap (atom_has false lower_az) (atom_has false upper_AZ) s))
    end.
Proof.
  destruct s as [|c s]; [reflexivity|].
  unfold desquash, sub, CAMEL_GAP_RE, LETTER_DIGIT_GAP_RE, DIGIT_LETTER_GAP_RE.
  rewrite !sub_gap by lia. reflexivity.
Qed.

Section Gaps.

Variables p q : ascii -> bool.
Hypothesis p_space : p " " = false.
Hypothesis q_space : q " " = false.

Lemma gap_head p' q' s : hd_error (gap p' q' s) = hd_error s.
Proof.
  destruct s as [|c1 [|c2 rest]]; simpl; [reflexivity..|].
  destruct (p' c1 && q' c2); reflexivity.
Qed.

Lemma gap_cons2 p' q' c1 c2 rest :
  gap p' q' (c1 :: c2 :: rest)
  = if p' c1 && q' c2 then c1 :: " "%char :: c2 :: gap p' q' rest
    else c1 :: gap p' q' (c2 :: rest).
Proof. reflexivity. Qed.

Lemma nogap_cons c s :
  nogap p q (c :: s)
  = match hd_error s with
    | Some d => negb (p c && q d) && nogap p q s
    | None => true
    end.
Proof. destruct s; reflexivity. Qed.

Lemma nogap_tail c s : nogap p q (c :: s) = true -> nogap p q s = true.
Proof.
  rewrite nogap_cons. destruct s as [|d s]; [reflexivity|]. simpl hd_error.
  intros H. apply andb_true_iff in H. tauto.
Qed.

Lemma nogap_fixed s : nogap p q s = true -> gap p q s = s.
Proof.
  induction s as [|c1 s IH]; [reflexivity|].
  destruct s as [|c2 rest]; [reflexivity|].
  intros H. pose proof (nogap_tail _ _ H) as Ht.
  cbn [nogap] in H. apply andb_true_iff in H; destruct H as [H _].
  apply negb_true_iff in H. rewrite gap_cons2, H. f_equal. auto.
Qed.

(** Spaces put in by any gap substitution make no [p]-[q] pair. *)
Lemma nogap_kept p' q' n :
  forall s, length s <= n -> nogap p q s = true -> nogap p q (gap p' q' s) = true.
Proof.
  induction n as [|n IH]; intros s Hlen H.
  - destruct s; [reflexivity | simpl in Hlen |- *; lia].
  - destruct s as [|c1 [|c2 rest]]; [reflexivity..|].
    pose proof (nogap_tail _ _ H) as Ht.
    cbn [nogap] in H. apply andb_true_iff in H; destruct H as [H12 _].
    rewrite gap_cons2. destruct (p' c1 && q' c2).
    + rewrite nogap_cons. cbn [hd_error]. rewrite q_space, andb_false_r. cbn [negb andb].
      rewrite nogap_cons. cbn [hd_error]. rewrite p_space. cbn [negb andb].
      rewrite nogap_cons, (gap_head p' q' rest).
      rewrite nogap_cons in Ht.
      destruct (hd_error rest) as [d|] eqn:Ed; [|reflexivity].
      apply andb_true_iff in Ht; destruct Ht as [H2 Ht].
      rewrite H2. cbn [andb]. apply IH; [simpl in Hlen |- *; lia | exact Ht].
    + rewrite nogap_cons, (gap_head p' q' (c2 :: rest)). cbn [hd_error].
      rewrite H12. cbn [andb].
      apply IH; [simpl in Hlen |- *; lia | exact Ht].
Qed.

Hypothesis disjoint : forall c, q c = true -> p c = false.

Lemma nogap_made n :
  forall s, length s <= n -> nogap p q (gap p q s) = true.
Proof.
  induction n as [|n IH]; intros s Hlen.
  - destruct s; [reflexivity | simpl in Hlen |- *; lia].
  - destruct s as [|c1 [|c2 rest]]; [reflexivity..|].
    rewrite gap_cons2. destruct (p c1 && q c2) eqn:E.
    + apply andb_true_iff in E; destruct E as [_ E2].
      rewrite nogap_cons. cbn [hd_error]. rewrite q_space, andb_false_r. cbn [negb andb].
      rewrite nogap_cons. cbn [hd_error]. rewrite p_space. cbn [negb andb].
      rewrite nogap_cons, (gap_head p q rest).
      destruct (hd_error rest) as [d|]; [|reflexivity].
      rewrite (@disjoint c2 E2). cbn [negb andb]. apply IH. simpl in Hlen |- *. lia.
    + rewrite nogap_cons, (gap_head p q (c2 :: rest)). cbn [hd_error].
      rewrite E. cbn [negb andb].
      apply IH. simpl in Hlen |- *. lia.
Qed.

End Gaps.

Lemma digit_not_letter c :
  atom_has false Digit c = true -> atom_has false letter c = false.
Proof. destruct c as [[] [] [] [] [] [] [] []]; vm_compute; congruence. Qed.

Lemma letter_not_digit c :
  atom_has false letter c = true -> atom_has false Digit c = false.
Proof. destruct c as [[] [] [] [] [] [] [] []]; vm_compute; congruence. Qed.

Lemma upper_not_lower c :
  atom_has false upper_AZ c = true -> atom_has false lower_az c = false.
Proof. destruct c as [[] [] [] [] [] [] [] []]; vm_compute; congruence. Qed.

Lemma desquash_idem s : desquash (desquash s) = desquash s.
Proof.
  rewrite (desquash_gaps s). destruct s as [|c s]; [reflexivity|].
  set (lo := atom_has false lower_az). set (up := atom_has false upper_AZ).
  set (le := atom_has false letter). set (di := atom_has false Digit).
  set (x1 := gap lo up (c :: s)). set (x2 := gap le di x1). set (x3 := gap di le x2).
  assert (H1 : nogap lo up x3 = true).
  { apply (@nogap_kept lo up eq_refl eq_refl di le (length x2)); [lia|].
    apply (@nogap_kept lo up eq_refl eq_refl le di (length x1)); [lia|].
    apply (@nogap_made lo up eq_refl eq_refl upper_not_lower (length (c :: s))). lia. }
  assert (H2 : nogap le di x3 = true).
  { apply (@nogap_kept le di eq_refl eq_refl di le (length x2)); [lia|].
    apply (@nogap_made le di eq_refl eq_refl digit_not_letter (length x1)). lia. }
  assert (H3 : nogap di le x3 = true).
  { apply (@nogap_made di le eq_refl eq_refl letter_not_digit (length x2)). lia. }
  rewrite desquash_gaps. fold lo up le di.
  destruct x3 as [|d x3'] eqn:E; [reflexivity|]. rewrite <- E in *.
  rewrite (@nogap_fixed lo up x3 H1), (@nogap_fixed le di x3 H2), (@nogap_fixed di le x3 H3).
  reflexivity.
Qed.

(** *** Clock times *)

Import Protect.

Ltac crunch H :=
  repeat (simpl in H;
    match type of H with
    | context [scan _ _ _ _ _ _ ?s _] => is_var s; destruct s
    | context [match ?s with [] => _ | _ :: _ => _ end] => is_var s; destruct s
    | context [if ?b then _ else _] =>
        match type of b with bool => destruct b eqn:? end
    end; try discriminate).

Lemma time_dot_way b a w tl :
  run false TIME_DOT_RE (start b a) = w :: tl ->
  fst w <> []
  /\ a = rev (fst w) ++ after (snd w)
  /\ Forall2 dot_to_colon (rev (fst w)) (time_repl (snd w)).
Proof.
  unfold TIME_DOT_RE, start. intros H.
  crunch H.
  all: injection H as <- <-.
  all: repeat match goal with
              | E : Char.eqb _ "." = true |- _ => apply Ascii.eqb_eq in E; subst
              end.
  all: cbn; split; [discriminate|]; split; [reflexivity|].
  all: repeat (apply Forall2_cons || apply Forall2_nil);
       first [left; reflexivity | right; split; reflexivity].
Qed.

Lemma dot_to_colon_refl s : Forall2 dot_to_colon s s.
Proof. induction s; constructor; [left; reflexivity | assumption]. Qed.

Lemma protect_times_rel fuel :
  forall b a, Forall2 dot_to_colon a (sub_from false TIME_DOT_RE time_repl fuel b a).
Proof.
  induction fuel as [|fuel IH]; intros b a; [apply dot_to_colon_refl|].
  cbn [sub_from].
  destruct (run false TIME_DOT_RE (start b a)) as [|w tl] eqn:E.
  - destruct a as [|c a']; constructor; [left; reflexivity | apply IH].
  - destruct (time_dot_way _ _ E) as (Hne & Ha & Hr).
    destruct w as [[|x e] m]; [cbn in Hne; congruence|].
    cbn [fst snd] in Ha, Hr. rewrite Ha at 1.
    apply Forall2_app; [exact Hr | apply IH].
Qed.

Lemma rel_tidy x y :
  Forall2 dot_to_colon x y -> forall f, tidy f y = tidy f x.
Proof.
  induction 1 as [|a b x y [->|[-> ->]] _ IH]; intros f; simpl.
  - reflexivity.
  - destruct (Char.is_space b); rewrite IH; reflexivity.
  - apply IH.
Qed.

Lemma protect_times_normal s : normal s = true -> normal (protect_times s) = true.
Proof.
  unfold protect_times, sub.
  pose proof (protect_times_rel (S (length s)) [] s) as H.
  intros Hn. destruct H as [|a b x y Hab Hxy]; [reflexivity|].
  unfold normal in *. rewrite (rel_tidy (Forall2_cons _ _ Hab Hxy)). exact Hn.
Qed.

Lemma raw_lines_normal pages l : In l (raw_lines pages) -> normal l = true.
Proof.
  unfold raw_lines. intros H.
  apply in_map_iff in H; destruct H as (x & <- & H).
  apply filter_In in H; destruct H as [H _].
  apply in_map_iff in H; destruct H as (y & <- & _).
  apply protect_times_normal, norm_ws_normal.
Qed.

(** *** Title case *)

Lemma case_keeps_blanks c :
  Char.is_space (Char.lower c) = Char.is_space c
  /\ Char.is_space (Char.upper c) = Char.is_space c
  /\ (Char.is_space c = true -> Char.lower c = c /\ Char.upper c = c).
Proof.
  destruct c as [[] [] [] [] [] [] [] []]; vm_compute;
    repeat split; try reflexivity; discriminate.
Qed.

Lemma title_tidy s : forall pc f, tidy f (Py.title_go pc s) = tidy f s.
Proof.
  induction s as [|c s IH]; intros pc f; simpl; [reflexivity|].
  destruct (case_keeps_blanks c) as (Hl & Hu & Hk).
  destruct pc.
  - rewrite Hl. destruct (Char.is_space c) eqn:E.
    + destruct (Hk eq_refl) as [-> _]. rewrite IH. reflexivity.
    + apply IH.
  - rewrite Hu. destruct (Char.is_space c) eqn:E.
    + destruct (Hk eq_refl) as [_ ->]. rewrite IH. reflexivity.
    + apply IH.
Qed.

Lemma title_normal s : normal s = true -> normal (Py.title s) = true.
Proof.
  destruct s as [|c s]; [reflexivity|].
  unfold normal, Py.title. intros H.
  rewrite <- (title_tidy (c :: s) false true) in H. exact H.
Qed.

End Normaliser.

(** * Properties of the normaliser *)

(** C8. Idempotence: for every string, normalising the whitespace twice
    equals normalising it once, and so does desquashing. *)
Theorem normaliser_idempotent :
  forall s, norm_ws (norm_ws s) = norm_ws s /\ desquash (desquash s) = desquash s.
Proof.
  intros s. split; [apply Normaliser.norm_ws_idem | apply Normaliser.desquash_idem].
Qed.

(** * The upper-case heading shape *)

Lemma chunks_app_heading ls1 l ls2 ttl num :
  Grouping.classify l = Grouping.Heading ttl num ->
  forall cur,
    Grouping.chunks cur (ls1 ++ l :: ls2)
    = Grouping.chunks cur ls1 ++ Grouping.chunks (Some (ttl, num, [])) ls2.
Proof.
  intros Hk. induction ls1 as [|x ls1 IH]; intros cur.
  - cbn [app Grouping.chunks]. rewrite Hk. reflexivity.
  - cbn [app Grouping.chunks]. destruct (Grouping.classify x).
    + rewrite IH, app_assoc. reflexivity.
    + apply IH.
Qed.

(** C10. Every line that the assembler takes as an upper-case heading
    (the numbered shape does not accept it, it consists of the characters
    of [SEC_ALLCAPS_RE], at least three, in at most 12 words) and that is
    fully upper-case yields a section whose title is the title-cased
    line, not the raw line, and whose number is absent: in the sections
    the assembler returns, the sections of the lines before it come
    first, then this one.  The assembler returns whenever no line carries
    a heading number of more digits than [int] converts. *)
Theorem allcaps_heading_title :
  forall pages ls1 l ls2,
    raw_lines pages = ls1 ++ l :: ls2 ->
    numbered_heading l = Ok None ->
    allcaps_heading l = true ->
    Py.isupper l = true ->
    (forallb (fun x => negb (Grouping.long_number x)) (raw_lines pages) = true ->
     exists secs, parse_sections pages = Ok secs)
    /\ (forall secs,
          parse_sections pages = Ok secs ->
          exists secs1 cls rest,
            parse_lines ls1 = Ok secs1
            /\ secs = secs1 ++ mkSection (Py.title l) None cls :: rest).
Proof.
  intros pages ls1 l ls2 Hraw Hnum Hcaps Hup.
  split; [apply Assembler.parse_lines_total|].
  intros secs H. unfold parse_sections in H. rewrite Hraw in H.
  assert (Hk : Grouping.classify l = Grouping.Heading (Py.title l) None).
  { unfold Grouping.classify.
    pose proof (@Assembler.numbered_heading_ok l None Hnum) as Hf.
    unfold Assembler.fine in Hf. rewrite Hnum in Hf. injection Hf as <-.
    rewrite Hcaps, Hup. reflexivity. }
  assert (Hn : Direct.normal l = true).
  { apply (Normaliser.raw_lines_normal pages). rewrite Hraw.
    apply in_or_app. right. left. reflexivity. }
  pose proof (@Assembler.parse_lines_fine _ _ H) as Hfine.
  apply Forall_app in Hfine. destruct Hfine as [Hfine1 _].
  apply Assembler.parse_lines_ok_chunks in H.
  rewrite (@chunks_app_heading ls1 l ls2 _ _ Hk), Assembler.mapM_app in H.
  destruct (mapM Grouping.emit (Grouping.chunks None ls1)) as [secs1|] eqn:H1;
    [|discriminate].
  cbn [bind] in H.
  destruct (mapM Grouping.emit (Grouping.chunks _ ls2)) as [secs2|] eqn:H2;
    [|discriminate].
  cbn [bind] in H. injection H as <-.
  apply Assembler.emit_open in H2. destruct H2 as (cls & rest & ->).
  exists secs1, cls, rest.
  split; [rewrite (@Assembler.parse_lines_chunks ls1 Hfine1); exact H1|].
  rewrite (@Normaliser.normal_fixed _ (@Normaliser.title_normal _ Hn)). reflexivity.
Qed.

(** "GOVERNING LAW" between a line of preamble and a line of body becomes
    the section "Governing Law". *)
Lemma allcaps_heading_title_witness :
  exists secs1 cls rest,
    parse_lines ["intro" : str] = Ok secs1
    /\ [mkSection "Preamble" None [mkClause "intro" [] 0];
        mkSection "Governing Law" None [mkClause "body text" [] 0]]
       = secs1 ++ mkSection "Governing Law" None cls :: rest.
Proof.
  apply (proj2 (@allcaps_heading_title
                  ["intro" : str; "GOVERNING LAW" : str; "body text" : str]
                  ["intro" : str] ("GOVERNING LAW" : str) ["body text" : str]
                  eq_refl eq_refl eq_refl eq_refl)).
  vm_compute. reflexivity.
Defined.

(** * The whole pipeline *)

Lemma guess_title_total pages filename :
  exists t, guess_title pages filename = Ok (t, "Agreement" : str).
Proof.
  unfold guess_title. destruct pages as [|p pages]; cbn [nonempty first bind].
  - cbn [find]. eauto.
  - destruct (find _ (Py.splitlines p)); eauto.
Qed.

Lemma preamble_only lines secs :
  forallb (fun l => negb (Grouping.is_heading l)) lines = true ->
  parse_lines lines = Ok secs ->
  secs = [] \/ exists cls, secs = [mkSection "Preamble" None cls].
Proof.
  intros Hno E. apply Assembler.parse_lines_ok_chunks in E.
  pose proof (Assembler.mapM_length _ _ E) as Hlen.
  rewrite (Assembler.chunks_count lines None) in Hlen.
  assert (Hf : filter Grouping.is_heading lines = []).
  { clear -Hno. induction lines as [|l ls IH]; simpl in *; [reflexivity|].
    apply andb_true_iff in Hno; destruct Hno as [Hl Hno].
    apply negb_true_iff in Hl. rewrite Hl. auto. }
  rewrite Hf in Hlen. cbn [length Nat.add] in Hlen.
  destruct lines as [|l ls].
  - left. destruct secs; [reflexivity | discriminate].
  - right. simpl in Hno. apply andb_true_iff in Hno; destruct Hno as [Hl _].
    apply negb_true_iff in Hl. rewrite Hl in Hlen.
    unfold Grouping.is_heading in Hl. cbn [Grouping.chunks] in E.
    destruct (Grouping.classify l); [discriminate|].
    apply Assembler.emit_open in E. destruct E as (cls & rest & ->).
    destruct rest; [|discriminate]. exists cls. reflexivity.
Qed.

Lemma classify_title_normal l ttl num :
  Direct.normal l = true ->
  Grouping.classify l = Grouping.Heading ttl num ->
  Direct.normal ttl = true.
Proof.
  intros Hn. unfold Grouping.classify, Grouping.numbered.
  assert (Hrest :
    (if allcaps_heading l
     then Grouping.Heading (if Py.isupper l then Py.title l else l) None
     else if titlecase_heading l then Grouping.Heading l None else Grouping.Body)
    = Grouping.Heading ttl num -> Direct.normal ttl = true).
  { destruct (allcaps_heading l).
    - intros [= <- <-]. destruct (Py.isupper l); auto using Normaliser.title_normal.
    - destruct (titlecase_heading l); [|discriminate]. intros [= <- <-]. exact Hn. }
  destruct (rmatch true SEC_RE l) as [m|]; [|exact Hrest].
  destruct (group 2 m) as [g2|]; [|exact Hrest].
  destruct (HeadingSpec.accept _ _); [|exact Hrest].
  intros [= <- <-]. apply Normaliser.norm_ws_normal.
Qed.

Lemma chunks_titled lines :
  Forall (fun l => Direct.normal l = true) lines ->
  forall cur,
    Forall Direct.titled (Grouping.closed cur) ->
    Forall Direct.titled (Grouping.chunks cur lines).
Proof.
  induction 1 as [|l ls Hl _ IH]; intros cur Hcur; cbn [Grouping.chunks]; [exact Hcur|].
  destruct (Grouping.classify l) as [ttl num|] eqn:Hk.
  - apply Forall_app. split; [exact Hcur|].
    apply IH. constructor; [|constructor]. split; cbn.
    + eapply classify_title_normal; eauto.
    + eapply Assembler.heading_title_nonempty; eauto.
  - apply IH. constructor; [|constructor].
    destruct cur as [[[t n] b]|]; cbn.
    + inversion Hcur; subst. assumption.
    + split; [reflexivity | discriminate].
Qed.

Lemma emit_titled r s :
  Direct.titled r -> Grouping.emit r = Ok s ->
  title s <> [] /\ map index (clauses s) = seq 0 (length (clauses s)).
Proof.
  intros [Hn Hne] E. split; [|eapply Assembler.emit_dense; eauto].
  destruct r as [[t n] b]. cbn in Hn, Hne. unfold Grouping.emit in E.
  destruct (mapM explode_inline_bullets b); [|discriminate].
  cbn [bind] in E. destruct (segment_clauses _); [|discriminate].
  cbn [bind] in E. injection E as <-. cbn [title].
  rewrite (@Normaliser.normal_fixed t Hn). exact Hne.
Qed.

Lemma mapM_Forall2 {A B : Type} (f : A -> res B) (P : A -> Prop) (Q : B -> Prop) :
  (forall x y, P x -> f x = Ok y -> Q y) ->
  forall l ys, Forall P l -> mapM f l = Ok ys -> Forall Q ys.
Proof.
  intros Hf; induction l as [|x l IH]; simpl; intros ys HP H.
  - injection H as <-. constructor.
  - inversion HP; subst.
    destruct (f x) as [y|] eqn:E; [|discriminate]. simpl in H.
    destruct (mapM f l) as [ys'|]; [|discriminate]. simpl in H.
    injection H as <-. constructor; eauto.
Qed.

Lemma sections_well_formed pages secs :
  parse_sections pages = Ok secs ->
  Forall (fun s => title s <> []
                   /\ map index (clauses s) = seq 0 (length (clauses s))) secs.
Proof.
  unfold parse_sections. intros E. apply Assembler.parse_lines_ok_chunks in E.
  eapply mapM_Forall2; [apply emit_titled | | exact E].
  apply chunks_titled; [|constructor].
  apply Forall_forall. intros l Hl. eapply Normaliser.raw_lines_normal; eauto.
Qed.

(** The pipeline returns whenever no line carries a heading number of
    more digits than [int] converts. *)
Lemma parse_contract_returns dateutil pages filename :
  forallb (fun l => negb (Grouping.long_number l)) (raw_lines pages) = true ->
  exists t edate secs,
    guess_title pages filename = Ok (t, "Agreement" : str)
    /\ find_effective_date dateutil (Py.join ["010"%char] pages) = Ok edate
    /\ parse_sections pages = Ok secs
    /\ parse_contract dateutil pages filename
       = Ok (mkDocument t "Agreement" (if truthy edate then edate else None)
                        (map export_section secs)).
Proof.
  intros Hshort. unfold parse_contract.
  destruct (guess_title_total pages filename) as [t Ht].
  destruct (Dates.find_effective_date_total dateutil (Py.join ["010"%char] pages))
    as [edate He].
  destruct (@Assembler.parse_lines_total (raw_lines pages) Hshort) as [secs Hs].
  exists t, edate, secs. rewrite Ht. cbn [bind]. rewrite He. cbn [bind].
  unfold parse_sections. rewrite Hs. cbn [bind]. auto.
Qed.

(** * A heading number that overflows *)

Module LongNumber.

Lemma scan_digits icase ds :
  forall lo e b aft cp,
    forallb Char.is_digit ds = true ->
    lo <= length ds ->
    head_is Char.is_digit aft = false ->
    exists tl,
      scan icase Digit lo None e b (ds ++ aft) cp
      = (rev ds ++ e, MState (rev ds ++ b) aft cp) :: tl.
Proof.
  induction ds as [|d ds IH]; intros lo e b aft cp Hds Hlo Haft.
  - assert (lo = 0) by (simpl in Hlo; lia). subst lo.
    destruct aft as [|c rest]; simpl; [eauto|].
    simpl in Haft. rewrite Haft. eauto.
  - simpl in Hds. apply andb_true_iff in Hds. destruct Hds as [Hd Hds].
    cbn [app scan atom_has]. rewrite Hd.
    destruct (IH (pred lo) (d :: e) (d :: b) aft cp Hds) as [tl Htl];
      [simpl in Hlo; lia | exact Haft |].
    cbn [option_map]. rewrite Htl. cbn [rev]. rewrite <- !app_assoc. cbn [app].
    eexists. reflexivity.
Qed.

(** The rest of [SEC_RE] after the number. *)
Definition SEC_TAIL : regex :=
  Cat [ Star (At Space);
        Opt (At (Cls [One "."; One ")"; One "-"]));
        Plus (At Space);
        Grp 2 (Plus (At Dot));
        Eol ].

Lemma sec_tail b cp :
  exists e b' tl,
    run true SEC_TAIL (MState b ". Title" cp)
    = (e, MState b' [] ((2, "Title" : str) :: cp)) :: tl.
Proof. eexists _, _, _. vm_compute. reflexivity. Qed.

Definition first_way (r : regex) (s : mstate) (w : way) : Prop :=
  exists tl, run true r s = w :: tl.

Lemma first_seq r1 r2 s w1 w2 :
  first_way r1 s w1 -> first_way r2 (snd w1) w2 ->
  first_way (Seq r1 r2) s (extend (fst w1) w2).
Proof.
  intros [tl1 H1] [tl2 H2]. unfold first_way. cbn [run]. rewrite H1.
  cbn [flat_map]. rewrite H2. cbn [map app]. eauto.
Qed.

Lemma first_alt r1 r2 s w : first_way r1 s w -> first_way (Alt r1 r2) s w.
Proof. intros [tl H]. unfold first_way. cbn [run]. rewrite H. cbn [app]. eauto. Qed.

Lemma first_grp n r s w : first_way r s w -> first_way (Grp n r) s (set_cap n w).
Proof. intros [tl H]. unfold first_way. cbn [run]. rewrite H. cbn [map]. eauto. Qed.

Lemma sec_opt d rest :
  Char.is_digit d = true ->
  first_way (Opt (Alt (Lit "Section") (Lit "Article")))
            (start [] (d :: rest)) ([], start [] (d :: rest)).
Proof.
  intros Hd. exists [].
  destruct d as [[] [] [] [] [] [] [] []]; vm_compute in Hd; try discriminate Hd;
    vm_compute; reflexivity.
Qed.

Lemma sec_blank d rest :
  Char.is_digit d = true ->
  first_way (Star (At Space)) (start [] (d :: rest)) ([], start [] (d :: rest)).
Proof.
  intros Hd. exists [].
  destruct d as [[] [] [] [] [] [] [] []]; vm_compute in Hd; try discriminate Hd;
    vm_compute; reflexivity.
Qed.

Lemma sec_number ds :
  ds <> [] ->
  forallb Char.is_digit ds = true ->
  exists e b,
    first_way (Grp 1 (Alt (Seq (Plus (At Digit))
                               (Star (Seq (At (Chr ".")) (Plus (At Digit)))))
                          (Plus (At (Cls [One "I"; One "V"; One "X"])))))
              (start [] (ds ++ ". Title"))
              (e, MState b ". Title" [(1, ds)]).
Proof.
  intros Hne Hds.
  destruct (@scan_digits true ds 1 [] [] ". Title" [] Hds) as [tl3 H3];
    [destruct ds; [congruence | simpl; lia] | reflexivity |].
  assert (H1 : first_way (Plus (At Digit)) (start [] (ds ++ ". Title"))
                 (rev ds ++ [], MState (rev ds ++ []) ". Title" [])).
  { exists tl3. exact H3. }
  assert (H2 : first_way (Star (Seq (At (Chr ".")) (Plus (At Digit))))
                 (MState (rev ds ++ []) ". Title" [])
                 ([], MState (rev ds ++ []) ". Title" [])).
  { exists []. generalize (rev ds ++ []). intros b. vm_compute. reflexivity. }
  pose proof (first_grp 1 (first_alt (Plus (At (Cls [One "I"; One "V"; One "X"])))
                                     (first_seq H1 H2))) as H.
  unfold set_cap, extend in H. cbn [fst snd before after caps app] in H.
  rewrite app_nil_r, rev_involutive in H. eauto.
Qed.

Lemma sec_re_digits ds :
  ds <> [] ->
  forallb Char.is_digit ds = true ->
  exists m,
    rmatch true SEC_RE (ds ++ ". Title") = Some m
    /\ group 1 m = Some ds
    /\ group 2 m = Some ("Title" : str).
Proof.
  intros Hne Hds.
  destruct (sec_number Hne Hds) as (e & b & Hn).
  destruct (sec_tail b [(1, ds)]) as (e2 & b2 & tl2 & Ht).
  assert (Hd : exists d ds', ds = d :: ds' /\ Char.is_digit d = true).
  { destruct ds as [|d ds']; [congruence|].
    simpl in Hds. apply andb_true_iff in Hds. destruct Hds as [Hd _]. eauto. }
  destruct Hd as (d & ds' & Eds & Hd).
  assert (Hb : first_way Bol (start [] (ds ++ ". Title")) ([], start [] (ds ++ ". Title")))
    by (exists []; reflexivity).
  assert (Ho : first_way (Opt (Alt (Lit "Section") (Lit "Article")))
                 (start [] (ds ++ ". Title")) ([], start [] (ds ++ ". Title")))
    by (rewrite Eds; apply (@sec_opt d _ Hd)).
  assert (Hs : first_way (Star (At Space))
                 (start [] (ds ++ ". Title")) ([], start [] (ds ++ ". Title")))
    by (rewrite Eds; apply (@sec_blank d _ Hd)).
  assert (Htl : first_way SEC_TAIL (MState b ". Title" [(1, ds)])
                  (e2, MState b2 [] [(2, "Title" : str); (1, ds)]))
    by (exists tl2; exact Ht).
  pose proof (first_seq Hb (first_seq Ho (first_seq Hs (first_seq Hn Htl)))) as Hall.
  destruct Hall as [tl Hall].
  exists (MState b2 [] [(2, "Title" : str); (1, ds)]).
  split; [|split; reflexivity].
  unfold rmatch. unfold SEC_RE. cbn [Cat]. fold SEC_TAIL.
  etransitivity; [apply f_equal, f_equal; exact Hall|]. reflexivity.
Qed.

End LongNumber.

(** C9 fails on the code.  A line of 4301 digits followed by ". Title"
    passes the normaliser unchanged and has the numbered shape; the
    filter reads the number with [int], which raises [ValueError] beyond
    4300 digits, and nothing in the core handles it: the section
    assembler and the whole pipeline raise, whichever date parser is
    installed and whatever the file is called. *)
Theorem long_heading_number_raises :
  raw_lines [long_number_page] = [long_number_page]
  /\ numbered_heading long_number_page = Raise ValueError
  /\ parse_sections [long_number_page] = Raise ValueError
  /\ (forall dateutil filename,
        parse_contract dateutil [long_number_page] filename = Raise ValueError).
Proof.
  assert (Hraw : raw_lines [long_number_page] = [long_number_page])
    by (vm_compute; reflexivity).
  assert (Hnum : numbered_heading long_number_page = Raise ValueError).
  { destruct (@LongNumber.sec_re_digits (repeat "1"%char 4301)) as (m & Hm & H1 & H2);
      [discriminate | vm_compute; reflexivity |].
    unfold numbered_heading, long_number_page. rewrite Hm, H1, H2. cbn [bind or_empty].
    rewrite Heading.likely_heading_cases.
    replace (HeadingSpec.early_rejection (repeat "1"%char 4301) (norm_ws "Title"))
      with false by (vm_compute; reflexivity).
    replace (HeadingSpec.overflows (repeat "1"%char 4301))
      with true by (vm_compute; reflexivity).
    reflexivity. }
  assert (Hs : parse_sections [long_number_page] = Raise ValueError).
  { unfold parse_sections. rewrite Hraw. unfold parse_lines. cbn [foldM].
    unfold asm_step. rewrite Hnum. reflexivity. }
  split; [exact Hraw|]. split; [exact Hnum|]. split; [exact Hs|].
  intros dateutil filename. unfold parse_contract.
  destruct (guess_title_total [long_number_page] filename) as [t Ht].
  destruct (Dates.find_effective_date_total dateutil
              (Py.join ["010"%char] [long_number_page])) as [edate He].
  rewrite Ht. cbn [bind]. rewrite He. cbn [bind]. rewrite Hs. reflexivity.
Qed.

(** X24. The pipeline returns whenever no line of the text carries a
    heading number of more digits than [int] converts, whichever date
    parser is installed: the document has the type "Agreement", every
    section has a title that is not empty and clauses indexed 0, 1, ...
    in order, and when no line is a heading the section list is empty or
    the single Preamble section. *)
Theorem pipeline_returns :
  forall dateutil pages filename,
    forallb (fun l => negb (Grouping.long_number l)) (raw_lines pages) = true ->
    exists doc,
      parse_contract dateutil pages filename = Ok doc
      /\ contract_type doc = ("Agreement" : str)
      /\ Forall (fun s => title s <> []
                          /\ map index (clauses s) = seq 0 (length (clauses s)))
                (doc_sections doc)
      /\ (forallb (fun l => negb (Grouping.is_heading l)) (raw_lines pages) = true ->
          doc_sections doc = []
          \/ exists cls, doc_sections doc = [mkSection "Preamble" None cls]).
Proof.
  intros dateutil pages filename Hshort.
  destruct (@parse_contract_returns dateutil pages filename Hshort)
    as (t & edate & secs & _ & _ & Hs & Hd).
  pose proof (@sections_well_formed pages secs Hs) as Hwf.
  eexists. split; [exact Hd|]. split; [reflexivity|]. split.
  - cbn [doc_sections]. apply Forall_map.
    eapply Forall_impl; [|exact Hwf]. intros s Hsec. exact Hsec.
  - intros Hno. cbn [doc_sections]. unfold parse_sections in Hs.
    destruct (@preamble_only _ _ Hno Hs) as [->|[cls ->]]; [left; reflexivity|].
    right. exists cls. reflexivity.
Qed.

Lemma pipeline_returns_witness :
  exists doc,
    parse_contract None ["LEASE AGREEMENT" ++ "010"%char :: "3. Payment Terms" : str]
                   "lease.pdf" = Ok doc
    /\ contract_type doc = ("Agreement" : str)
    /\ Forall (fun s => title s <> []
                        /\ map index (clauses s) = seq 0 (length (clauses s)))
              (doc_sections doc)
    /\ (forallb (fun l => negb (Grouping.is_heading l))
                (raw_lines ["LEASE AGREEMENT" ++ "010"%char :: "3. Payment Terms" : str])
        = true ->
        doc_sections doc = []
        \/ exists cls, doc_sections doc = [mkSection "Preamble" None cls]).
Proof.
  apply (@pipeline_returns None
           ["LEASE AGREEMENT" ++ "010"%char :: "3. Payment Terms" : str]
           ("lease.pdf" : str)).
  vm_compute. reflexivity.
Defined.

(** X25. When the heading filter raises.  For ASCII text the only
    exception of [likely_heading] is the [ValueError] of [int], and it is
    raised exactly when the number is a digit string of more digits than
    [int] converts and none of the guards tested before the conversion
    rejects the pair (clock-time number; title empty, ending with a
    period, longer than 120 characters, starting in lower case, or of
    more than 14 words without a colon). *)
Theorem likely_heading_raises_exactly :
  forall number title,
    Text.ascii_only number = true ->
    Text.ascii_only title = true ->
    (forall e, likely_heading number title = Raise e -> e = ValueError)
    /\ (likely_heading number title = Raise ValueError
        <-> HeadingSpec.overflows number = true
            /\ HeadingSpec.early_rejection number title = false).
Proof.
  intros number title _ _. split.
  - intros e H. apply (proj1 (@Heading.likely_heading_raise number title e H)).
  - split.
    + intros H. apply (proj2 (@Heading.likely_heading_raise number title _ H)).
    + intros [Ho He]. rewrite Heading.likely_heading_cases, He, Ho. reflexivity.
Qed.

Lemma likely_heading_raises_exactly_witness :
  likely_heading (repeat "1"%char 4301) "Title" = Raise ValueError
  <-> HeadingSpec.overflows (repeat "1"%char 4301) = true
      /\ HeadingSpec.early_rejection (repeat "1"%char 4301) "Title" = false.
Proof.
  apply (proj2 (@likely_heading_raises_exactly (repeat "1"%char 4301) ("Title" : str)
                  ltac:(vm_compute; reflexivity) ltac:(vm_compute; reflexivity))).
Defined.

(** * More facts about the matcher: positions *)

Module RePos.

Import ReFacts.

(** A way leads from [s] to a position whose passed text is the eaten
    text put before that of [s], the eaten text being the start of the
    text ahead of [s]. *)
Definition leads (s : mstate) (w : way) : Prop :=
  before (snd w) = fst w ++ before s
  /\ after s = rev (fst w) ++ after (snd w).

Lemma leads_refl s : leads s ([], s).
Proof. split; reflexivity. Qed.

Lemma leads_extend s w1 w2 :
  leads s w1 -> leads (snd w1) w2 -> leads s (extend (fst w1) w2).
Proof.
  intros [Hb1 Ha1] [Hb2 Ha2]. unfold leads, extend. cbn [fst snd]. split.
  - rewrite Hb2, Hb1, app_assoc. reflexivity.
  - rewrite Ha1, Ha2, rev_app_distr, app_assoc. reflexivity.
Qed.

Lemma run_rep_loop icase lo hi r s :
  run icase (Rep lo hi r) s = rep_loop (run icase r) (length (after s)) lo hi s.
Proof. destruct r; try reflexivity. apply run_rep_atom. Qed.

Lemma rep_loop_leads (step : mstate -> list way) :
  (forall s w, In w (step s) -> leads s w) ->
  forall fuel lo hi s w, In w (rep_loop step fuel lo hi s) -> leads s w.
Proof.
  intros Hstep fuel.
  induction fuel as [|fuel IH]; intros lo hi s w Hin; simpl in Hin.
  - destruct (lo =? 0); simpl in Hin; [destruct Hin as [<-|[]]; apply leads_refl
                                      | contradiction].
  - assert (Hstop : In w (if lo =? 0 then [([], s)] else []) -> leads s w).
    { destruct (lo =? 0); simpl; [intros [<-|[]]; apply leads_refl | contradiction]. }
    destruct hi as [[|h]|]; auto;
      apply in_app_or in Hin; destruct Hin as [Hin|Hin]; auto;
      apply in_flat_map in Hin; destruct Hin as (w1 & H1 & H2);
      destruct (fst w1) eqn:E; try contradiction; rewrite <- E in H2;
      apply in_map_iff in H2; destruct H2 as (w2 & <- & H2);
      apply leads_extend; eauto.
Qed.

Lemma run_leads icase r : forall s w, In w (run icase r s) -> leads s w.
Proof.
  induction r; intros s w Hin.
  - simpl in Hin. destruct Hin as [<-|[]]. apply leads_refl.
  - simpl in Hin. destruct (after s) as [|c rest] eqn:E; [contradiction|].
    destruct (atom_has icase a c); [|contradiction].
    destruct Hin as [<-|[]]. split; cbn; [reflexivity | exact E].
  - simpl in Hin. apply in_flat_map in Hin; destruct Hin as (w1 & H1 & H2).
    apply in_map_iff in H2; destruct H2 as (w2 & <- & H2).
    apply leads_extend; eauto.
  - simpl in Hin. apply in_app_or in Hin; destruct Hin; eauto.
  - rewrite run_rep_loop in Hin. eapply rep_loop_leads; eauto.
  - simpl in Hin. apply in_map_iff in Hin; destruct Hin as (w1 & <- & H1).
    destruct (IHr _ _ H1) as [Hb Ha]. split; cbn; assumption.
  - simpl in Hin. destruct (before s); [destruct Hin as [<-|[]]; apply leads_refl
                                       | contradiction].
  - simpl in Hin. destruct (after s) as [|c [|d rest]]; try contradiction.
    + destruct Hin as [<-|[]]; apply leads_refl.
    + destruct (Char.eqb c "010"); [destruct Hin as [<-|[]]; apply leads_refl
                                   | contradiction].
  - simpl in Hin. destruct (xorb _ _); [destruct Hin as [<-|[]]; apply leads_refl
                                       | contradiction].
  - simpl in Hin. destruct (behind _ _ _); [destruct Hin as [<-|[]]; apply leads_refl
                                           | contradiction].
Qed.

End RePos.

(** * More about the normaliser *)

Module NormaliserMore.

Import Direct Text Normaliser.

(** *** Words *)

Lemma split_lstrip s : Py.split_go [] (Py.lstrip s) = Py.split_go [] s.
Proof.
  induction s as [|c s IH]; simpl; [reflexivity|].
  destruct (Char.is_space c) eqn:E; [exact IH|].
  simpl. rewrite E. reflexivity.
Qed.

Lemma split_squeeze s :
  forall cur f, (f = true -> cur = []) ->
    Py.split_go cur (squeeze f s) = Py.split_go cur s.
Proof.
  induction s as [|c s IH]; intros cur f Hf; simpl; [reflexivity|].
  destruct (Char.is_space c) eqn:E.
  - destruct f.
    + rewrite (Hf eq_refl). simpl. apply IH. reflexivity.
    + simpl. f_equal. apply IH. reflexivity.
  - simpl. rewrite E. apply IH. discriminate.
Qed.

Lemma split_go_cons cur c s :
  Py.split_go cur (c :: s)
  = if Char.is_space c then Py.flush_word cur (Py.split_go [] s)
    else Py.split_go (c :: cur) s.
Proof. reflexivity. Qed.

Lemma split_rstrip s : forall cur, Py.split_go cur (Py.rstrip s) = Py.split_go cur s.
Proof.
  induction s as [|c s IH]; intros cur; [reflexivity|].
  rewrite rstrip_cons, (split_go_cons cur c s).
  destruct (Py.rstrip s) as [|d r] eqn:Er.
  - destruct (Char.is_space c) eqn:E.
    + rewrite <- (IH []). reflexivity.
    + rewrite <- (IH (c :: cur)). simpl. rewrite E. reflexivity.
  - rewrite (split_go_cons cur c (d :: r)).
    destruct (Char.is_space c); rewrite IH; reflexivity.
Qed.

Lemma split_norm_ws s : Py.split (norm_ws s) = Py.split s.
Proof.
  rewrite norm_ws_squeeze. unfold Py.split, Py.strip.
  rewrite split_lstrip, split_rstrip. apply split_squeeze. discriminate.
Qed.

Lemma join_cons2 sep (x y : str) l :
  Py.join sep (x :: y :: l) = x ++ sep ++ Py.join sep (y :: l).
Proof. reflexivity. Qed.

Lemma join_split_tidy t :
  forall cur,
    tidy (negb (nonempty cur)) t = true ->
    Py.join " " (Py.split_go cur t) = rev cur ++ t.
Proof.
  induction t as [|c t IH]; intros cur H; simpl in H.
  - destruct cur as [|x cur]; [discriminate|]. cbn. rewrite app_nil_r. reflexivity.
  - simpl. destruct (Char.is_space c) eqn:E.
    + apply andb_true_iff in H; destruct H as [H Ht].
      apply andb_true_iff in H; destruct H as [Hf Hc].
      apply Ascii.eqb_eq in Hc. subst c.
      destruct cur as [|x cur]; [discriminate|].
      pose proof (IH [] Ht) as Hj. cbn [rev app] in Hj.
      cbn [Py.flush_word].
      destruct (Py.split_go [] t) as [|w ws] eqn:Es.
      * cbn in Hj. subst t. discriminate.
      * rewrite join_cons2. f_equal. cbn [app]. f_equal. exact Hj.
    + etransitivity; [exact (IH (c :: cur) H)|].
      cbn [rev]. rewrite <- app_assoc. reflexivity.
Qed.

Lemma join_split_normal t : normal t = true -> Py.join " " (Py.split t) = t.
Proof.
  destruct t as [|c t]; [reflexivity|]. intros H.
  apply (join_split_tidy (c :: t) []). exact H.
Qed.

Lemma norm_ws_words s : norm_ws s = Py.join " " (Py.split s).
Proof.
  rewrite <- split_norm_ws. symmetry. apply join_split_normal, norm_ws_normal.
Qed.

(** *** Non-blank characters *)

Lemma nonblank_squeeze s : forall f, nonblank (squeeze f s) = nonblank s.
Proof.
  induction s as [|c s IH]; intros f; simpl; [reflexivity|].
  destruct (Char.is_space c) eqn:E; simpl.
  - destruct f; simpl; apply IH.
  - rewrite E. simpl. f_equal. apply IH.
Qed.

Lemma nonblank_lstrip s : nonblank (Py.lstrip s) = nonblank s.
Proof.
  induction s as [|c s IH]; simpl; [reflexivity|].
  destruct (Char.is_space c) eqn:E; simpl; [exact IH|].
  rewrite E. reflexivity.
Qed.

Lemma nonblank_rstrip s : nonblank (Py.rstrip s) = nonblank s.
Proof.
  unfold Py.rstrip, nonblank.
  rewrite filter_rev. fold (nonblank (Py.lstrip (rev s))).
  rewrite nonblank_lstrip. unfold nonblank. rewrite filter_rev, rev_involutive.
  reflexivity.
Qed.

Lemma nonblank_norm_ws s : nonblank (norm_ws s) = nonblank s.
Proof.
  rewrite norm_ws_squeeze. unfold Py.strip.
  rewrite nonblank_lstrip, nonblank_rstrip. apply nonblank_squeeze.
Qed.

Lemma nonblank_gap p q n :
  forall s, length s <= n -> nonblank (gap p q s) = nonblank s.
Proof.
  induction n as [|n IH]; intros s Hlen.
  - destruct s; [reflexivity | simpl in Hlen; lia].
  - destruct s as [|c1 [|c2 rest]]; [reflexivity..|].
    rewrite gap_cons2. destruct (p c1 && q c2).
    + cbn [nonblank filter]. change (Char.is_space " ") with true. cbn [negb].
      fold (nonblank (gap p q rest)). fold (nonblank rest).
      rewrite IH by (simpl in Hlen; lia). reflexivity.
    + cbn [nonblank filter]. fold (nonblank (gap p q (c2 :: rest))).
      rewrite IH by (simpl in Hlen |- *; lia). reflexivity.
Qed.

Lemma nonblank_gap_all p q s : nonblank (gap p q s) = nonblank s.
Proof. apply (@nonblank_gap p q (length s)). lia. Qed.

Lemma nonblank_desquash s : nonblank (desquash s) = nonblank s.
Proof.
  rewrite desquash_gaps. destruct s as [|c s]; [reflexivity|].
  rewrite !nonblank_gap_all. reflexivity.
Qed.

(** *** Scanned pages *)

Lemma sub_blank fuel :
  forall b a, length a < fuel ->
    sub_from false (At Space) (fun _ => []) fuel b a = nonblank a.
Proof.
  induction fuel as [|fuel IH]; intros b a Hlen; [lia|].
  destruct a as [|c a']; [reflexivity|].
  cbn [sub_from run start after before caps atom_has nonblank filter].
  destruct (Char.is_space c); cbn [negb app before after];
    rewrite IH by (simpl in Hlen; lia); reflexivity.
Qed.

Lemma is_scanned_nonblank s : is_scanned s = (length (nonblank s) <? 20).
Proof. unfold is_scanned, sub. rewrite sub_blank by lia. reflexivity. Qed.

(** *** What desquash leaves behind *)

Lemma desquash_gapless s : gapless (desquash s).
Proof.
  rewrite desquash_gaps. destruct s as [|c s]; [repeat split|].
  fold lower_c upper_c letter_c digit_c.
  set (x1 := gap lower_c upper_c (c :: s)). set (x2 := gap letter_c digit_c x1).
  repeat split.
  - apply (@nogap_kept lower_c upper_c eq_refl eq_refl digit_c letter_c (length x2)); [lia|].
    apply (@nogap_kept lower_c upper_c eq_refl eq_refl letter_c digit_c (length x1)); [lia|].
    apply (@nogap_made lower_c upper_c eq_refl eq_refl upper_not_lower (length (c :: s))).
    lia.
  - apply (@nogap_kept letter_c digit_c eq_refl eq_refl digit_c letter_c (length x2)); [lia|].
    apply (@nogap_made letter_c digit_c eq_refl eq_refl digit_not_letter (length x1)). lia.
  - apply (@nogap_made digit_c letter_c eq_refl eq_refl letter_not_digit (length x2)). lia.
Qed.

Lemma gapless_fixed s : gapless s -> desquash s = s.
Proof.
  intros (H1 & H2 & H3). rewrite desquash_gaps. destruct s as [|c s]; [reflexivity|].
  fold lower_c upper_c letter_c digit_c.
  rewrite (@nogap_fixed lower_c upper_c _ H1), (@nogap_fixed letter_c digit_c _ H2),
    (@nogap_fixed digit_c letter_c _ H3).
  reflexivity.
Qed.

(** *** Blank lines *)

Lemma normal_nonblank s : normal s = true -> nonblank s = [] -> s = [].
Proof.
  destruct s as [|c s]; [reflexivity|]. simpl.
  destruct (Char.is_space c); [discriminate|]. simpl. discriminate.
Qed.

Lemma norm_ws_empty s : norm_ws s = [] <-> nonblank s = [].
Proof.
  split; intros H.
  - rewrite <- nonblank_norm_ws, H. reflexivity.
  - apply normal_nonblank; [apply norm_ws_normal|].
    rewrite nonblank_norm_ws. exact H.
Qed.

End NormaliserMore.

(** * Further properties of the normaliser *)

(** X1. Whitespace normalisation is the text's words joined with single
    spaces: [norm_ws(s)] equals [" ".join(s.split())] for every string. *)
Theorem norm_ws_join_split :
  forall s, norm_ws s = Py.join " " (Py.split s).
Proof. exact NormaliserMore.norm_ws_words. Qed.

(** X2. Neither [norm_ws] nor [desquash] drops, adds, changes or reorders
    a non-blank character: only blanks are touched.  So a line is
    emptied by [norm_ws] exactly when it holds blanks only. *)
Theorem normalising_keeps_nonblank :
  forall s,
    Text.nonblank (norm_ws s) = Text.nonblank s
    /\ Text.nonblank (desquash s) = Text.nonblank s
    /\ (norm_ws s = [] <-> Text.nonblank s = []).
Proof.
  intros s. split; [apply NormaliserMore.nonblank_norm_ws|].
  split; [apply NormaliserMore.nonblank_desquash | apply NormaliserMore.norm_ws_empty].
Qed.

(** X3. After [desquash] no lower-case letter stands right before an
    upper-case one, no letter right before a digit and no digit right
    before a letter; and [desquash] leaves a text unchanged exactly when
    the text has no such boundary. *)
Theorem desquash_closes_gaps :
  forall s, Text.gapless (desquash s) /\ (desquash s = s <-> Text.gapless s).
Proof.
  intros s. split; [apply NormaliserMore.desquash_gapless|].
  split.
  - intros H. rewrite <- H. apply NormaliserMore.desquash_gapless.
  - apply NormaliserMore.gapless_fixed.
Qed.

(** X4. [protect_times] keeps the length of the text and every
    character, except that some periods become colons. *)
Theorem protect_times_only_periods :
  forall s,
    Forall2 Protect.dot_to_colon s (protect_times s)
    /\ length (protect_times s) = length s.
Proof.
  intros s.
  assert (H : Forall2 Protect.dot_to_colon s (protect_times s))
    by apply Normaliser.protect_times_rel.
  split; [exact H|]. symmetry. eapply Forall2_length; eauto.
Qed.

(** X5. [is_scanned] holds exactly when the text has fewer than 20
    non-blank characters; whitespace normalisation and desquashing do
    not change the verdict. *)
Theorem is_scanned_counts_nonblank :
  forall s,
    is_scanned s = (length (Text.nonblank s) <? 20)
    /\ is_scanned (norm_ws s) = is_scanned s
    /\ is_scanned (desquash s) = is_scanned s.
Proof.
  intros s. rewrite !NormaliserMore.is_scanned_nonblank.
  rewrite NormaliserMore.nonblank_norm_ws, NormaliserMore.nonblank_desquash.
  repeat split.
Qed.

(** * Further properties of the assembler's input *)

Lemma filter_map_swap {A B : Type} (f : A -> B) (p : B -> bool) (l : list A) :
  filter p (map f l) = map f (filter (fun x => p (f x)) l).
Proof.
  induction l as [|x l IH]; simpl; [reflexivity|].
  destruct (p (f x)); simpl; rewrite IH; reflexivity.
Qed.

Lemma nonempty_norm_desquash l :
  nonempty (norm_ws (desquash l)) = nonempty (Text.nonblank l).
Proof.
  destruct (norm_ws (desquash l)) as [|c r] eqn:E.
  - apply NormaliserMore.norm_ws_empty in E.
    rewrite NormaliserMore.nonblank_desquash in E. rewrite E. reflexivity.
  - destruct (Text.nonblank l) eqn:En; [|reflexivity].
    rewrite <- NormaliserMore.nonblank_desquash in En.
    apply NormaliserMore.norm_ws_empty in En. congruence.
Qed.

(** X6. The lines handed to the assembler are the lines of the pages in
    reading order, the blank ones dropped, each desquashed,
    whitespace-normalised and time-protected; every one of them is
    non-empty and whitespace-normal, and page boundaries play no part:
    the lines of two page sequences put together are the lines of the
    first followed by the lines of the second. *)
Theorem raw_lines_shape :
  forall pages,
    raw_lines pages
    = map (fun l => protect_times (norm_ws (desquash l)))
          (filter (fun l => nonempty (Text.nonblank l)) (flat_map Py.splitlines pages))
    /\ Forall (fun l => l <> [] /\ Direct.normal l = true) (raw_lines pages)
    /\ forall more, raw_lines (pages ++ more) = raw_lines pages ++ raw_lines more.
Proof.
  intros pages. split; [|split].
  - unfold raw_lines. rewrite filter_map_swap, map_map. f_equal.
    apply filter_ext. intros l. apply nonempty_norm_desquash.
  - apply Forall_forall. intros l Hl. split.
    + unfold raw_lines in Hl.
      apply in_map_iff in Hl; destruct Hl as (x & <- & Hx).
      apply filter_In in Hx; destruct Hx as [_ Hx].
      pose proof (Normaliser.protect_times_rel (S (length x)) [] x) as Hr.
      fold (sub false TIME_DOT_RE time_repl x) in Hr. fold (protect_times x) in Hr.
      destruct Hr; [discriminate Hx | discriminate].
    + eapply Normaliser.raw_lines_normal; eauto.
  - intros more. unfold raw_lines.
    rewrite flat_map_app, map_app, filter_app, map_app. reflexivity.
Qed.

(** * More facts about the matcher: captured text *)

Module ReSolid.

Import ReFacts RePos.

Definition all_chars : list ascii := map ascii_of_nat (seq 0 256).

(** Every character the atom accepts is non-blank. *)
Definition atom_solid (icase : bool) (a : atom) : bool :=
  forallb (fun x => implb (atom_has icase a x) (negb (Char.is_space x))) all_chars.

(** [solid r]: every match of [r] eats a non-blank character. *)
Fixpoint solid (icase : bool) (r : regex) : bool :=
  match r with
  | At a => atom_solid icase a
  | Seq a b => solid icase a || solid icase b
  | Alt a b => solid icase a && solid icase b
  | Rep lo _ r' => (1 <=? lo) && solid icase r'
  | Grp _ r' => solid icase r'
  | _ => false
  end.

(** [caps_solid n r]: every group [n] inside [r] has a solid body. *)
Fixpoint caps_solid (icase : bool) (n : nat) (r : regex) : bool :=
  match r with
  | Seq a b | Alt a b => caps_solid icase n a && caps_solid icase n b
  | Rep _ _ r' => caps_solid icase n r'
  | Grp m r' => (negb (m =? n) || solid icase r') && caps_solid icase n r'
  | _ => true
  end.

Definition has_solid (s : str) : Prop := exists c, In c s /\ Char.is_space c = false.

(** Group [n], when set, holds a non-blank character. *)
Definition group_solid (n : nat) (s : mstate) : Prop :=
  forall g, group n s = Some g -> has_solid g.

Lemma in_all_chars c : In c all_chars.
Proof.
  assert (H : existsb (Ascii.eqb c) all_chars = true)
    by (destruct c as [[] [] [] [] [] [] [] []]; vm_compute; reflexivity).
  apply existsb_exists in H. destruct H as (x & Hx & E).
  apply Ascii.eqb_eq in E. subst x. exact Hx.
Qed.

Lemma atom_solid_spec icase a x :
  atom_solid icase a = true -> atom_has icase a x = true -> Char.is_space x = false.
Proof.
  unfold atom_solid. intros H Hx.
  rewrite forallb_forall in H. specialize (H x (in_all_chars x)).
  rewrite Hx in H. simpl in H. apply negb_true_iff in H. exact H.
Qed.

Lemma has_solid_app_l e1 e2 : has_solid e1 -> has_solid (e2 ++ e1).
Proof. intros (c & Hc & E). exists c. split; [apply in_or_app; auto | exact E]. Qed.

Lemma has_solid_app_r e1 e2 : has_solid e2 -> has_solid (e2 ++ e1).
Proof. intros (c & Hc & E). exists c. split; [apply in_or_app; auto | exact E]. Qed.

Lemma has_solid_rev e : has_solid e -> has_solid (rev e).
Proof. intros (c & Hc & E). exists c. split; [apply in_rev in Hc; exact Hc | exact E]. Qed.

Lemma rep_loop_solid (step : mstate -> list way) :
  (forall s w, In w (step s) -> has_solid (fst w)) ->
  forall fuel lo hi s w,
    1 <= lo -> In w (rep_loop step fuel lo hi s) -> has_solid (fst w).
Proof.
  intros Hstep fuel lo hi s w Hlo Hin.
  assert (Hz : (lo =? 0) = false) by (apply Nat.eqb_neq; lia).
  destruct fuel as [|fuel]; simpl in Hin; rewrite Hz in Hin; [contradiction|].
  destruct hi as [[|h]|]; try contradiction;
    rewrite app_nil_r in Hin;
    apply in_flat_map in Hin; destruct Hin as (w1 & H1 & H2);
    destruct (fst w1) eqn:E; try contradiction; rewrite <- E in H2;
    apply in_map_iff in H2; destruct H2 as (w2 & <- & H2);
    unfold extend; cbn [fst]; apply has_solid_app_l; eauto.
Qed.

Lemma run_solid icase r :
  solid icase r = true -> forall s w, In w (run icase r s) -> has_solid (fst w).
Proof.
  induction r; intros Hs s w Hin; try discriminate.
  - simpl in Hs, Hin. destruct (after s) as [|c rest]; [contradiction|].
    destruct (atom_has icase a c) eqn:Ea; [|contradiction].
    destruct Hin as [<-|[]]. exists c. split; [left; reflexivity|].
    eapply atom_solid_spec; eauto.
  - simpl in Hs, Hin. apply in_flat_map in Hin; destruct Hin as (w1 & H1 & H2).
    apply in_map_iff in H2; destruct H2 as (w2 & <- & H2).
    unfold extend; cbn [fst].
    apply orb_true_iff in Hs; destruct Hs as [Hs|Hs].
    + apply has_solid_app_l; eauto.
    + apply has_solid_app_r; eauto.
  - simpl in Hs, Hin. apply andb_true_iff in Hs; destruct Hs.
    apply in_app_or in Hin; destruct Hin; eauto.
  - simpl in Hs. apply andb_true_iff in Hs; destruct Hs as [Hlo Hs].
    assert (1 <= lo) by (destruct lo; [discriminate | lia]).
    rewrite run_rep_loop in Hin. eapply rep_loop_solid; eauto.
  - simpl in Hs, Hin. apply in_map_iff in Hin; destruct Hin as (w1 & <- & H1).
    cbn [set_cap fst]. eauto.
Qed.

Lemma rep_loop_keeps_way (P : mstate -> Prop) (step : mstate -> list way) :
  (forall s w, In w (step s) -> P s -> P (snd w)) ->
  forall fuel lo hi s w, In w (rep_loop step fuel lo hi s) -> P s -> P (snd w).
Proof. apply rep_loop_keeps. Qed.

Lemma run_caps_solid icase n r :
  caps_solid icase n r = true ->
  forall s w, In w (run icase r s) -> group_solid n s -> group_solid n (snd w).
Proof.
  induction r; intros Hc s w Hin Hs.
  - simpl in Hin. destruct Hin as [<-|[]]; exact Hs.
  - simpl in Hin. destruct (after s) as [|c rest]; [contradiction|].
    destruct (atom_has icase a c); [|contradiction].
    destruct Hin as [<-|[]]; exact Hs.
  - simpl in Hc, Hin. apply andb_true_iff in Hc; destruct Hc.
    apply in_flat_map in Hin; destruct Hin as (w1 & H1 & H2).
    apply in_map_iff in H2; destruct H2 as (w2 & <- & H2). simpl. eauto.
  - simpl in Hc, Hin. apply andb_true_iff in Hc; destruct Hc.
    apply in_app_or in Hin; destruct Hin; eauto.
  - simpl in Hc. rewrite run_rep_loop in Hin.
    eapply rep_loop_keeps_way with (P := group_solid n); eauto.
  - simpl in Hc, Hin. apply andb_true_iff in Hc; destruct Hc as [Hg Hc].
    apply in_map_iff in Hin; destruct Hin as (w1 & <- & H1).
    unfold group_solid, group, set_cap. cbn [snd caps lookup].
    destruct (Nat.eqb_spec n0 n) as [->|Hne].
    + intros g [= <-]. apply has_solid_rev.
      simpl in Hg. eapply run_solid; eauto.
    + apply (IHr Hc _ _ H1 Hs).
  - simpl in Hin. destruct (before s); [destruct Hin as [<-|[]]; exact Hs | contradiction].
  - simpl in Hin. destruct (after s) as [|c [|d rest]]; try contradiction.
    + destruct Hin as [<-|[]]; exact Hs.
    + destruct (Char.eqb c "010"); [destruct Hin as [<-|[]]; exact Hs | contradiction].
  - simpl in Hin. destruct (xorb _ _); [destruct Hin as [<-|[]]; exact Hs | contradiction].
  - simpl in Hin. destruct (behind _ _ _); [destruct Hin as [<-|[]]; exact Hs | contradiction].
Qed.

Lemma start_group_solid n b a : group_solid n (start b a).
Proof. intros g H. discriminate. Qed.

Lemma rmatch_group_solid icase n r s m g :
  caps_solid icase n r = true ->
  rmatch icase r s = Some m -> group n m = Some g -> has_solid g.
Proof.
  unfold rmatch. intros Hc Hm Hg.
  destruct (run icase r (start [] s)) as [|w l] eqn:E; [discriminate|].
  injection Hm as <-.
  eapply (@run_caps_solid icase n r Hc (start [] s) w); eauto.
  - rewrite E. left. reflexivity.
  - apply start_group_solid.
Qed.

Lemma has_solid_norm_ws g : has_solid g -> norm_ws g <> [].
Proof.
  intros (c & Hc & E) H.
  apply NormaliserMore.norm_ws_empty in H.
  assert (Hin : In c (Text.nonblank g)).
  { unfold Text.nonblank. apply filter_In. split; [exact Hc|]. rewrite E. reflexivity. }
  rewrite H in Hin. contradiction.
Qed.

End ReSolid.

(** * Further properties of the clause segmenter *)

Module Segmenter.

Import ReFacts ReSolid Clauses.

Lemma first_match_solid n pats :
  forallb (fun p => caps_solid (fst p) n (snd p)) pats = true ->
  forall l m g, first_match pats l = Some m -> group n m = Some g -> has_solid g.
Proof.
  induction pats as [|[icase r] pats IH]; simpl; intros Hall l m g Hm Hg; [discriminate|].
  apply andb_true_iff in Hall; destruct Hall as [Hr Hall].
  destruct (rmatch icase r l) eqn:E.
  - injection Hm as <-. eapply rmatch_group_solid; eauto.
  - eauto.
Qed.

Lemma seg_step_plain st l :
  unlabelled l ->
  seg_step st l = Ok (mkSeg (seg_clauses st) (cur_label st) (cur_parts st ++ [l])).
Proof. unfold unlabelled, seg_step. intros ->. reflexivity. Qed.

Lemma seg_step_label l m :
  first_match CLAUSE_RE l = Some m ->
  exists lbl parts,
    lbl <> [] /\ length parts <= 1
    /\ forall st, seg_step st l = Ok (mkSeg (seg_clauses (flush_clause st)) lbl parts).
Proof.
  intros Hm.
  destruct (@Total.first_match_defines 1 CLAUSE_RE eq_refl _ _ Hm) as [g Hg].
  pose proof (@first_match_solid 1 CLAUSE_RE eq_refl _ _ _ Hm Hg) as Hsolid.
  exists (norm_ws g).
  exists (match (match lastindex m with
                 | Some k => if 2 <=? k then group 2 m else group k m
                 | None => Some []
                 end) with
          | Some (c :: r) => [norm_ws (c :: r)]
          | _ => []
          end).
  split; [apply has_solid_norm_ws; exact Hsolid|].
  split.
  - destruct (match lastindex m with Some _ => _ | None => _ end) as [[|c r]|]; simpl; lia.
  - intros st. unfold seg_step. rewrite Hm, Hg. reflexivity.
Qed.

Lemma foldM_app {A S : Type} (f : S -> A -> res S) (l1 l2 : list A) (s : S) :
  foldM f (l1 ++ l2) s = (s' <- foldM f l1 s ;; foldM f l2 s').
Proof.
  revert s. induction l1 as [|x l1 IH]; intros s; simpl; [reflexivity|].
  destruct (f s x); simpl; [apply IH | reflexivity].
Qed.

(** *** Lines without a label *)

Lemma fold_plain lines :
  Forall unlabelled lines ->
  forall st,
    foldM seg_step lines st
    = Ok (mkSeg (seg_clauses st) (cur_label st) (cur_parts st ++ lines)).
Proof.
  induction 1 as [|l ls Hl _ IH]; intros st; simpl.
  - rewrite app_nil_r. destruct st; reflexivity.
  - rewrite (seg_step_plain st Hl). cbn [bind]. rewrite IH. cbn.
    rewrite <- app_assoc. reflexivity.
Qed.

(** *** Counting and labels *)

Definition pending (st : seg) : nat := if nonempty (cur_parts st) then 1 else 0.

Definition labelled_tail (cs : list Clause) : Prop :=
  Forall (fun c => label c <> []) (tl cs).

Definition well (n : nat) (st : seg) : Prop :=
  length (seg_clauses st) + pending st <= n
  /\ (cur_label st = [] -> seg_clauses st = [])
  /\ labelled_tail (seg_clauses st).

Lemma flush_clause_well n st :
  well n st ->
  length (seg_clauses (flush_clause st)) <= n
  /\ labelled_tail (seg_clauses (flush_clause st)).
Proof.
  intros (Hn & Hl & Ht). unfold flush_clause, pending in *. cbn [seg_clauses].
  destruct (nonempty (cur_parts st)); [|split; [lia | exact Ht]].
  split; [rewrite length_app; simpl; lia|].
  unfold labelled_tail in *.
  destruct (seg_clauses st) as [|c cs] eqn:E; [constructor|].
  cbn [app tl] in *. apply Forall_app. split; [exact Ht|].
  constructor; [|constructor]. cbn [label]. intros H. specialize (Hl H). discriminate.
Qed.

Lemma Ok_inj {A : Type} (a b : A) : Ok a = Ok b -> a = b.
Proof. congruence. Qed.

Lemma seg_step_well n st l st' :
  well n st -> seg_step st l = Ok st' -> well (S n) st'.
Proof.
  intros Hw Hs.
  destruct (first_match CLAUSE_RE l) as [m|] eqn:Hm.
  - destruct (seg_step_label l Hm) as (lbl & parts & Hne & Hlen & Hstep).
    rewrite Hstep in Hs. apply Ok_inj in Hs. subst st'.
    destruct (flush_clause_well Hw) as [Hn Ht].
    remember (seg_clauses (flush_clause st)) as F eqn:EF. clear EF.
    unfold well, pending. cbn [seg_clauses cur_label cur_parts].
    split; [destruct parts; cbn [nonempty]; lia|]. split; [congruence | exact Ht].
  - rewrite (seg_step_plain st Hm) in Hs. injection Hs as <-.
    destruct Hw as (Hn & Hl & Ht).
    unfold well, pending in *. cbn [seg_clauses cur_label cur_parts].
    split; [|split; assumption].
    destruct (cur_parts st); cbn [nonempty app] in *; lia.
Qed.

Lemma fold_well lines :
  forall n st st', well n st -> foldM seg_step lines st = Ok st' ->
                   well (length lines + n) st'.
Proof.
  induction lines as [|l ls IH]; intros n st st' Hw H; simpl in H.
  - injection H as <-. exact Hw.
  - destruct (seg_step st l) as [st1|] eqn:E; [|discriminate]. cbn [bind] in H.
    cbn [length]. replace (S (length ls) + n) with (length ls + S n) by lia.
    eapply IH; [eapply seg_step_well; eauto | exact H].
Qed.

Lemma reindex_labels cs : forall i, map label (reindex i cs) = map label cs.
Proof. induction cs as [|c cs IH]; intros i; simpl; [|rewrite IH]; reflexivity. Qed.

Lemma reindex_tail cs i : tl (reindex i cs) = reindex (S i) (tl cs).
Proof. destruct cs; reflexivity. Qed.

Lemma reindex_normal cs :
  forall i, Forall (fun c => Direct.normal (text c) = true) (reindex i cs).
Proof.
  induction cs as [|c cs IH]; intros i; simpl; constructor; [|apply IH].
  apply Normaliser.norm_ws_normal.
Qed.

Lemma labelled_tail_reindex cs i : labelled_tail cs -> labelled_tail (reindex i cs).
Proof.
  unfold labelled_tail. rewrite reindex_tail. generalize (S i) (tl cs).
  intros j l H. revert j. induction H as [|c l Hc _ IH]; intros j; simpl; constructor; auto.
Qed.

(** *** Cutting at a labelled line *)

(** Two states hold the same open clause, and the clauses of the first
    are [P] followed by those of the second, indices apart. *)
Definition ahead (P : list (str * str)) (a b : seg) : Prop :=
  cur_label a = cur_label b /\ cur_parts a = cur_parts b
  /\ map core (seg_clauses a) = P ++ map core (seg_clauses b).

Lemma flush_clause_ahead P a b :
  ahead P a b ->
  map core (seg_clauses (flush_clause a)) = P ++ map core (seg_clauses (flush_clause b)).
Proof.
  intros (Hl & Hp & Hc). unfold flush_clause. cbn [seg_clauses]. rewrite Hp.
  destruct (nonempty (cur_parts b)); [|exact Hc].
  rewrite !map_app, Hc, <- app_assoc, Hl. reflexivity.
Qed.

Lemma seg_step_ahead P a b l a' :
  ahead P a b -> seg_step a l = Ok a' ->
  exists b', seg_step b l = Ok b' /\ ahead P a' b'.
Proof.
  intros Hab Ha.
  destruct (first_match CLAUSE_RE l) as [m|] eqn:Hm.
  - destruct (seg_step_label l Hm) as (lbl & parts & _ & _ & Hstep).
    rewrite Hstep in Ha. apply Ok_inj in Ha. subst a'.
    eexists. split; [apply Hstep|].
    split; [reflexivity|]. split; [reflexivity|].
    apply flush_clause_ahead. exact Hab.
  - rewrite (seg_step_plain a Hm) in Ha. apply Ok_inj in Ha. subst a'.
    eexists. split; [apply (seg_step_plain b Hm)|].
    destruct Hab as (Hl & Hp & Hc).
    split; [exact Hl|]. split; [cbn; rewrite Hp; reflexivity | exact Hc].
Qed.

Lemma fold_ahead P ls :
  forall a b a', ahead P a b -> foldM seg_step ls a = Ok a' ->
                 exists b', foldM seg_step ls b = Ok b' /\ ahead P a' b'.
Proof.
  induction ls as [|l ls IH]; intros a b a' Hab Ha; simpl in Ha |- *.
  - apply Ok_inj in Ha. subst a'. eauto.
  - destruct (seg_step a l) as [a1|] eqn:E; [|discriminate]. cbn [bind] in Ha.
    destruct (@seg_step_ahead P a b l a1 Hab E) as (b1 & -> & Hab1). cbn [bind]. eauto.
Qed.

Lemma reindex_core cs cs' :
  map core cs = map core cs' -> forall i, reindex i cs = reindex i cs'.
Proof.
  revert cs'. induction cs as [|c cs IH]; intros [|c' cs'] H i; try discriminate;
    [reflexivity|].
  simpl in H. injection H as Ht Hl Hr. simpl. rewrite Ht, Hl. f_equal. auto.
Qed.

Lemma reindex_app cs1 cs2 i :
  reindex i (cs1 ++ cs2) = reindex i cs1 ++ reindex (length cs1 + i) cs2.
Proof.
  revert i. induction cs1 as [|c cs1 IH]; intros i; simpl; [reflexivity|].
  rewrite IH. do 3 f_equal. lia.
Qed.

Lemma reindex_bump cs n : forall i, map (bump n) (reindex i cs) = reindex (n + i) cs.
Proof.
  induction cs as [|c cs IH]; intros i; simpl; [reflexivity|].
  rewrite IH. unfold bump at 1. cbn [text label index]. do 2 f_equal. lia.
Qed.

(** Clauses with the texts and labels [P] and any indices. *)
Lemma core_split cs P Q :
  map core cs = P ++ Q ->
  exists c1 c2, cs = c1 ++ c2 /\ map core c1 = P /\ map core c2 = Q.
Proof.
  revert cs. induction P as [|p P IH]; intros cs H.
  - exists [], cs. auto.
  - destruct cs as [|c cs]; [discriminate|]. simpl in H. injection H as Hc H.
    destruct (IH _ H) as (c1 & c2 & -> & H1 & H2).
    exists (c :: c1), c2. simpl. rewrite Hc, H1. auto.
Qed.

End Segmenter.

(** X7. Lines none of which carries a clause label make up one clause:
    for a non-empty list of such lines the segmenter returns the single
    unlabelled clause, index 0, whose text is the lines joined with
    spaces and whitespace-normalised. *)
Theorem unlabelled_lines_one_clause :
  forall lines,
    lines <> [] ->
    Forall Clauses.unlabelled lines ->
    segment_clauses lines = Ok [mkClause (norm_ws (Py.join " " lines)) [] 0].
Proof.
  intros lines Hne Hall. unfold segment_clauses.
  rewrite (Segmenter.fold_plain Hall). cbn [bind seg_clauses cur_label cur_parts app].
  destruct lines as [|l ls]; [congruence|].
  unfold flush_clause.
  cbn [cur_parts nonempty seg_clauses app reindex text label cur_label length].
  rewrite Normaliser.norm_ws_idem. reflexivity.
Qed.

Lemma unlabelled_lines_one_clause_witness :
  segment_clauses ["The parties agree as follows" : str; "and so on" : str]
  = Ok [mkClause "The parties agree as follows and so on" [] 0].
Proof.
  apply (@unlabelled_lines_one_clause
           ["The parties agree as follows" : str; "and so on" : str]).
  - discriminate.
  - repeat constructor.
Defined.

(** X8. A labelled line cuts the segmentation: the clauses of the lines
    up to a line that matches a clause pattern, followed by the clauses
    of the lines from it on with their indices moved up, are the clauses
    of the whole list. *)
Theorem segment_clauses_cut :
  forall ls1 l ls2,
    first_match CLAUSE_RE l <> None ->
    exists cs1 cs2,
      segment_clauses ls1 = Ok cs1
      /\ segment_clauses (l :: ls2) = Ok cs2
      /\ segment_clauses (ls1 ++ l :: ls2)
         = Ok (cs1 ++ map (Clauses.bump (length cs1)) cs2).
Proof.
  intros ls1 l ls2 Hl.
  destruct (first_match CLAUSE_RE l) as [m|] eqn:Hm; [clear Hl | congruence].
  destruct (Segmenter.seg_step_label l Hm) as (lbl & parts & _ & _ & Hstep).
  set (init := mkSeg [] [] []).
  destruct (@Total.foldM_total _ _ seg_step Total.seg_step_total ls1 init) as [st1 H1].
  set (a0 := mkSeg (seg_clauses (flush_clause st1)) lbl parts).
  set (b0 := mkSeg (seg_clauses (flush_clause init)) lbl parts).
  destruct (@Total.foldM_total _ _ seg_step Total.seg_step_total ls2 a0) as [a1 Ha].
  assert (Hab : Segmenter.ahead (map Clauses.core (seg_clauses (flush_clause st1))) a0 b0).
  { split; [reflexivity|]. split; [reflexivity|]. cbn. rewrite app_nil_r. reflexivity. }
  destruct (@Segmenter.fold_ahead _ ls2 a0 b0 a1 Hab Ha) as (b1 & Hb & Hab1).
  pose proof (Segmenter.flush_clause_ahead Hab1) as Hcore.
  exists (reindex 0 (seg_clauses (flush_clause st1))),
         (reindex 0 (seg_clauses (flush_clause b1))).
  unfold segment_clauses. fold init.
  split; [rewrite H1; reflexivity|].
  split.
  - cbn [foldM]. rewrite Hstep. cbn [bind]. fold b0. rewrite Hb. reflexivity.
  - rewrite Segmenter.foldM_app, H1. cbn [bind foldM]. rewrite Hstep. cbn [bind].
    fold a0. rewrite Ha. cbn [bind]. f_equal.
    rewrite <- map_app in Hcore.
    rewrite (Segmenter.reindex_core _ _ Hcore 0), Segmenter.reindex_app.
    rewrite Segmenter.reindex_bump, Assembler.reindex_length. reflexivity.
Qed.

Lemma segment_clauses_cut_witness :
  exists cs1 cs2,
    segment_clauses ["Tenant shall" : str] = Ok cs1
    /\ segment_clauses ["(a) pay rent" : str; "on time" : str] = Ok cs2
    /\ segment_clauses ["Tenant shall" : str; "(a) pay rent" : str; "on time" : str]
       = Ok (cs1 ++ map (Clauses.bump (length cs1)) cs2).
Proof.
  apply (@segment_clauses_cut ["Tenant shall" : str] ("(a) pay rent" : str)
                              ["on time" : str]).
  vm_compute. discriminate.
Defined.

(** X9. For every list of lines the segmenter returns at most as many
    clauses as there are lines, every clause text is whitespace-normal,
    and only the first clause can be without a label. *)
Theorem segment_clauses_bounds :
  forall lines, exists cs,
    segment_clauses lines = Ok cs
    /\ length cs <= length lines
    /\ Forall (fun c => Direct.normal (text c) = true) cs
    /\ Forall (fun c => label c <> []) (tl cs).
Proof.
  intros lines. unfold segment_clauses.
  destruct (@Total.foldM_total _ _ seg_step Total.seg_step_total lines (mkSeg [] [] []))
    as [st H].
  rewrite H. cbn [bind]. eexists. split; [reflexivity|].
  assert (Hw : Segmenter.well (length lines + 0) st).
  { eapply Segmenter.fold_well; [|exact H].
    split; [cbn; lia|]. split; [reflexivity | constructor]. }
  destruct (Segmenter.flush_clause_well Hw) as [Hn Ht].
  rewrite Assembler.reindex_length. split; [lia|].
  split; [apply Segmenter.reindex_normal | apply Segmenter.labelled_tail_reindex, Ht].
Qed.

(** * Further properties of the section assembler *)

Module AssemblerMore.

Import Grouping ReSolid.

Lemma chunks_body lines :
  forallb (fun l => negb (is_heading l)) lines = true ->
  forall t n b, chunks (Some (t, n, b)) lines = [(t, n, b ++ lines)].
Proof.
  induction lines as [|l ls IH]; intros Hno t n b; cbn [chunks].
  - rewrite app_nil_r. reflexivity.
  - simpl in Hno. apply andb_true_iff in Hno; destruct Hno as [Hl Hno].
    unfold is_heading in Hl. destruct (classify l); [discriminate|].
    cbn [add_body]. rewrite (IH Hno). rewrite <- app_assoc. reflexivity.
Qed.

Lemma mapM_single {A B : Type} (f : A -> res B) (x : A) :
  mapM f [x] = (y <- f x ;; Ok [y]).
Proof. simpl. destruct (f x); reflexivity. Qed.

Definition numbered_ok (num : option str) : Prop :=
  match num with
  | Some n => n <> []
  | None => True
  end.

Lemma classify_number l ttl num : classify l = Heading ttl num -> numbered_ok num.
Proof.
  unfold classify, numbered.
  assert (Hrest :
    (if allcaps_heading l
     then Heading (if Py.isupper l then Py.title l else l) None
     else if titlecase_heading l then Heading l None else Body)
    = Heading ttl num -> numbered_ok num).
  { destruct (allcaps_heading l); [intros [= <- <-]; exact I|].
    destruct (titlecase_heading l); [intros [= <- <-]; exact I | discriminate]. }
  destruct (rmatch true SEC_RE l) as [m|] eqn:Hm; [|exact Hrest].
  destruct (group 2 m) as [g2|]; [|exact Hrest].
  destruct (HeadingSpec.accept _ _); [|exact Hrest].
  intros [= <- <-]. unfold numbered_ok.
  destruct (group 1 m) as [g|] eqn:Hg; [|exact I].
  destruct (@rmatch_group_solid true 1 SEC_RE l m g eq_refl Hm Hg) as (c & Hc & _).
  intros ->. contradiction.
Qed.

Lemma chunks_numbered lines :
  forall cur,
    Forall (fun r : chunk => numbered_ok (snd (fst r))) (closed cur) ->
    Forall (fun r : chunk => numbered_ok (snd (fst r))) (chunks cur lines).
Proof.
  induction lines as [|l ls IH]; intros cur Hcur; cbn [chunks]; [exact Hcur|].
  destruct (classify l) as [ttl num|] eqn:Hk.
  - apply Forall_app. split; [exact Hcur|].
    apply IH. constructor; [|constructor]. cbn. eapply classify_number; eauto.
  - apply IH. constructor; [|constructor].
    destruct cur as [[[t n] b]|]; cbn; [|exact I].
    inversion Hcur; subst. assumption.
Qed.

Lemma emit_number r s : emit r = Ok s -> number s = snd (fst r).
Proof.
  destruct r as [[t n] b]. unfold emit.
  destruct (mapM explode_inline_bullets b); [|discriminate].
  cbn [bind]. destruct (segment_clauses _); [|discriminate].
  cbn [bind]. intros [= <-]. reflexivity.
Qed.

End AssemblerMore.

(** X10. A heading cuts the assembly.  For an accepted heading line,
    whenever the assembler returns on the whole list, its result is the
    sections of the lines before the heading followed by the sections of
    the lines from the heading on; and whenever it returns on both parts,
    it returns their concatenation on the whole.  What stands before a
    heading never changes the sections after it. *)
Theorem parse_lines_cut :
  forall ls1 l ls2,
    Grouping.is_heading l = true ->
    (forall secs,
        parse_lines (ls1 ++ l :: ls2) = Ok secs ->
        exists s1 s2,
          parse_lines ls1 = Ok s1
          /\ parse_lines (l :: ls2) = Ok s2
          /\ secs = s1 ++ s2)
    /\ (forall s1 s2,
          parse_lines ls1 = Ok s1 ->
          parse_lines (l :: ls2) = Ok s2 ->
          parse_lines (ls1 ++ l :: ls2) = Ok (s1 ++ s2)).
Proof.
  intros ls1 l ls2 Hl. unfold Grouping.is_heading in Hl.
  destruct (Grouping.classify l) as [ttl num|] eqn:Hk; [clear Hl | discriminate].
  assert (Hcut : forall cur,
             mapM Grouping.emit (Grouping.chunks cur (ls1 ++ l :: ls2))
             = (xs <- mapM Grouping.emit (Grouping.chunks cur ls1) ;;
                ys <- mapM Grouping.emit (Grouping.chunks None (l :: ls2)) ;;
                Ok (xs ++ ys))).
  { intros cur.
    rewrite (@chunks_app_heading ls1 l ls2 ttl num Hk), Assembler.mapM_app.
    cbn [Grouping.chunks]. rewrite Hk. reflexivity. }
  split.
  - intros secs H.
    pose proof (@Assembler.parse_lines_fine _ _ H) as Hf.
    apply Forall_app in Hf. destruct Hf as [Hf1 Hf2].
    apply Assembler.parse_lines_ok_chunks in H. rewrite Hcut in H.
    rewrite (@Assembler.parse_lines_chunks ls1 Hf1).
    rewrite (@Assembler.parse_lines_chunks (l :: ls2) Hf2).
    destruct (mapM Grouping.emit (Grouping.chunks None ls1)) as [s1|]; [|discriminate].
    cbn [bind] in H.
    destruct (mapM Grouping.emit (Grouping.chunks None (l :: ls2))) as [s2|];
      [|discriminate].
    cbn [bind] in H. injection H as <-. eauto.
  - intros s1 s2 H1 H2.
    pose proof (@Assembler.parse_lines_fine _ _ H1) as Hf1.
    pose proof (@Assembler.parse_lines_fine _ _ H2) as Hf2.
    rewrite (@Assembler.parse_lines_chunks ls1 Hf1) in H1.
    rewrite (@Assembler.parse_lines_chunks (l :: ls2) Hf2) in H2.
    rewrite (@Assembler.parse_lines_chunks (ls1 ++ l :: ls2))
      by (apply Forall_app; split; assumption).
    rewrite Hcut, H1. cbn [bind]. rewrite H2. reflexivity.
Qed.

Lemma parse_lines_cut_witness :
  parse_lines ["intro" : str; "3. Payment Terms" : str; "due monthly" : str]
  = Ok ([mkSection "Preamble" None [mkClause "intro" [] 0]]
        ++ [mkSection "Payment Terms" (Some ("3" : str)) [mkClause "due monthly" [] 0]]).
Proof.
  apply (proj2 (@parse_lines_cut ["intro" : str] ("3. Payment Terms" : str)
                  ["due monthly" : str] eq_refl));
    vm_compute; reflexivity.
Defined.

(** X11. When no line is a heading, the whole text is the Preamble: for a
    non-empty list of such lines, none of which carries a number of more
    digits than [int] converts, the assembler returns the single section
    titled "Preamble", without number, whose clauses are the segmentation
    of all the lines, each exploded, in order. *)
Theorem no_heading_single_preamble :
  forall lines,
    lines <> [] ->
    forallb (fun l => negb (Grouping.is_heading l)) lines = true ->
    forallb (fun l => negb (Grouping.long_number l)) lines = true ->
    exists parts cls,
      mapM explode_inline_bullets lines = Ok parts
      /\ segment_clauses (concat parts) = Ok cls
      /\ parse_lines lines = Ok [mkSection "Preamble" None cls].
Proof.
  intros lines Hne Hno Hshort.
  destruct (@Total.mapM_total _ _ _ Total.explode_inline_bullets_total lines) as [parts Hp].
  destruct (Total.segment_clauses_total (concat parts)) as [cls Hc].
  exists parts, cls. split; [exact Hp|]. split; [exact Hc|].
  rewrite (@Assembler.parse_lines_chunks lines (@Assembler.short_fine lines Hshort)).
  destruct lines as [|l ls]; [congruence|].
  cbn [Grouping.chunks]. simpl in Hno.
  apply andb_true_iff in Hno; destruct Hno as [Hl Hno].
  unfold Grouping.is_heading in Hl. destruct (Grouping.classify l); [discriminate|].
  cbn [Grouping.add_body]. rewrite (AssemblerMore.chunks_body ls Hno).
  change ([l] ++ ls) with (l :: ls).
  rewrite AssemblerMore.mapM_single. unfold Grouping.emit.
  rewrite Hp. cbn [bind]. rewrite Hc. reflexivity.
Qed.

Lemma no_heading_single_preamble_witness :
  exists parts cls,
    mapM explode_inline_bullets ["first line of text" : str; "(a) item" : str] = Ok parts
    /\ segment_clauses (concat parts) = Ok cls
    /\ parse_lines ["first line of text" : str; "(a) item" : str]
       = Ok [mkSection "Preamble" None cls].
Proof.
  apply (@no_heading_single_preamble ["first line of text" : str; "(a) item" : str]).
  - discriminate.
  - vm_compute. reflexivity.
  - vm_compute. reflexivity.
Defined.

(** X12. In the sections the assembler returns, a section number, when
    present, is never the empty string; so the export step of
    [parse_contract], which turns an empty number into an absent one,
    changes no section the assembler produced. *)
Theorem section_numbers_not_empty :
  forall pages secs,
    parse_sections pages = Ok secs ->
    Forall (fun s => forall n, number s = Some n -> n <> []) secs
    /\ map export_section secs = secs.
Proof.
  intros pages secs H. unfold parse_sections in H.
  apply Assembler.parse_lines_ok_chunks in H.
  assert (Hall : Forall (fun s => AssemblerMore.numbered_ok (number s)) secs).
  { eapply (@mapM_Forall2 _ _ Grouping.emit
              (fun r : Grouping.chunk => AssemblerMore.numbered_ok (snd (fst r))));
      [| |exact H].
    - intros r s Hr E. rewrite (AssemblerMore.emit_number _ E). exact Hr.
    - apply AssemblerMore.chunks_numbered. constructor. }
  split.
  - eapply Forall_impl; [|exact Hall]. intros s Hs n Hn.
    cbv beta in Hs. rewrite Hn in Hs. exact Hs.
  - clear H. induction Hall as [|s l Hs _ IH]; [reflexivity|].
    simpl. rewrite IH. f_equal.
    destruct s as [t [n|] cs]; [|reflexivity].
    unfold export_section. cbn [title number clauses] in *.
    destruct n; [exfalso; apply Hs; reflexivity | reflexivity].
Qed.

Lemma section_numbers_not_empty_witness :
  map export_section
      [mkSection "Payment Terms" (Some ("3" : str)) [mkClause "due monthly" [] 0]]
  = [mkSection "Payment Terms" (Some ("3" : str)) [mkClause "due monthly" [] 0]].
Proof.
  apply (@section_numbers_not_empty
           ["3. Payment Terms" ++ "010"%char :: "due monthly" : str]
           [mkSection "Payment Terms" (Some ("3" : str)) [mkClause "due monthly" [] 0]]).
  vm_compute. reflexivity.
Defined.

(** * More facts about the matcher: required characters *)

Module ReNeeds.

Import ReFacts RePos ReSolid.

Section Needs.

Variable p : ascii -> bool.

(** Every character the atom accepts satisfies [p]. *)
Definition atom_within (icase : bool) (a : atom) : bool :=
  forallb (fun x => implb (atom_has icase a x) (p x)) all_chars.

(** [needs r]: every match of [r] eats a character that satisfies [p]. *)
Fixpoint needs (icase : bool) (r : regex) : bool :=
  match r with
  | At a => atom_within icase a
  | Seq a b => needs icase a || needs icase b
  | Alt a b => needs icase a && needs icase b
  | Rep lo _ r' => (1 <=? lo) && needs icase r'
  | Grp _ r' => needs icase r'
  | _ => false
  end.

Definition has_p (s : str) : Prop := exists c, In c s /\ p c = true.

Lemma rep_loop_needs (step : mstate -> list way) :
  (forall s w, In w (step s) -> has_p (fst w)) ->
  forall fuel lo hi s w,
    1 <= lo -> In w (rep_loop step fuel lo hi s) -> has_p (fst w).
Proof.
  intros Hstep fuel lo hi s w Hlo Hin.
  assert (Hz : (lo =? 0) = false) by (apply Nat.eqb_neq; lia).
  destruct fuel as [|fuel]; simpl in Hin; rewrite Hz in Hin; [contradiction|].
  destruct hi as [[|h]|]; try contradiction;
    rewrite app_nil_r in Hin;
    apply in_flat_map in Hin; destruct Hin as (w1 & H1 & H2);
    destruct (fst w1) eqn:E; try contradiction; rewrite <- E in H2;
    apply in_map_iff in H2; destruct H2 as (w2 & <- & H2);
    unfold extend; cbn [fst];
    destruct (Hstep _ _ H1) as (c & Hc & Hp);
    exists c; (split; [apply in_or_app; right; exact Hc | exact Hp]).
Qed.

Lemma run_needs icase r :
  needs icase r = true -> forall s w, In w (run icase r s) -> has_p (fst w).
Proof.
  induction r; intros Hs s w Hin; try discriminate.
  - simpl in Hs, Hin. destruct (after s) as [|c rest]; [contradiction|].
    destruct (atom_has icase a c) eqn:Ea; [|contradiction].
    destruct Hin as [<-|[]]. exists c. split; [left; reflexivity|].
    unfold atom_within in Hs. rewrite forallb_forall in Hs.
    specialize (Hs c (in_all_chars c)). rewrite Ea in Hs. exact Hs.
  - simpl in Hs, Hin. apply in_flat_map in Hin; destruct Hin as (w1 & H1 & H2).
    apply in_map_iff in H2; destruct H2 as (w2 & <- & H2).
    unfold extend; cbn [fst].
    apply orb_true_iff in Hs; destruct Hs as [Hs|Hs].
    + destruct (IHr1 Hs _ _ H1) as (c & Hc & Hp).
      exists c. split; [apply in_or_app; right; exact Hc | exact Hp].
    + destruct (IHr2 Hs _ _ H2) as (c & Hc & Hp).
      exists c. split; [apply in_or_app; left; exact Hc | exact Hp].
  - simpl in Hs, Hin. apply andb_true_iff in Hs; destruct Hs.
    apply in_app_or in Hin; destruct Hin; eauto.
  - simpl in Hs. apply andb_true_iff in Hs; destruct Hs as [Hlo Hs].
    assert (1 <= lo) by (destruct lo; [discriminate | lia]).
    rewrite run_rep_loop in Hin. eapply rep_loop_needs; eauto.
  - simpl in Hs, Hin. apply in_map_iff in Hin; destruct Hin as (w1 & <- & H1).
    cbn [set_cap fst]. eauto.
Qed.

(** Where no character ahead satisfies [p], a pattern that needs one has
    no match. *)
Lemma run_without icase r b a :
  needs icase r = true ->
  forallb (fun c => negb (p c)) a = true ->
  run icase r (start b a) = [].
Proof.
  intros Hn Ha.
  destruct (run icase r (start b a)) as [|w l] eqn:E; [reflexivity|].
  assert (Hin : In w (run icase r (start b a))) by (rewrite E; left; reflexivity).
  destruct (@run_needs icase r Hn _ _ Hin) as (c & Hc & Hp).
  destruct (@run_leads icase r _ _ Hin) as [_ Hl]. cbn [start after] in Hl.
  rewrite forallb_forall in Ha.
  assert (Hca : In c a).
  { rewrite Hl. apply in_or_app. left. apply in_rev in Hc. exact Hc. }
  specialize (Ha c Hca). rewrite Hp in Ha. discriminate.
Qed.

Lemma search_from_without icase r a :
  needs icase r = true ->
  forallb (fun c => negb (p c)) a = true ->
  forall b, search_from icase r b a = None.
Proof.
  intros Hn. induction a as [|c a IH]; intros Ha b; simpl.
  - rewrite (@run_without icase r b [] Hn Ha). reflexivity.
  - rewrite (@run_without icase r b (c :: a) Hn Ha).
    simpl in Ha. apply andb_true_iff in Ha. destruct Ha. auto.
Qed.

End Needs.

End ReNeeds.

(** * Further properties of the effective-date extractor *)

(** X13. A text without any decimal digit has no effective date: for
    every such text, and whichever date parser is installed, the
    extractor returns nothing. *)
Theorem no_digit_no_date :
  forall dateutil all_text,
    forallb (fun c => negb (Char.is_digit c)) all_text = true ->
    find_effective_date dateutil all_text = Ok None.
Proof.
  intros dateutil all_text H. unfold find_effective_date.
  assert (Htxt : forallb (fun c => negb (Char.is_digit c)) (" " ++ all_text ++ " ") = true).
  { rewrite !forallb_app, H. reflexivity. }
  assert (Hall : forallb (ReNeeds.needs Char.is_digit true) DATE_PATTERNS = true)
    by (vm_compute; reflexivity).
  revert Hall. generalize DATE_PATTERNS.
  induction l as [|pat pats IH]; intros Hall; simpl; [reflexivity|].
  simpl in Hall. apply andb_true_iff in Hall; destruct Hall as [Hp Hall].
  unfold search. rewrite (@ReNeeds.search_from_without Char.is_digit true pat _ Hp Htxt). auto.
Qed.

Lemma no_digit_no_date_witness :
  find_effective_date None "This Agreement is effective immediately." = Ok None.
Proof.
  apply (@no_digit_no_date None "This Agreement is effective immediately.").
  vm_compute. reflexivity.
Defined.

(** * Further properties of the title guesser *)

Module TitleFacts.

Import Keywords.

Lemma nonempty_map {A B : Type} (f : A -> B) l : nonempty (map f l) = nonempty l.
Proof. destruct l; reflexivity. Qed.

Lemma nonempty_app {A : Type} (l1 l2 : list A) :
  nonempty (l1 ++ l2) = nonempty l1 || nonempty l2.
Proof. destruct l1; reflexivity. Qed.

(** A literal matches, letter case aside, exactly at a text that starts
    with it. *)
Lemma run_lit k :
  forall s,
    nonempty (run true (Lit k) s)
    = Py.startswith (map Char.lower k) (map Char.lower (after s)).
Proof.
  induction k as [|c k IH]; intros s; [reflexivity|].
  destruct k as [|c2 k].
  - simpl. destruct (after s) as [|x rest]; [reflexivity|]. simpl.
    unfold Char.eqb. rewrite (Ascii.eqb_sym (Char.lower x) (Char.lower c)).
    destruct (Ascii.eqb (Char.lower c) (Char.lower x)); reflexivity.
  - change (Lit (c :: c2 :: k)) with (Seq (At (Chr c)) (Lit (c2 :: k))).
    cbn [run]. destruct (after s) as [|x rest]; [reflexivity|].
    cbn [atom_has map Py.startswith]. unfold Char.eqb.
    rewrite (Ascii.eqb_sym (Char.lower x) (Char.lower c)).
    destruct (Ascii.eqb (Char.lower c) (Char.lower x)); [|reflexivity].
    cbn [flat_map fst snd andb]. rewrite app_nil_r, nonempty_map, IH. reflexivity.
Qed.

Lemma run_title s :
  nonempty (run true TITLE_RE s)
  = existsb (fun k => Py.startswith (map Char.lower k) (map Char.lower (after s))) KEYWORDS.
Proof.
  unfold TITLE_RE, Alts, KEYWORDS. cbn [run existsb].
  rewrite nonempty_map, !nonempty_app, !run_lit, orb_false_r, !orb_assoc. reflexivity.
Qed.

Lemma existsb_orb {A : Type} (f g : A -> bool) l :
  existsb (fun x => f x || g x) l = existsb f l || existsb g l.
Proof.
  induction l as [|x l IH]; simpl; [reflexivity|]. rewrite IH.
  destruct (f x), (g x), (existsb f l), (existsb g l); reflexivity.
Qed.

Lemma search_title a :
  forall b,
    match search_from true TITLE_RE b a with Some _ => true | None => false end
    = existsb (fun k => Py.is_infix (map Char.lower k) (map Char.lower a)) KEYWORDS.
Proof.
  induction a as [|c a IH]; intros b.
  - cbn [search_from]. pose proof (run_title (start b [])) as H.
    destruct (run true TITLE_RE (start b [])); [reflexivity|].
    vm_compute in H. discriminate.
  - cbn [search_from]. pose proof (run_title (start b (c :: a))) as H.
    cbn [start after] in H.
    transitivity
      (existsb (fun k => Py.startswith (map Char.lower k) (map Char.lower (c :: a))
                         || Py.is_infix (map Char.lower k) (map Char.lower a)) KEYWORDS);
      [|reflexivity].
    rewrite existsb_orb, <- H, <- (IH (c :: b)).
    destruct (run true TITLE_RE (start b (c :: a))); reflexivity.
Qed.

Lemma title_search line :
  match search true TITLE_RE line with Some _ => true | None => false end
  = has_keyword line.
Proof. apply search_title. Qed.

End TitleFacts.

(** X14. The title guesser looks at the first page only and reports the
    type "Agreement" always: the title is the whitespace-normalised first
    line of the first page that holds one of the seven keywords, in any
    letter case, and else the title derived from the file name; pages
    after the first never matter. *)
Theorem guess_title_first_keyword_line :
  forall pages filename,
    guess_title pages filename
    = Ok (match find Keywords.has_keyword (Py.splitlines (hd [] pages)) with
          | Some line => norm_ws line
          | None => Keywords.name_title filename
          end, "Agreement" : str)
    /\ guess_title pages filename = guess_title (firstn 1 pages) filename.
Proof.
  intros pages filename.
  assert (Hfind : forall l,
    find (fun line => match search true TITLE_RE line with
                      | Some _ => true | None => false end) l
    = find Keywords.has_keyword l).
  { induction l as [|x l IH]; simpl; [reflexivity|].
    rewrite TitleFacts.title_search, IH. reflexivity. }
  split.
  - unfold guess_title. destruct pages as [|p pages]; cbn [nonempty first bind hd].
    + reflexivity.
    + rewrite Hfind. destruct (find _ _); reflexivity.
  - destruct pages as [|p pages]; reflexivity.
Qed.

Module PathFacts.

Import Text.

Lemma fields_go_plain sep s :
  forall cur, lacks sep s = true -> fields_go sep cur s = [rev cur ++ s].
Proof.
  induction s as [|c s IH]; intros cur H; simpl.
  - rewrite app_nil_r. reflexivity.
  - simpl in H. apply andb_true_iff in H; destruct H as [Hc H].
    apply negb_true_iff in Hc. rewrite Hc, (IH (c :: cur) H). simpl.
    rewrite <- app_assoc. reflexivity.
Qed.

Lemma rfind_go_none c s :
  forall i found, lacks c s = true -> rfind_go c i s found = found.
Proof.
  induction s as [|d s IH]; intros i found H; simpl; [reflexivity|].
  simpl in H. apply andb_true_iff in H; destruct H as [Hd H].
  apply negb_true_iff in Hd. rewrite Hd. apply IH. exact H.
Qed.

Lemma rfind_go_last c pre post :
  lacks c post = true ->
  forall i found, rfind_go c i (pre ++ c :: post) found = Some (i + length pre).
Proof.
  intros Hpost. induction pre as [|d pre IH]; intros i found; simpl.
  - unfold Char.eqb. rewrite Ascii.eqb_refl, rfind_go_none by exact Hpost.
    f_equal. lia.
  - rewrite IH. f_equal. lia.
Qed.

Lemma lacks_app c s1 s2 : lacks c (s1 ++ s2) = lacks c s1 && lacks c s2.
Proof. apply forallb_app. Qed.

Lemma path_stem_suffix base ext :
  base <> [] -> ext <> [] ->
  lacks "/" base = true -> lacks "/" ext = true -> lacks "." ext = true ->
  path_stem (base ++ "."%char :: ext) = base.
Proof.
  intros Hb He Hsb Hse Hde. unfold path_stem, path_name.
  assert (Hs : lacks "/" (base ++ "."%char :: ext) = true).
  { rewrite lacks_app, Hsb. simpl. exact Hse. }
  rewrite (@fields_go_plain "/" _ [] Hs). cbn [rev app filter].
  assert (Hne : nonempty (base ++ "."%char :: ext) = true) by (destruct base; reflexivity).
  assert (Hdot : Py.eqb (base ++ "."%char :: ext) "." = false).
  { unfold Py.eqb. destruct (list_eq_dec _ _ _) as [E|]; [|reflexivity].
    apply (f_equal (@length ascii)) in E. rewrite length_app in E. simpl in E.
    destruct ext; [congruence | simpl in E; lia]. }
  rewrite Hne, Hdot. cbn [negb andb last].
  rewrite (@rfind_go_last "." base ext Hde 0 None). cbn [Nat.add].
  assert (H1 : (0 <? length base) = true).
  { apply Nat.ltb_lt. destruct base; [congruence | simpl; lia]. }
  assert (H2 : (length base <? length (base ++ "."%char :: ext) - 1) = true).
  { apply Nat.ltb_lt. rewrite length_app. simpl.
    destruct ext; [congruence | simpl; lia]. }
  rewrite H1, H2. cbn [andb].
  rewrite firstn_app, Nat.sub_diag, firstn_all. cbn [firstn]. apply app_nil_r.
Qed.

End PathFacts.

(** X15. With no page at all the title comes from the file name: for a
    name [base.ext] without directory part (a non-empty base, a non-empty
    extension without period) it is the base with every underscore and
    hyphen turned into a space, in title case. *)
Theorem empty_document_title :
  forall base ext,
    base <> [] -> ext <> [] ->
    Text.lacks "/" base = true ->
    Text.lacks "/" ext = true ->
    Text.lacks "." ext = true ->
    guess_title [] (base ++ "."%char :: ext)
    = Ok (Py.title (Py.replace "-" " " (Py.replace "_" " " base)), "Agreement" : str).
Proof.
  intros base ext Hb He Hsb Hse Hde. unfold guess_title.
  cbn [nonempty bind find].
  rewrite (@PathFacts.path_stem_suffix base ext Hb He Hsb Hse Hde). reflexivity.
Qed.

Lemma empty_document_title_witness :
  guess_title [] "my_lease-file.v2.pdf" = Ok ("My Lease File.V2" : str, "Agreement" : str).
Proof.
  apply (@empty_document_title ("my_lease-file.v2" : str) ("pdf" : str));
    solve [discriminate | vm_compute; reflexivity].
Defined.

(** * Properties of the text extraction cascade *)

Module Extraction.

Import Text PathFacts.

Lemma dense_enough ps :
  20 <= length (nonblank (concat ps)) -> needs_more ps = false.
Proof.
  intros H. unfold needs_more.
  rewrite NormaliserMore.is_scanned_nonblank.
  destruct ps as [|p ps]; [simpl in H; lia|].
  cbn [nonempty negb orb]. apply Nat.ltb_ge. exact H.
Qed.

Lemma join_fields sep s :
  forall cur, Py.join [sep] (fields_go sep cur s) = rev cur ++ s.
Proof.
  induction s as [|c s IH]; intros cur; simpl.
  - rewrite app_nil_r. reflexivity.
  - destruct (Char.eqb c sep) eqn:E.
    + apply Ascii.eqb_eq in E. subst c.
      specialize (IH []). simpl in IH.
      destruct (fields_go sep [] s) as [|f fs] eqn:Ef.
      * destruct s; simpl in Ef; [discriminate|].
        destruct (Char.eqb a sep); discriminate.
      * cbn [Py.join]. cbn [Py.join] in IH. rewrite IH. reflexivity.
    + rewrite IH. simpl. rewrite <- app_assoc. reflexivity.
Qed.

Lemma fields_lack sep s :
  forall cur, lacks sep cur = true ->
    Forall (fun f => lacks sep f = true) (fields_go sep cur s).
Proof.
  assert (Hrev : forall cur, lacks sep cur = true -> lacks sep (rev cur) = true).
  { intros cur H. unfold lacks in *. rewrite forallb_forall in *.
    intros x Hx. apply H. apply in_rev. exact Hx. }
  induction s as [|c s IH]; intros cur H; simpl.
  - constructor; [auto|constructor].
  - destruct (Char.eqb c sep) eqn:E.
    + constructor; [auto|]. apply IH. reflexivity.
    + apply IH. simpl. rewrite E, H. reflexivity.
Qed.

Lemma contains_lacks c s : Py.contains c s = negb (lacks c s).
Proof.
  unfold Py.contains, lacks. induction s as [|d s IH]; simpl; [reflexivity|].
  rewrite IH. unfold Char.eqb.
  destruct (Ascii.eqb_spec c d), (Ascii.eqb_spec d c); subst; try congruence; reflexivity.
Qed.

Lemma nonblank_app s t : nonblank (s ++ t) = nonblank s ++ nonblank t.
Proof. unfold nonblank. apply filter_app. Qed.

Lemma nonblank_fields s :
  forall cur, nonblank (concat (fields_go "012" cur s)) = nonblank (rev cur ++ s).
Proof.
  induction s as [|c s IH]; intros cur; simpl.
  - rewrite !app_nil_r. reflexivity.
  - destruct (Char.eqb c "012") eqn:E.
    + apply Ascii.eqb_eq in E. subst c.
      cbn [concat]. rewrite !nonblank_app, IH. reflexivity.
    + rewrite IH. simpl. rewrite <- app_assoc. reflexivity.
Qed.

End Extraction.

(** X16. A text layer is enough.  When OCR is not forced and PyMuPDF
    returns pages that hold at least 20 non-blank characters in all, these
    pages are the result: neither pdfminer nor OCR changes them, whatever
    they would give. *)
Theorem text_layer_suffices :
  forall x ps,
    FORCE_OCR x = false ->
    HAVE_PYMUPDF x = true ->
    fitz_pages x = Some ps ->
    20 <= length (Text.nonblank (concat ps)) ->
    extract_text_pages x = ps.
Proof.
  intros x ps Hf Hh Hp Hlen. unfold extract_text_pages.
  rewrite Hf, Hh, Hp. cbn [negb andb orb].
  rewrite (Extraction.dense_enough ps Hlen). cbn [andb].
  rewrite (Extraction.dense_enough ps Hlen). reflexivity.
Qed.

Lemma text_layer_suffices_witness :
  extract_text_pages
    (mkBackends false true (Some ["LEASE AGREEMENT between A and B" : str]) true None true
                (Some ["scan" : str]))
  = ["LEASE AGREEMENT between A and B" : str].
Proof.
  apply (@text_layer_suffices
           (mkBackends false true (Some ["LEASE AGREEMENT between A and B" : str]) true None
                       true (Some ["scan" : str]))
           ["LEASE AGREEMENT between A and B" : str]);
    solve [reflexivity | vm_compute; lia].
Defined.

(** X17. OCR is the last resort and, where it works, the final one.  When
    the OCR libraries are installed and the OCR run succeeds, the result
    is the OCR pages whenever OCR is forced, and otherwise it is either
    the OCR pages or a non-empty text layer with at least 20 non-blank
    characters: a sparse text layer is never returned. *)
Theorem ocr_last_resort :
  forall x ps,
    HAVE_OCR x = true ->
    ocr_pages x = Some ps ->
    (FORCE_OCR x = true -> extract_text_pages x = ps)
    /\ (extract_text_pages x = ps
        \/ (extract_text_pages x <> []
            /\ 20 <= length (Text.nonblank (concat (extract_text_pages x))))).
Proof.
  intros x ps Hh Ho. unfold extract_text_pages. rewrite Hh, Ho.
  split.
  - intros ->. reflexivity.
  - match goal with
    | |- context [if FORCE_OCR x || needs_more ?pg then _ else _] =>
        remember pg as pages eqn:E; clear E
    end.
    destruct (FORCE_OCR x); cbn [orb]; [left; reflexivity|].
    destruct (needs_more pages) eqn:En; [left; reflexivity|right].
    unfold needs_more in En. apply orb_false_iff in En. destruct En as [E1 E2].
    rewrite NormaliserMore.is_scanned_nonblank in E2. apply Nat.ltb_ge in E2.
    split; [|exact E2]. intros ->. discriminate.
Qed.

Lemma ocr_last_resort_witness :
  extract_text_pages (mkBackends true true (Some ["text layer" : str]) false None true
                                 (Some ["ocr" : str])) = ["ocr" : str].
Proof.
  apply (proj1 (@ocr_last_resort
                  (mkBackends true true (Some ["text layer" : str]) false None true
                              (Some ["ocr" : str]))
                  ["ocr" : str] eq_refl eq_refl)).
  reflexivity.
Defined.

(** X18. Pages from pdfminer.  When OCR is not forced, PyMuPDF gave
    nothing dense enough (it is missing, it failed, or its pages are empty
    or sparse) and pdfminer returns a text with at least 20 non-blank
    characters, the result is that text cut at the form feeds: joining
    the pages with form feeds gives the text back, and no page holds a
    form feed. *)
Theorem pdfminer_pages_round_trip :
  forall x text,
    FORCE_OCR x = false ->
    (forall ps, HAVE_PYMUPDF x = true -> fitz_pages x = Some ps -> needs_more ps = true) ->
    HAVE_PDFMINER x = true ->
    pdfminer_extract_text x = Some text ->
    20 <= length (Text.nonblank text) ->
    Py.join ["012"%char] (extract_text_pages x) = text
    /\ Forall (fun p => Text.lacks "012" p = true) (extract_text_pages x).
Proof.
  intros x text Hf H1 Hh Ht Hlen. unfold extract_text_pages.
  rewrite Hf, Hh, Ht. cbn [negb andb orb].
  match goal with
  | |- context [if needs_more ?pg && true then _ else _] =>
      assert (E1 : needs_more pg = true)
  end.
  { destruct (HAVE_PYMUPDF x) eqn:Ep; [|reflexivity].
    destruct (fitz_pages x) as [ps|] eqn:Efp; [|reflexivity].
    apply H1; reflexivity. }
  rewrite E1. cbn [andb].
  rewrite Extraction.contains_lacks.
  destruct (Text.lacks "012" text) eqn:El; cbn [negb].
  - rewrite Extraction.dense_enough
      by (cbn [concat]; rewrite app_nil_r; exact Hlen).
    split; [reflexivity|]. constructor; [exact El|constructor].
  - rewrite Extraction.dense_enough
      by (rewrite Extraction.nonblank_fields; exact Hlen).
    split; [apply (Extraction.join_fields "012" text [])|].
    apply Extraction.fields_lack. reflexivity.
Qed.

Lemma pdfminer_pages_round_trip_witness :
  Py.join ["012"%char]
    (extract_text_pages
       (mkBackends false false None true
          (Some ("Lease Agreement page one" ++ "012"%char :: "page two" : str)) false None))
  = ("Lease Agreement page one" ++ "012"%char :: "page two" : str).
Proof.
  apply (@pdfminer_pages_round_trip
           (mkBackends false false None true
              (Some ("Lease Agreement page one" ++ "012"%char :: "page two" : str)) false None)
           ("Lease Agreement page one" ++ "012"%char :: "page two" : str));
    solve [reflexivity | discriminate | vm_compute; lia].
Defined.

(** * Properties of the command line *)

Module Cli.

Import Text PathFacts.









End Cli.




(** * Properties of the inline bullet exploder *)

Module Exploder.

Import ReNeeds Text.

Lemma finditer_without (p : ascii -> bool) icase r line :
  needs p icase r = true ->
  forallb (fun c => negb (p c)) line = true ->
  finditer icase r line = [].
Proof.
  intros Hn Hl. unfold finditer. cbn [finditer_from].
  rewrite (@search_from_without p icase r line Hn Hl []). reflexivity.
Qed.

Lemma bullet_parts_nonempty tokens parts :
  bullet_parts tokens = Ok parts -> Forall (fun p => p <> []) parts.
Proof.
  revert parts. induction tokens as [|[b m] rest IH]; intros parts H; simpl in H.
  - apply Segmenter.Ok_inj in H. subst. constructor.
  - destruct (group_str 1 m) as [lbl|] eqn:Eg; [|discriminate]. cbn [bind] in H.
    destruct (bullet_parts rest) as [more|] eqn:Em; [|discriminate]. cbn [bind] in H.
    apply Segmenter.Ok_inj in H. subst.
    match goal with |- context [if ?c then _ else _] => destruct c end; [|auto].
    constructor; [|auto]. intros E. apply app_eq_nil in E. destruct E as [_ E].
    discriminate.
Qed.

End Exploder.

(** X21. A line without enumerator is not split.  A line that holds
    neither a period nor a closing parenthesis, or that holds no
    whitespace, is returned whole and unchanged. *)
Theorem plain_line_not_split :
  forall line,
    forallb (fun c => negb (Text.closer c)) line = true
    \/ forallb (fun c => negb (Char.is_space c)) line = true ->
    explode_inline_bullets line = Ok [line].
Proof.
  intros line H. unfold explode_inline_bullets.
  assert (E : finditer false INLINE_BULLET_SPLIT_RE line = []).
  { destruct H as [H|H].
    - apply (@Exploder.finditer_without Text.closer); [vm_compute; reflexivity|exact H].
    - apply (@Exploder.finditer_without Char.is_space); [vm_compute; reflexivity|exact H]. }
  rewrite E. reflexivity.
Qed.

Lemma plain_line_not_split_witness :
  explode_inline_bullets "Tenant shall pay: rent; utilities"
  = Ok ["Tenant shall pay: rent; utilities" : str].
Proof.
  apply (@plain_line_not_split "Tenant shall pay: rent; utilities").
  left. vm_compute. reflexivity.
Defined.

(** X22. No empty fragment.  The exploder raises nothing, and its result
    is either the line alone or a list of fragments none of which is
    empty. *)
Theorem explode_fragments_not_empty :
  forall line,
  exists parts,
    explode_inline_bullets line = Ok parts
    /\ (parts = [line] \/ Forall (fun p => p <> []) parts).
Proof.
  intros line. destruct (Total.explode_inline_bullets_total line) as [parts Hp].
  exists parts. split; [exact Hp|].
  unfold explode_inline_bullets in Hp.
  destruct (negb (nonempty (finditer false INLINE_BULLET_SPLIT_RE line)));
    [apply Segmenter.Ok_inj in Hp; left; congruence|].
  destruct (first (finditer false INLINE_BULLET_SPLIT_RE line)) as [[b0 m0]|];
    [|discriminate].
  cbn [bind] in Hp.
  match type of Hp with
  | bind ?w _ = _ => destruct w as [whole|]; [|discriminate]
  end.
  cbn [bind] in Hp. destruct whole; [apply Segmenter.Ok_inj in Hp; left; congruence|].
  destruct (bullet_parts (finditer false INLINE_BULLET_SPLIT_RE line)) as [ps|] eqn:Eb;
    [|discriminate].
  cbn [bind] in Hp. apply Segmenter.Ok_inj in Hp. right.
  pose proof (Exploder.bullet_parts_nonempty _ Eb) as Hne.
  destruct (nonempty (norm_ws (rev b0))) eqn:En; subst parts; [|exact Hne].
  constructor; [|exact Hne]. intros E. rewrite E in En. discriminate.
Qed.

Module Numbered.

Import Text Exploder.

Lemma scan_run icase a ds :
  forall lo e b aft cp,
    forallb (atom_has icase a) ds = true ->
    lo <= length ds ->
    head_is (atom_has icase a) aft = false ->
    exists tl,
      scan icase a lo None e b (ds ++ aft) cp
      = (rev ds ++ e, MState (rev ds ++ b) aft cp) :: tl.
Proof.
  induction ds as [|d ds IH]; intros lo e b aft cp Hds Hlo Haft.
  - assert (lo = 0) by (simpl in Hlo; lia). subst lo.
    destruct aft as [|c rest]; simpl; [eauto|].
    simpl in Haft. rewrite Haft. eauto.
  - simpl in Hds. apply andb_true_iff in Hds. destruct Hds as [Hd Hds].
    cbn [app scan]. rewrite Hd.
    destruct (IH (pred lo) (d :: e) (d :: b) aft cp Hds) as [tl Htl];
      [simpl in Hlo; lia | exact Haft |].
    cbn [option_map]. rewrite Htl. cbn [rev]. rewrite <- !app_assoc. cbn [app].
    eexists. reflexivity.
Qed.

Lemma digit_facts d :
  Char.is_digit d = true ->
  Char.eqb d "(" = false /\ atom_has false bullet_letter d = false.
Proof. destruct d as [[] [] [] [] [] [] [] []]; vm_compute; intuition congruence. Qed.

Lemma closer_facts p :
  closer p = true ->
  Char.is_digit p = false /\ atom_has false (Cls [One "."; One ")"]) p = true.
Proof. destruct p as [[] [] [] [] [] [] [] []]; vm_compute; intuition congruence. Qed.

Lemma numbered_token ds p c rest :
  ds <> [] ->
  forallb Char.is_digit ds = true ->
  closer p = true ->
  Char.is_space c = true ->
  exists w tl,
    run false INLINE_BULLET_SPLIT_RE (start [] (ds ++ p :: c :: rest)) = w :: tl
    /\ group 1 (snd w) = Some (ds ++ [p])
    /\ after (snd w) = Py.lstrip rest.
Proof.
  intros Hne Hds Hp Hc.
  destruct (closer_facts p Hp) as [Hpd Hpc].
  destruct (@scan_run false Digit ds 1 [] [] (p :: c :: rest) [] Hds) as [tl3 H3];
    [destruct ds; [congruence | simpl; lia] | simpl; exact Hpd |].
  destruct ds as [|d ds']; [congruence|].
  simpl in Hds. apply andb_true_iff in Hds. destruct Hds as [Hd _].
  destruct (digit_facts d Hd) as [Hd1 Hd2].
  unfold INLINE_BULLET_SPLIT_RE.
  cbn [Cat Alts Plus run start before after caps behind rev app flat_map map fst snd].
  cbn [app] in H3. rewrite H3.
  change (atom_has false (Chr "(") d = false) in Hd1. rewrite Hd1.
  assert (H2 : scan false bullet_letter 1 None [] [] (d :: ds' ++ p :: c :: rest) [] = []).
  { cbn [scan]. rewrite Hd2. reflexivity. }
  rewrite H2.
  cbn [flat_map map app fst snd after before caps extend].
  rewrite Hpc.
  cbn [flat_map map app fst snd after before caps extend set_cap].
  change (atom_has false Space c = true) in Hc.
  cbn [scan]. rewrite Hc. cbn [pred option_map Nat.eqb].
  match goal with
  | |- context [scan false Space 0 None ?e ?b rest ?cp] =>
      destruct (@Normaliser.scan_space_head rest e b cp) as (e' & b' & tl & Hs);
      rewrite Hs
  end.
  cbn [map app]. eexists _, _. split; [reflexivity|].
  cbn [snd extend fst group caps lookup Nat.eqb after].
  split; [|reflexivity].
  rewrite app_nil_r. cbn [rev]. rewrite rev_app_distr, rev_involutive.
  reflexivity.
Qed.

End Numbered.

(** X23. A leading numbered sentence is kept whole.  A line that starts
    with decimal digits, a period or closing parenthesis and whitespace,
    and whose first word after that, stripped of punctuation, is one of
    the common sentence starts, is returned whole and unchanged, whatever
    enumerators follow in it. *)
Theorem numbered_sentence_kept_whole :
  forall ds p c rest,
    Py.isdigit ds = true ->
    Text.closer p = true ->
    Char.is_space c = true ->
    Py.mem (Py.strip_of is_punct (hd [] (Py.split rest))) COMMON_SENTENCE_STARTS = true ->
    explode_inline_bullets (ds ++ p :: c :: rest) = Ok [ds ++ p :: c :: rest].
Proof.
  intros ds p c rest Hd Hp Hc Hw.
  assert (Hne : ds <> []) by (intros ->; discriminate).
  assert (Hds : forallb Char.is_digit ds = true)
    by (destruct ds; [discriminate | exact Hd]).
  destruct (@Numbered.numbered_token ds p c rest Hne Hds Hp Hc) as (w & tl & Hrun & Hg & Ha).
  remember (ds ++ p :: c :: rest) as line eqn:El.
  assert (Ht : exists more,
             finditer false INLINE_BULLET_SPLIT_RE line = ([], snd w) :: more).
  { unfold finditer. cbn [finditer_from].
    destruct line as [|l0 line']; cbn [search_from]; rewrite Hrun.
    - destruct ds; discriminate.
    - destruct (length (after (snd w)) <? length (l0 :: line')); [eauto|].
      destruct (after (snd w)); eauto. }
  destruct Ht as [more Ht]. unfold explode_inline_bullets. rewrite Ht.
  cbn [nonempty negb first bind length Nat.eqb].
  unfold group_str. rewrite Hg. cbn [bind].
  rewrite removelast_last, Hd, Ha.
  unfold Py.split. rewrite !NormaliserMore.split_lstrip.
  fold (Py.split rest).
  destruct (Py.split rest) as [|w0 ws]; cbn [nonempty first bind hd] in Hw |- *;
    rewrite Hw; reflexivity.
Qed.

Lemma numbered_sentence_kept_whole_witness :
  explode_inline_bullets "12. The Tenant shall: a. pay rent; b. keep the premises"
  = Ok ["12. The Tenant shall: a. pay rent; b. keep the premises" : str].
Proof.
  apply (@numbered_sentence_kept_whole ("12" : str) "."%char " "%char
           ("The Tenant shall: a. pay rent; b. keep the premises" : str));
    vm_compute; reflexivity.
Defined.
